(** * Gardi: ingestion, reconciliation and filtering of a rail timetable

    A shallow embedding of the core of [gardi/core/models.py],
    [gardi/core/filters.py] and [gardi/core/parser.py], followed by the
    properties established about it.

    Conventions of the embedding.
    - Python [str] values are modelled as [string] over ASCII characters.
    - Python floats that hold a time of day are modelled as exact rationals
      ([Q]); every comparison the code makes on them is against integer
      bounds and agrees with the exact one.  Numeric equality ([==] of
      Python on numbers) is [Qeq].
    - A Python exception is a value [Raise e] of the result type [Py].
    - Objects are modelled by their values.  The lists of the timetable
      hold distinct objects, so removal of an object from a list is
      removal at its position; the stages modelled here never read a
      field of a shared service that another of them writes.
    - [FilterQuery.ac] is annotated [Optional[bool]] but holds one of the
      strings ["all"], ["ac"], ["nonac"], or [None]; it is a string here.
    - The interpreter's recursion limit is not modelled. *)

From Stdlib Require Import List String Ascii ZArith QArith Bool Lia Arith.
From Stdlib Require Import Numbers.DecimalString.
From Stdlib Require Import Qround Qabs Lqa.
Import ListNotations.

Local Open Scope string_scope.
Local Open Scope list_scope.
Local Open Scope Z_scope.

(* ================================================================== *)
(** * Part I: definitions *)
(* ================================================================== *)

(** ** Python primitives *)

Inductive PyErr : Type :=
| ValueError
| TypeError
| IndexError
| UnboundLocalError.

Inductive Py (A : Type) : Type :=
| Ok (a : A)
| Raise (e : PyErr).

Arguments Ok {A} a.
Arguments Raise {A} e.

Definition bind {A B : Type} (m : Py A) (k : A -> Py B) : Py B :=
  match m with
  | Ok a => k a
  | Raise e => Raise e
  end.

Notation "x <- m ;; k" := (bind m (fun x => k))
  (at level 61, m at next level, right associativity).

(** [for x in xs: body] threading a state and stopping at the first
    exception. *)
Fixpoint forM {A S : Type} (body : S -> A -> Py S) (xs : list A) (st : S) : Py S :=
  match xs with
  | [] => Ok st
  | x :: rest => st' <- body st x ;; forM body rest st'
  end.

(** ASCII part of [str.isspace]. *)
Definition is_space (c : ascii) : bool :=
  let n := nat_of_ascii c in
  (((9 <=? n) && (n <=? 13)) || ((28 <=? n) && (n <=? 32)))%nat.

Fixpoint lstrip (s : string) : string :=
  match s with
  | EmptyString => EmptyString
  | String c r => if is_space c then lstrip r else s
  end.

Fixpoint rstrip (s : string) : string :=
  match s with
  | EmptyString => EmptyString
  | String c r =>
      match rstrip r with
      | EmptyString => if is_space c then EmptyString else String c EmptyString
      | r' => String c r'
      end
  end.

(** [s.strip()] *)
Definition strip (s : string) : string := rstrip (lstrip s).

Definition upper_ascii (c : ascii) : ascii :=
  let n := nat_of_ascii c in
  if ((97 <=? n) && (n <=? 122))%nat then ascii_of_nat (n - 32) else c.

(** [s.upper()] *)
Fixpoint upper (s : string) : string :=
  match s with
  | EmptyString => EmptyString
  | String c r => String (upper_ascii c) (upper r)
  end.

(** [needle in hay] on strings. *)
Fixpoint contains (needle hay : string) : bool :=
  prefix needle hay
  || match hay with
     | EmptyString => false
     | String _ r => contains needle r
     end.

(** [x in xs] on a list of strings. *)
Definition str_mem (x : string) (xs : list string) : bool :=
  existsb (String.eqb x) xs.

Definition digit_of (c : ascii) : option Z :=
  let n := nat_of_ascii c in
  if ((48 <=? n) && (n <=? 57))%nat then Some (Z.of_nat (n - 48)) else None.

(** [str(n)] for an [int]. *)
Definition str_of_Z (n : Z) : string :=
  NilZero.string_of_int (Z.to_int n).

(** ** Time of day: [StationEvent._timeToMinutes] *)

(** One numeric directive of a [strptime] format.  The directive is the
    regular expression [AB|\d] where [AB] ranges over the two-digit forms
    accepted by [ok2]; alternatives are tried in this order, the second one
    only when the rest of the pattern [k] fails after the first. *)
Definition directive {A : Type} (ok2 : Z -> Z -> bool) (s : string)
    (k : Z -> string -> option A) : option A :=
  let one :=
    match s with
    | String c r =>
        match digit_of c with
        | Some d => k d r
        | None => None
        end
    | EmptyString => None
    end in
  match s with
  | String c1 (String c2 r) =>
      match digit_of c1, digit_of c2 with
      | Some d1, Some d2 =>
          if ok2 d1 d2 then
            match k (10 * d1 + d2) r with
            | Some x => Some x
            | None => one
            end
          else one
      | _, _ => one
      end
  | _ => one
  end.

(** [%H] is [2[0-3]|[0-1]\d|\d]. *)
Definition ok_H (d1 d2 : Z) : bool := ((d1 =? 2) && (d2 <=? 3)) || (d1 <=? 1).
(** [%M] is [[0-5]\d|\d]. *)
Definition ok_M (d1 d2 : Z) : bool := d1 <=? 5.
(** [%S] is [6[0-1]|[0-5]\d|\d]. *)
Definition ok_S (d1 d2 : Z) : bool := ((d1 =? 6) && (d2 <=? 1)) || (d1 <=? 5).

Definition literal {A : Type} (c : ascii) (s : string) (k : string -> option A)
  : option A :=
  match s with
  | String c' r => if Ascii.eqb c c' then k r else None
  | EmptyString => None
  end.

(** The parsed fields of a [datetime]: hour, minute, second. *)
Record HMS : Type := mkHMS { hour : Z; minute : Z; second : Z }.

(** [datetime.strptime(s, fmt)]: the format's regular expression is
    matched at the start of [s]; unconverted trailing data is a
    [ValueError], and so is a second outside [0..59], which [datetime]
    refuses. *)
Definition finish (t : HMS) (rest : string) : Py HMS :=
  match rest with
  | EmptyString => if second t <=? 59 then Ok t else Raise ValueError
  | _ => Raise ValueError
  end.

Definition strptime_HMS (s : string) : Py HMS :=
  match
    directive ok_H s (fun h s1 =>
    literal ":" s1 (fun s2 =>
    directive ok_M s2 (fun m s3 =>
    literal ":" s3 (fun s4 =>
    directive ok_S s4 (fun sec rest => Some (mkHMS h m sec, rest))))))
  with
  | Some (t, rest) => finish t rest
  | None => Raise ValueError
  end.

Definition strptime_HM (s : string) : Py HMS :=
  match
    directive ok_H s (fun h s1 =>
    literal ":" s1 (fun s2 =>
    directive ok_M s2 (fun m rest => Some (mkHMS h m 0, rest))))
  with
  | Some (t, rest) => finish t rest
  | None => Raise ValueError
  end.

Definition Qlt_bool (x y : Q) : bool := negb (Qle_bool y x).

(** [t.hour * 60 + t.minute + t.second / 60] *)
Definition minutes_of (t : HMS) : Q :=
  (inject_Z (hour t * 60 + minute t) + (inject_Z (second t) / 60))%Q.

(** The 2:45 AM wrap-around. *)
Definition wrap (minutes : Q) : Q :=
  if Qlt_bool minutes 165 then (minutes + 1440)%Q else minutes.

(** [_timeToMinutes]: [None] is Python's [None]. *)
Definition _timeToMinutes (time_str : string) : option Q :=
  match time_str with
  | EmptyString => None
  | _ =>
      match strptime_HMS (strip time_str) with
      | Ok t => Some (wrap (minutes_of t))
      | Raise _ =>
          match strptime_HM (strip time_str) with
          | Ok t => Some (wrap (minutes_of t))
          | Raise _ => None
          end
      end
  end.

(** ** Identifiers and insertion-ordered dictionaries *)

(** A service identifier is an [int] (a five-digit numeral) or a [str]
    (a stabling token such as ["ETY 7"]).  Python's [==] never equates
    an [int] with a [str]. *)
Inductive SId : Type :=
| IdInt (n : Z)
| IdStr (s : string).

Definition SId_eqb (a b : SId) : bool :=
  match a, b with
  | IdInt x, IdInt y => x =? y
  | IdStr x, IdStr y => String.eqb x y
  | _, _ => false
  end.

(** [str(sid)] *)
Definition str_of_sid (i : SId) : string :=
  match i with
  | IdInt n => str_of_Z n
  | IdStr s => s
  end.

(** Truth value of an identifier: [0] and [''] are falsy. *)
Definition sid_truthy (i : SId) : bool :=
  match i with
  | IdInt n => negb (n =? 0)
  | IdStr s => negb (String.eqb s "")
  end.

(** [a == b] on lists of identifiers. *)
Fixpoint ids_eqb (a b : list SId) : bool :=
  match a, b with
  | [], [] => true
  | x :: a', y :: b' => SId_eqb x y && ids_eqb a' b'
  | _, _ => false
  end.

Definition sid_mem (x : SId) (xs : list SId) : bool := existsb (SId_eqb x) xs.

(** The body of an integer literal accepted by [int(s)]: digits, single
    underscores allowed between digits. *)
Fixpoint int_body (s : string) (acc : Z) (after_digit : bool) : option Z :=
  match s with
  | EmptyString => if after_digit then Some acc else None
  | String c r =>
      match digit_of c with
      | Some d => int_body r (10 * acc + d) true
      | None =>
          if Ascii.eqb c "_" && after_digit then int_body r acc false else None
      end
  end.

(** [int(s)]: [None] stands for the [ValueError]. *)
Definition py_int (s : string) : option Z :=
  match strip s with
  | String "+" r => int_body r 0 false
  | String "-" r => option_map Z.opp (int_body r 0 false)
  | t => int_body t 0 false
  end.

Section Dict.
Context {K V : Type} (eqb : K -> K -> bool).

(** A Python [dict]: keys in insertion order, assignment to an existing
    key keeps its position. *)
Definition dict : Type := list (K * V).

Fixpoint dict_get (d : dict) (k : K) : option V :=
  match d with
  | [] => None
  | (k', v) :: r => if eqb k k' then Some v else dict_get r k
  end.

Fixpoint dict_set (d : dict) (k : K) (v : V) : dict :=
  match d with
  | [] => [(k, v)]
  | (k', v') :: r =>
      if eqb k k' then (k', v) :: r else (k', v') :: dict_set r k v
  end.

Definition dict_mem (d : dict) (k : K) : bool :=
  match dict_get d k with
  | Some _ => true
  | None => false
  end.

Definition dict_keys (d : dict) : list K := map fst d.
Definition dict_values (d : dict) : list V := map snd d.
End Dict.

(** ** Data model ([models.py]) *)

Inductive RakeLinkStatus : Type := VALID | INVALID.
Inductive Direction : Type := UP | DOWN.

(** [StationEvent]: the back reference [ofService] is left out. *)
Record StationEvent : Type := mkEvent {
  atStation : string;
  atTime : option Q;
  ev_render : bool
}.

(** [StationEvent.__init__] *)
Definition newStationEvent (st time : string) : StationEvent :=
  {| atStation := st; atTime := _timeToMinutes time; ev_render := true |}.

(** [Service], with the attributes the reconciler and the filters use. *)
Record Service : Type := mkService {
  serviceId : list SId;
  direction : option Direction;
  rakeSizeReq : option Z;
  needsACRake : bool;
  linkedTo : option string;
  events : list StationEvent;
  svc_render : bool
}.

Record Rake : Type := mkRake {
  rakeId : Z;
  isAC : bool;
  rakeSize : Z
}.

(** [Rake.__init__] *)
Definition newRake (rakeId : Z) : Rake :=
  {| rakeId := rakeId; isAC := false; rakeSize := 12 |}.

(** [RakeCycle]; [servicePath = None] is Python's [None]. *)
Record RakeCycle : Type := mkRakeCycle {
  rake : option Rake;
  status : RakeLinkStatus;
  linkName : string;
  serviceIds : list SId;
  undefinedIds : list (string * SId);
  servicePath : option (list Service);
  rc_render : bool
}.

(** [RakeCycle.__init__] followed by the appends of [parseRakeLinks]. *)
Definition newRakeCycle (name : string) (ids : list SId)
    (undefined : list (string * SId)) : RakeCycle :=
  {| rake := None; status := VALID; linkName := name; serviceIds := ids;
     undefinedIds := undefined; servicePath := None; rc_render := true |}.

Definition set_servicePath (rc : RakeCycle) (p : option (list Service)) : RakeCycle :=
  {| rake := rake rc; status := status rc; linkName := linkName rc;
     serviceIds := serviceIds rc; undefinedIds := undefinedIds rc;
     servicePath := p; rc_render := rc_render rc |}.

Definition set_status (rc : RakeCycle) (s : RakeLinkStatus) : RakeCycle :=
  {| rake := rake rc; status := s; linkName := linkName rc;
     serviceIds := serviceIds rc; undefinedIds := undefinedIds rc;
     servicePath := servicePath rc; rc_render := rc_render rc |}.

Definition set_rake (rc : RakeCycle) (r : option Rake) : RakeCycle :=
  {| rake := r; status := status rc; linkName := linkName rc;
     serviceIds := serviceIds rc; undefinedIds := undefinedIds rc;
     servicePath := servicePath rc; rc_render := rc_render rc |}.

Definition set_rc_render (rc : RakeCycle) (b : bool) : RakeCycle :=
  {| rake := rake rc; status := status rc; linkName := linkName rc;
     serviceIds := serviceIds rc; undefinedIds := undefinedIds rc;
     servicePath := servicePath rc; rc_render := b |}.

Definition set_svc_render (s : Service) (b : bool) : Service :=
  {| serviceId := serviceId s; direction := direction s;
     rakeSizeReq := rakeSizeReq s; needsACRake := needsACRake s;
     linkedTo := linkedTo s; events := events s; svc_render := b |}.

Definition set_events (s : Service) (es : list StationEvent) : Service :=
  {| serviceId := serviceId s; direction := direction s;
     rakeSizeReq := rakeSizeReq s; needsACRake := needsACRake s;
     linkedTo := linkedTo s; events := es; svc_render := svc_render s |}.

Definition set_ev_render (e : StationEvent) (b : bool) : StationEvent :=
  {| atStation := atStation e; atTime := atTime e; ev_render := b |}.

(** [xs[0]] and [xs[-1]] *)
Definition py_first {A : Type} (xs : list A) : Py A :=
  match xs with
  | [] => Raise IndexError
  | x :: _ => Ok x
  end.

Fixpoint py_last {A : Type} (xs : list A) : Py A :=
  match xs with
  | [] => Raise IndexError
  | [x] => Ok x
  | _ :: r => py_last r
  end.

(** ** LinkResolver: [TimeTable.makeRakeCyclePathsSV] *)

(** [idMap = {sid: s for s in services for sid in s.serviceId}] *)
Definition idMap_of (services : list Service) : dict (K:=SId) (V:=Service) :=
  fold_left
    (fun m s => fold_left (fun m' sid => dict_set SId_eqb m' sid s) (serviceId s) m)
    services [].

Record AdjEntry : Type := mkAdj { prev : option SId; next : option SId }.

(** [adj[k]] of the [defaultdict]; the entry a read would insert is the
    default one, so reads are modelled without the insertion. *)
Definition adj_get (adj : dict (K:=SId) (V:=AdjEntry)) (k : SId) : AdjEntry :=
  match dict_get SId_eqb adj k with
  | Some e => e
  | None => mkAdj None None
  end.

(** [int(str(sv.linkedTo).strip())], falling back to the stripped string. *)
Definition nextId_of (l : string) : SId :=
  match py_int (strip l) with
  | Some n => IdInt n
  | None => IdStr (strip l)
  end.

(** One iteration of the loop that builds the directed links.  Every value
    of [idMap] has a first identifier (lemma [idMap_values_have_id]), so
    the [[]] case stands for an [IndexError] that cannot occur. *)
Definition link_step (idMap : dict (K:=SId) (V:=Service))
    (adj : dict (K:=SId) (V:=AdjEntry)) (sv : Service) : dict (K:=SId) (V:=AdjEntry) :=
  match serviceId sv with
  | [] => adj
  | sid :: _ =>
      match linkedTo sv with
      | None => adj
      | Some EmptyString => adj
      | Some l =>
          let nextId := nextId_of l in
          if dict_mem SId_eqb idMap nextId then
            let adj1 := dict_set SId_eqb adj sid
                          (mkAdj (prev (adj_get adj sid)) (Some nextId)) in
            dict_set SId_eqb adj1 nextId
              (mkAdj (Some sid) (next (adj_get adj1 nextId)))
          else adj
      end
  end.

Definition build_adj (idMap : dict (K:=SId) (V:=Service)) : dict (K:=SId) (V:=AdjEntry) :=
  fold_left (link_step idMap) (dict_values idMap) [].

(** The state of a traversal: the [visited] set (most recent first) and
    the chain under construction. *)
Definition ChainState : Type := (list SId * list Service)%type.

(** [followChain(sid, chain)].  The recursion of the source is bounded
    here by [fuel]; [None] means the bound was reached. *)
Fixpoint followChain (fuel : nat) (idMap : dict (K:=SId) (V:=Service))
    (adj : dict (K:=SId) (V:=AdjEntry)) (sid : SId) (st : ChainState)
  : option ChainState :=
  match fuel with
  | O => None
  | S fuel' =>
      let '(visited, chain) := st in
      if sid_mem sid visited then Some st
      else
        match dict_get SId_eqb idMap sid with
        | None => Some st
        | Some sv =>
            let st' := (sid :: visited, chain ++ [sv]) in
            match next (adj_get adj sid) with
            | Some nxt =>
                if sid_truthy nxt then followChain fuel' idMap adj nxt st'
                else Some st'
            | None => Some st'
            end
        end
  end.

(** A chain start: no predecessor and a successor. *)
Definition is_start (adj : dict (K:=SId) (V:=AdjEntry)) (sid : SId) : bool :=
  match prev (adj_get adj sid), next (adj_get adj sid) with
  | None, Some _ => true
  | _, _ => false
  end.

(** One iteration of [for sid in idMap]. *)
Definition start_step (fuel : nat) (idMap : dict (K:=SId) (V:=Service))
    (adj : dict (K:=SId) (V:=AdjEntry))
    (st : option (list SId * list (list Service))) (sid : SId)
  : option (list SId * list (list Service)) :=
  match st with
  | None => None
  | Some (visited, cycles) =>
      if sid_mem sid visited then st
      else
        match prev (adj_get adj sid) with
        | Some _ => st
        | None =>
            match next (adj_get adj sid) with
            | None => st
            | Some _ =>
                match followChain fuel idMap adj sid (visited, []) with
                | None => None
                | Some (visited', []) => Some (visited', cycles)
                | Some (visited', chain) => Some (visited', cycles ++ [chain])
                end
            end
        end
  end.

(** [makeRakeCyclePathsSV]: the final [visited] set and the chains appended
    to [allCyclesWtt].  The fuel given to each traversal is one more than
    the number of registered identifiers. *)
Definition makeRakeCyclePathsSV_run (services : list Service)
  : option (list SId * list (list Service)) :=
  let idMap := idMap_of services in
  let adj := build_adj idMap in
  fold_left (start_step (S (List.length idMap)) idMap adj) (dict_keys idMap)
    (Some ([], [])).

Definition makeRakeCyclePathsSV (services : list Service)
  : option (list (list Service)) :=
  option_map snd (makeRakeCyclePathsSV_run services).

(** ** RakeCycleReconciler: [fixPath], [generateRakeCycles],
       [validateRakeCycles], [assignRakes] *)

(** [[f(x) for x in xs]] with a body that may raise. *)
Definition mapM {A B : Type} (f : A -> Py B) (xs : list A) : Py (list B) :=
  forM (fun acc x => y <- f x ;; Ok (acc ++ [y])) xs [].

(** [str(sv.linkedTo)]: [None] prints as ["None"]. *)
Definition str_of_linkedTo (l : option string) : string :=
  match l with
  | None => "None"
  | Some s => s
  end.

(** [{str(s.serviceId[0]): s for s in self.suburbanServices}] *)
Definition allServices_of (suburban : list Service)
  : Py (dict (K:=string) (V:=Service)) :=
  forM (fun m s =>
          sid <- py_first (serviceId s) ;;
          Ok (dict_set String.eqb m (str_of_sid sid) s))
       suburban [].

(** [fixPath(rc)]: the cycle as mutated (its [status]) and the returned
    value, where [None] is the implicit [return None] reached when the
    function falls off its end. *)
Definition fixPath (suburban : list Service) (rc : RakeCycle)
  : Py (RakeCycle * option (list Service)) :=
  sid <- py_first (serviceIds rc) ;;
  match undefinedIds rc with
  | _ :: _ => Ok (set_status rc INVALID, Some [])
  | [] =>
      allServices <- allServices_of suburban ;;
      match dict_get String.eqb allServices (str_of_sid sid) with
      | None => Raise ValueError
      | Some _ =>
          if existsb
               (fun sv => String.eqb (str_of_sid sid) (str_of_linkedTo (linkedTo sv)))
               (dict_values allServices)
          then
            path <- forM (fun path id =>
                            match dict_get String.eqb allServices (str_of_sid id) with
                            | None => Raise ValueError
                            | Some svc => Ok (path ++ [svc])
                            end)
                         (serviceIds rc) [] ;;
            Ok (rc, Some path)
          else Ok (rc, None)
      end
  end.

(** Truth value of [rc.servicePath]: [None] and [[]] are falsy. *)
Definition path_truthy (p : option (list Service)) : bool :=
  match p with
  | Some (_ :: _) => true
  | _ => false
  end.

(** The inner loop [for path in self.allCyclesWtt] of [generateRakeCycles]. *)
Definition match_step (rc : RakeCycle) (path : list Service) : Py RakeCycle :=
  sid <- py_first (serviceIds rc) ;;
  p0 <- py_first path ;;
  pid <- py_first (serviceId p0) ;;
  if String.eqb (str_of_sid sid) (str_of_sid pid)
  then Ok (set_servicePath rc (Some path))
  else Ok rc.

(** The debug message of the repair branch reads [rc.serviceIds[0]] and
    [path[0].serviceId[0]], where [path] is the variable left bound by the
    last loop over [allCyclesWtt]: unbound when there is no chain. *)
Definition repair_log (allCyclesWtt : list (list Service)) (rc : RakeCycle) : Py unit :=
  _ <- py_first (serviceIds rc) ;;
  match rev allCyclesWtt with
  | [] => Raise UnboundLocalError
  | path :: _ =>
      p0 <- py_first path ;;
      _ <- py_first (serviceId p0) ;;
      Ok tt
  end.

(** The body of [for rc in self.rakecycles]; the flag tells whether the
    cycle was appended to [invalid]. *)
Definition resolve_one (suburban : list Service)
    (allCyclesWtt : list (list Service)) (rc : RakeCycle) : Py (RakeCycle * bool) :=
  rc1 <- forM match_step allCyclesWtt rc ;;
  if path_truthy (servicePath rc1) then Ok (rc1, false)
  else
    _ <- repair_log allCyclesWtt rc1 ;;
    r <- fixPath suburban rc1 ;;
    let '(rc2, fixedPath) := r in
    Ok (set_servicePath rc2 fixedPath,
        match status rc2 with INVALID => true | VALID => false end).

(** Lines 232-249 of [generateRakeCycles]: the matching of every stub to
    a chain, the repair of the unmatched ones and the removal of the
    invalid ones.  [suburban] is [self.suburbanServices] as sorted at the
    start of [generateRakeCycles], [allCyclesWtt] the chains built from
    it.  [self.rakecycles] holds distinct objects, so [list.remove] is
    removal by position. *)
Definition resolveRakeCycles (suburban : list Service)
    (allCyclesWtt : list (list Service)) (rakecycles : list RakeCycle)
  : Py (list RakeCycle) :=
  _ <- mapM (fun path => mapM (fun s => py_first (serviceId s)) path) allCyclesWtt ;;
  rs <- mapM (resolve_one suburban allCyclesWtt) rakecycles ;;
  Ok (map fst (filter (fun x => negb (snd x)) rs)).

Definition has_ETY (i : SId) : bool := contains "ETY" (str_of_sid i).

(** The body of the first loop of [validateRakeCycles]: [Some wttPath]
    when the pair [(rc, wttPath)] is appended to [conflictingLinks]. *)
Definition validate_one (rc : RakeCycle) : Py (option (list SId)) :=
  match servicePath rc with
  | None => Raise TypeError
  | Some sp =>
      let summaryPath := serviceIds rc in
      wttPath <- mapM (fun svc => py_first (serviceId svc)) sp ;;
      let summaryPathRed1 := removelast (removelast summaryPath) in
      if negb (ids_eqb wttPath summaryPath) then
        if ids_eqb (removelast summaryPath) wttPath then
          l <- py_last summaryPath ;;
          if has_ETY l then Ok None else Ok (Some wttPath)
        else if ids_eqb (removelast (removelast summaryPath)) wttPath then
          a <- py_last summaryPathRed1 ;;
          if has_ETY a then
            b <- py_last summaryPath ;;
            if has_ETY b then Ok None else Ok (Some wttPath)
          else Ok (Some wttPath)
        else Ok (Some wttPath)
      else Ok None
  end.

(** [validateRakeCycles], run from the empty conflict log of
    [TimeTable.__init__]: the surviving cycles and [conflictingLinks]. *)
Definition validateRakeCycles (rakecycles : list RakeCycle)
  : Py (list RakeCycle * list (RakeCycle * list SId)) :=
  rs <- mapM (fun rc => r <- validate_one rc ;; Ok (rc, r)) rakecycles ;;
  Ok (flat_map (fun x => match snd x with None => [fst x] | Some _ => [] end) rs,
      flat_map (fun x => match snd x with None => [] | Some w => [(fst x, w)] end) rs).

Definition set_isAC (r : Rake) (b : bool) : Rake :=
  {| rakeId := rakeId r; isAC := b; rakeSize := rakeSize r |}.

Definition set_rakeSize (r : Rake) (n : Z) : Rake :=
  {| rakeId := rakeId r; isAC := isAC r; rakeSize := n |}.

(** The inner loop of [assignRakes] with its two [break]s. *)
Fixpoint rake_scan (rake : Rake) (path : list Service) : Rake :=
  match path with
  | [] => rake
  | svc :: rest =>
      if needsACRake svc then set_isAC rake true
      else
        match rakeSizeReq svc with
        | Some n => if n =? 0 then rake_scan rake rest else set_rakeSize rake n
        | None => rake_scan rake rest
        end
  end.

Definition assign_one (i : Z) (rc : RakeCycle) : Py RakeCycle :=
  match servicePath rc with
  | None => Raise TypeError
  | Some sp => Ok (set_rake rc (Some (rake_scan (newRake i) sp)))
  end.

Fixpoint assignRakes_from (i : Z) (rakecycles : list RakeCycle) : Py (list RakeCycle) :=
  match rakecycles with
  | [] => Ok []
  | rc :: rest =>
      rc' <- assign_one i rc ;;
      rest' <- assignRakes_from (i + 1) rest ;;
      Ok (rc' :: rest')
  end.

(** [assignRakes]: [for i, rc in enumerate(self.rakecycles)]. *)
Definition assignRakes (rakecycles : list RakeCycle) : Py (list RakeCycle) :=
  assignRakes_from 0 rakecycles.

(** ** ServiceExtractor: [TimeTableParser.extractACRequirement] *)

Definition is_ac_marker (cell : string) : bool :=
  contains "Air" cell || contains "Condition" cell || contains "AC" cell.

Fixpoint extractAC_loop (cells : list string) (isAC : Z) : bool :=
  match cells with
  | [] => false
  | cell :: rest =>
      let cell := strip cell in
      if isAC =? 1 then true
      else if is_ac_marker cell then extractAC_loop rest (isAC + 1)
      else extractAC_loop rest isAC
  end.

Definition extractACRequirement (serviceCol : list string) : bool :=
  extractAC_loop serviceCol (-1).

(** ** FilterEngine ([filters.py]) and the constraint checks of [Service] *)

Inductive FilterType : Type := RAKELINK | SERVICE | STATION.

Record FilterQuery : Type := mkQuery {
  type : option FilterType;
  startStation : option string;
  endStation : option string;
  passingThrough : list string;
  inTimePeriod : option (Z * Z);
  ac : option string;
  inDirection : option (list string)
}.

(** [FilterQuery()] with the defaults of the dataclass. *)
Definition defaultQuery : FilterQuery :=
  {| type := None; startStation := None; endStation := None;
     passingThrough := []; inTimePeriod := Some (165, 1605);
     ac := None; inDirection := None |}.

(** The part of [TimeTable] the filters traverse. *)
Record TimeTable : Type := mkTimeTable {
  rakecycles : list RakeCycle;
  suburbanServices : list Service
}.

(** [t_lower <= t <= t_upper] *)
Definition in_window (t_lower t_upper : Z) (t : Q) : bool :=
  Qle_bool (inject_Z t_lower) t && Qle_bool t (inject_Z t_upper).

(** Truth value of an optional string: [None] and [''] are falsy. *)
Definition str_truthy (o : option string) : bool :=
  match o with
  | Some (String _ _) => true
  | _ => false
  end.

(** [start and start.upper() != first] *)
Definition differs_from (constraint : option string) (station : string) : bool :=
  match constraint with
  | Some (String c r) => negb (String.eqb (upper (String c r)) station)
  | _ => false
  end.

(** The loop body of [_apply_terminal_station_filters]. *)
Definition terminal_rc (start end_ : option string) (rc : RakeCycle) : Py RakeCycle :=
  let rc := set_rc_render rc true in
  if path_truthy (servicePath rc) then
    match servicePath rc with
    | None => Raise TypeError
    | Some sp =>
        s0 <- py_first sp ;;
        e0 <- py_first (events s0) ;;
        let first := atStation e0 in
        sl <- py_last sp ;;
        el <- py_last (events sl) ;;
        let last := atStation el in
        let rc1 := if differs_from start first
                   then set_rc_render rc (rc_render rc && false) else rc in
        let rc2 := if differs_from end_ last
                   then set_rc_render rc1 (rc_render rc1 && false) else rc1 in
        Ok rc2
    end
  else Ok (set_rc_render rc false).

(** [seen.add(x)] on a set kept as a duplicate-free list. *)
Definition set_add (x : string) (seen : list string) : list string :=
  if str_mem x seen then seen else seen ++ [x].

(** The station membership loop, with its [continue] and [break]. *)
Fixpoint seen_loop (selected : list string) (el : list StationEvent)
    (seen : list string) : list string :=
  match el with
  | [] => seen
  | e :: rest =>
      match atStation e with
      | EmptyString => seen_loop selected rest seen
      | st =>
          let stName := upper (strip st) in
          let seen' := if str_mem stName selected then set_add stName seen else seen in
          if (List.length seen' =? List.length selected)%nat then seen'
          else seen_loop selected rest seen'
      end
  end.

(** [not e.atTime]: [None] and [0] are falsy. *)
Definition time_truthy (t : option Q) : bool :=
  match t with
  | None => false
  | Some q => negb (Qeq_bool q 0)
  end.

(** The events kept by the time filter of [_apply_passing_through_filter]. *)
Definition window_events (period : option (Z * Z)) (el : list StationEvent)
  : list StationEvent :=
  match period with
  | None => el
  | Some (t_start, t_end) =>
      filter (fun e =>
                match atTime e with
                | Some minutes => time_truthy (atTime e) && in_window t_start t_end minutes
                | None => false
                end) el
  end.

(** The loop body of [_apply_passing_through_filter], for a non-empty
    selection. *)
Definition passing_rc (qq : FilterQuery) (rc : RakeCycle) : RakeCycle :=
  let selected := map upper (passingThrough qq) in
  let rc := set_rc_render rc (rc_render rc && true) in
  match servicePath rc with
  | None | Some [] => set_rc_render rc (rc_render rc && false)
  | Some sp =>
      let el := window_events (inTimePeriod qq) (flat_map events sp) in
      let seen := seen_loop selected el [] in
      if (List.length seen <? List.length selected)%nat then set_rc_render rc false
      else rc
  end.

Definition _apply_passing_through_filter (qq : FilterQuery)
    (rcs : list RakeCycle) : list RakeCycle :=
  match passingThrough qq with
  | [] => rcs
  | _ => map (passing_rc qq) rcs
  end.

(** The loop body of [_apply_ac_filter]. *)
Definition ac_rc (mode : string) (rc : RakeCycle) : RakeCycle :=
  match rake rc with
  | None => set_rc_render rc false
  | Some rk =>
      if String.eqb mode "ac" && negb (isAC rk) then set_rc_render rc false
      else if String.eqb mode "nonac" && isAC rk then set_rc_render rc false
      else rc
  end.

Definition _apply_ac_filter (qq : FilterQuery) (rcs : list RakeCycle) : list RakeCycle :=
  match ac qq with
  | None => rcs
  | Some mode => if String.eqb mode "all" then rcs else map (ac_rc mode) rcs
  end.

(** [apply_link_filters] (RAKELINK mode). *)
Definition apply_link_filters (wtt : TimeTable) (qq : FilterQuery) : Py TimeTable :=
  rcs1 <- mapM (terminal_rc (startStation qq) (endStation qq)) (rakecycles wtt) ;;
  let rcs2 := _apply_passing_through_filter qq rcs1 in
  let rcs3 := _apply_ac_filter qq rcs2 in
  Ok {| rakecycles := rcs3; suburbanServices := suburbanServices wtt |}.

(** [Service.checkACConstraint] *)
Definition checkACConstraint (qq : FilterQuery) (svc : Service) : Service :=
  match ac qq with
  | None | Some EmptyString => svc
  | Some mode =>
      if String.eqb mode "all" then svc
      else if String.eqb mode "ac" && negb (needsACRake svc) then set_svc_render svc false
      else if String.eqb mode "nonac" && needsACRake svc then set_svc_render svc false
      else svc
  end.

(** [Service.checkDirectionConstraint] *)
Definition checkDirectionConstraint (qq : FilterQuery) (svc : Service) : Service :=
  match inDirection qq with
  | None | Some [] => svc
  | Some ds =>
      let dirMatch :=
        existsb (fun d =>
                   match direction svc with
                   | Some UP => String.eqb d "UP"
                   | Some DOWN => String.eqb d "DOWN"
                   | None => false
                   end) ds in
      if dirMatch then svc else set_svc_render svc false
  end.

(** [not (t_lower <= t <= t_upper)] for a time that may be [None], in
    which case the comparison raises. *)
Definition outside_window (period : option (Z * Z)) (t : option Q) : Py bool :=
  match period with
  | None => Raise TypeError
  | Some (t_lower, t_upper) =>
      match t with
      | None => Raise TypeError
      | Some q => Ok (negb (in_window t_lower t_upper q))
      end
  end.

(** [Service.checkStartStationConstraint] *)
Definition checkStartStationConstraint (qq : FilterQuery) (svc : Service) : Py Service :=
  match startStation qq with
  | None | Some EmptyString => Ok svc
  | Some start =>
      e0 <- py_first (events svc) ;;
      let first := atStation e0 in
      let t_first := atTime e0 in
      match inTimePeriod qq with
      | None => Raise TypeError
      | Some _ =>
          if String.eqb first start then
            out <- outside_window (inTimePeriod qq) t_first ;;
            if out then Ok (set_svc_render svc false) else Ok svc
          else Ok (set_svc_render svc false)
      end
  end.

(** [Service.checkEndStationConstraint] *)
Definition checkEndStationConstraint (qq : FilterQuery) (svc : Service) : Py Service :=
  match endStation qq with
  | None | Some EmptyString => Ok svc
  | Some end_ =>
      el <- py_last (events svc) ;;
      let last := atStation el in
      let t_last := atTime el in
      match inTimePeriod qq with
      | None => Raise TypeError
      | Some _ =>
          if String.eqb last end_ then
            out <- outside_window (inTimePeriod qq) t_last ;;
            if out then Ok (set_svc_render svc false) else Ok svc
          else Ok (set_svc_render svc false)
      end
  end.

(** [stnMapTimes]: for every station of the service, the times of its
    events there, in event order. *)
Definition stnMapTimes_of (es : list StationEvent)
  : dict (K:=string) (V:=list (option Q)) :=
  fold_left
    (fun m e =>
       let m1 := if dict_mem String.eqb m (atStation e) then m
                 else dict_set String.eqb m (atStation e) [] in
       match dict_get String.eqb m1 (atStation e) with
       | Some ts => dict_set String.eqb m1 (atStation e) (ts ++ [atTime e])
       | None => m1
       end)
    es [].

(** The loop [for st in qPassingStns] with its early [return]s. *)
Fixpoint passing_loop (qq : FilterQuery)
    (stnMapTimes : dict (K:=string) (V:=list (option Q)))
    (stns : list string) (svc : Service) : Py Service :=
  match stns with
  | [] => Ok svc
  | st :: rest =>
      match dict_get String.eqb stnMapTimes st with
      | None => Ok (set_svc_render svc false)
      | Some ts =>
          t <- py_last ts ;;
          out <- outside_window (inTimePeriod qq) t ;;
          if out then Ok (set_svc_render svc false)
          else passing_loop qq stnMapTimes rest svc
      end
  end.

(** [Service.checkPassingThroughConstraint] *)
Definition checkPassingThroughConstraint (qq : FilterQuery) (svc : Service) : Py Service :=
  let qPassingStns := map upper (passingThrough qq) in
  match qPassingStns with
  | [] => Ok svc
  | _ => passing_loop qq (stnMapTimes_of (events svc)) qPassingStns svc
  end.

(** The body of the loop over [wtt.suburbanServices] in
    [apply_service_filters]. *)
Definition service_filter_svc (qq : FilterQuery) (svc : Service) : Py Service :=
  let svc := set_svc_render svc true in
  match events svc with
  | [] => Ok (set_svc_render svc false)
  | es =>
      let svc := set_events svc (map (fun ev => set_ev_render ev true) es) in
      let svc := checkDirectionConstraint qq svc in
      let svc := checkACConstraint qq svc in
      svc <- checkStartStationConstraint qq svc ;;
      svc <- checkEndStationConstraint qq svc ;;
      checkPassingThroughConstraint qq svc
  end.

(** The loop body over the events of a service in [apply_station_filters]. *)
Definition station_filter_event (t_lower t_upper : Z) (ev : StationEvent) : StationEvent :=
  let ev := set_ev_render ev true in
  match atTime ev with
  | None => set_ev_render ev false
  | Some t =>
      if negb (in_window t_lower t_upper t) then set_ev_render ev false else ev
  end.

Definition station_filter_svc (qq : FilterQuery) (t_lower t_upper : Z)
    (svc : Service) : Service :=
  let svc := set_svc_render svc true in
  match events svc with
  | [] => set_svc_render svc false
  | es =>
      let svc := set_events svc (map (station_filter_event t_lower t_upper) es) in
      checkACConstraint qq svc
  end.

(** [apply_station_filters] (STATION mode). *)
Definition apply_station_filters (wtt : TimeTable) (qq : FilterQuery) : Py TimeTable :=
  match inTimePeriod qq with
  | None => Raise TypeError
  | Some (t_lower, t_upper) =>
      Ok {| rakecycles := map (fun rc => set_rc_render rc true) (rakecycles wtt);
            suburbanServices :=
              map (station_filter_svc qq t_lower t_upper) (suburbanServices wtt) |}
  end.

(** ** Vocabulary of the statements *)

(** The decimal digit [d] as a character. *)
Definition digit_char (d : Z) : ascii := ascii_of_nat (48 + Z.to_nat d).

Arguments digit_char : simpl never.

(** [n] written with two digits. *)
Definition two_digits (n : Z) : string :=
  String (digit_char (n / 10)) (String (digit_char (n mod 10)) EmptyString).

(** An hour, with or without the leading zero. *)
Definition hour_digits (pad : bool) (h : Z) : string :=
  if pad || (10 <=? h) then two_digits h
  else String (digit_char h) EmptyString.

(** The time strings [H:MM] and [HH:MM]. *)
Definition fmt_HM (pad : bool) (h m : Z) : string :=
  (hour_digits pad h ++ ":" ++ two_digits m)%string.

(** The time strings [H:MM:SS] and [HH:MM:SS]. *)
Definition fmt_HMS (pad : bool) (h m s : Z) : string :=
  (hour_digits pad h ++ ":" ++ two_digits m ++ ":" ++ two_digits s)%string.

(** A string is a time when one of the two formats accepts it. *)
Definition parses_as_time (s : string) : Prop :=
  exists t, strptime_HMS (strip s) = Ok t \/ strptime_HM (strip s) = Ok t.

(** The fields of a [datetime] are in range. *)
Definition HMS_in_range (t : HMS) : Prop :=
  0 <= hour t <= 23 /\ 0 <= minute t <= 59 /\ 0 <= second t <= 59.

(** The number of cells of a column that carry an air-conditioning
    marker. *)
Definition marker_count (cells : list string) : nat :=
  List.length (filter (fun cell => is_ac_marker (strip cell)) cells).

(** What the AC constraint [mode] allows for a service or rake whose AC
    flag is [flag]. *)
Definition ac_allows (mode : option string) (flag : bool) : bool :=
  match mode with
  | Some m =>
      if String.eqb m "ac" then flag
      else if String.eqb m "nonac" then negb flag
      else true
  | None => true
  end.

(** A time lies in the closed window. *)
Definition inside (t_lower t_upper : Z) (t : Q) : Prop :=
  (inject_Z t_lower <= t)%Q /\ (t <= inject_Z t_upper)%Q.

(** A service declares a car count. *)
Definition declares_size (svc : Service) : bool :=
  match rakeSizeReq svc with
  | Some n => negb (n =? 0)
  | None => false
  end.

(** A service that neither requires AC nor declares a car count. *)
Definition undecided (svc : Service) : bool :=
  negb (needsACRake svc) && negb (declares_size svc).

(** The rake of a path: the first service that requires AC or declares a
    car count decides.  If it requires AC, the rake is AC and keeps the
    12 cars of [Rake.__init__]; otherwise the rake is non-AC with the car
    count of that service; with no such service the rake is the default
    one. *)
Definition rake_decided_by (sp : list Service) (rk : Rake) : Prop :=
  (forallb undecided sp = true /\ isAC rk = false /\ rakeSize rk = 12)
  \/ exists pre svc post,
       sp = pre ++ svc :: post /\ forallb undecided pre = true /\
       ((needsACRake svc = true /\ isAC rk = true /\ rakeSize rk = 12)
        \/ (needsACRake svc = false /\ isAC rk = false /\
            rakeSizeReq svc = Some (rakeSize rk) /\ rakeSize rk <> 0)).

(** The times of the events of a service at station [st], in event
    order, and the last of them. *)
Definition times_at (st : string) (es : list StationEvent) : list (option Q) :=
  map atTime (filter (fun e => String.eqb (atStation e) st) es).

(** The value a dictionary of lists holds for a key: absent when the
    list would be empty. *)
Definition nonempty_or_none {A : Type} (l : list A) : option (list A) :=
  match l with
  | [] => None
  | _ => Some l
  end.

Definition last_time_at (st : string) (es : list StationEvent) : option (option Q) :=
  match rev (times_at st es) with
  | [] => None
  | t :: _ => Some t
  end.

(** The station [st] of a query passes for a service: the service has an
    event at the upper-cased name and the last of them is in the window. *)
Definition passes_at (lo hi : Z) (es : list StationEvent) (u : string) : Prop :=
  exists t, last_time_at u es = Some (Some t) /\ inside lo hi t.

Definition station_passes (lo hi : Z) (es : list StationEvent) (st : string) : Prop :=
  passes_at lo hi es (upper st).

(** The first declared identifier [sid] of a stub starts none of the
    chains: every chain has a first service, with a first identifier that
    prints differently. *)
Definition starts_no_chain (sid : SId) (chains : list (list Service)) : Prop :=
  Forall (fun path =>
            exists p0 rest pid pids,
              path = p0 :: rest /\ serviceId p0 = pid :: pids /\
              str_of_sid sid <> str_of_sid pid) chains.

(** The test of [fixPath]: some service is linked to [sid]. *)
Definition is_linked_target (sid : SId) (services : list Service) : bool :=
  existsb (fun sv => String.eqb (str_of_sid sid) (str_of_linkedTo (linkedTo sv))) services.

(** Whenever a successor is recorded, the successor has a predecessor. *)
Definition linked_back (adj : dict (K:=SId) (V:=AdjEntry)) : Prop :=
  forall x y, next (adj_get adj x) = Some y -> prev (adj_get adj y) <> None.

(** The registered identifiers not yet visited. *)
Definition unvisited (keys visited : list SId) : list SId :=
  filter (fun k => negb (sid_mem k visited)) keys.

(** [chain] holds the services registered under the identifiers of
    [trace], in order. *)
Definition services_at (idMap : dict (K:=SId) (V:=Service))
    (trace : list SId) (chain : list Service) : Prop :=
  Forall2 (fun id sv => dict_get SId_eqb idMap id = Some sv) trace chain.

(** The state of the loop over the registered identifiers once the
    identifiers [done] are processed: the visited set is made of the
    traces of the chains found so far, without repetition; there is one
    chain per chain start met; and a visited identifier was processed or
    has a predecessor. *)
Definition loop_inv (idMap : dict (K:=SId) (V:=Service))
    (adj : dict (K:=SId) (V:=AdjEntry)) (done : list SId)
    (st : list SId * list (list Service)) : Prop :=
  exists traces,
    fst st = rev (List.concat traces) /\
    NoDup (fst st) /\
    Forall2 (services_at idMap) traces (snd st) /\
    List.length (snd st) = List.length (filter (is_start adj) done) /\
    (forall v, In v (fst st) -> prev (adj_get adj v) <> None \/ In v done).

(** An event of a cycle at the queried station [st], inside the window:
    the station name of the event, stripped and upper-cased, is the
    upper-cased name of the query. *)
Definition event_at_in (lo hi : Z) (st : string) (e : StationEvent) : Prop :=
  atStation e <> EmptyString /\
  upper (strip (atStation e)) = upper st /\
  exists t, atTime e = Some t /\ inside lo hi t.

(** An event the membership loop counts for the station name [u]. *)
Definition counts_for (u : string) (e : StationEvent) : Prop :=
  atStation e <> EmptyString /\ upper (strip (atStation e)) = u.

(** An AC constraint is set: the mode is neither absent nor ["all"]. *)
Definition ac_is_set (mode : option string) : bool :=
  match mode with
  | Some m => negb (String.eqb m "all")
  | None => false
  end.

(** Conditions (i) to (iv) of RAKELINK-mode visibility, for the window
    [[lo, hi]]. *)
Definition link_visible (qq : FilterQuery) (lo hi : Z) (rc : RakeCycle) : Prop :=
  exists sp s0 e0 sl el,
    servicePath rc = Some sp /\
    py_first sp = Ok s0 /\ py_first (events s0) = Ok e0 /\
    py_last sp = Ok sl /\ py_last (events sl) = Ok el /\
    differs_from (startStation qq) (atStation e0) = false /\
    differs_from (endStation qq) (atStation el) = false /\
    (forall st, In st (passingThrough qq) ->
       exists e, In e (flat_map events sp) /\ event_at_in lo hi st e) /\
    (ac_is_set (ac qq) = true ->
       exists rk, rake rc = Some rk /\ ac_allows (ac qq) (isAC rk) = true).

(** The divergences between the declared sequence [summary] and the
    chain [wtt] that [validateRakeCycles] lets pass: none; one more
    declared identifier, with the token ETY; two more, the last of them
    and the last identifier of the chain with the token ETY. *)
Definition code_tolerates (summary wtt : list SId) : Prop :=
  summary = wtt
  \/ (exists x, summary = wtt ++ [x] /\ has_ETY x = true)
  \/ (exists pre z x y,
        wtt = pre ++ [z] /\ summary = wtt ++ [x; y] /\
        has_ETY z = true /\ has_ETY y = true).

(** ** Sample data *)

(** Two linked trips and the rotation made of them. *)
Definition svc_93001 : Service :=
  {| serviceId := [IdInt 93001]; direction := Some UP; rakeSizeReq := Some 15;
     needsACRake := false; linkedTo := Some "93002";
     events := [newStationEvent "VIRAR" "08:20"; newStationEvent "DADAR" "09:10";
                newStationEvent "DADAR" "09:12"; newStationEvent "CHURCHGATE" "09:30"];
     svc_render := true |}.

Definition svc_93002 : Service :=
  {| serviceId := [IdInt 93002]; direction := Some DOWN; rakeSizeReq := Some 15;
     needsACRake := true; linkedTo := None;
     events := [newStationEvent "CHURCHGATE" "10:30"; newStationEvent "VIRAR" "11:50"];
     svc_render := true |}.

(** An isolated trip: nothing links to it and it links to nothing. *)
Definition svc_93050 : Service :=
  {| serviceId := [IdInt 93050]; direction := Some UP; rakeSizeReq := Some 12;
     needsACRake := false; linkedTo := None;
     events := [newStationEvent "BORIVALI" "12:00"; newStationEvent "CHURCHGATE" "12:50"];
     svc_render := true |}.

Definition sample_services : list Service := [svc_93001; svc_93002; svc_93050].

Definition sample_chain : list Service := [svc_93001; svc_93002].

(** The stub of link [A] with the path a chain gave it. *)
Definition cycle_A : RakeCycle :=
  set_servicePath (newRakeCycle "A" [IdInt 93001; IdInt 93002] []) (Some sample_chain).

(** Stubs of the same chain that declare trailing stabling markers, and
    one that declares a different second trip. *)
Definition cycle_ETY1 : RakeCycle :=
  set_servicePath
    (newRakeCycle "B" [IdInt 93001; IdInt 93002; IdStr "ETY7"] [("B", IdStr "ETY7")])
    (Some sample_chain).

Definition cycle_ETY2 : RakeCycle :=
  set_servicePath
    (newRakeCycle "C" [IdInt 93001; IdInt 93002; IdStr "ETY7"; IdStr "ETY8"]
       [("C", IdStr "ETY7"); ("C", IdStr "ETY8")])
    (Some sample_chain).

Definition cycle_93099 : RakeCycle :=
  set_servicePath
    (newRakeCycle "D" [IdInt 93001; IdInt 93099] [("D", IdInt 93099)])
    (Some sample_chain).

(** A stub that declares the isolated trip alone. *)
Definition cycle_isolated : RakeCycle := newRakeCycle "E" [IdInt 93050] [].

(** A stub that declares an identifier absent from the grid. *)
Definition cycle_undefined : RakeCycle :=
  newRakeCycle "F" [IdInt 93077; IdInt 93002] [("F", IdInt 93077)].

(** Malformed links: two trips linked to each other, and a trip leading
    into such a loop. *)
Definition svc_loop (id : Z) (to : string) : Service :=
  {| serviceId := [IdInt id]; direction := Some UP; rakeSizeReq := Some 15;
     needsACRake := false; linkedTo := Some to; events := []; svc_render := true |}.

Definition cyclic_services : list Service :=
  [svc_loop 93101 "93102"; svc_loop 93102 "93101"].

Definition lasso_services : list Service :=
  [svc_loop 93201 "93202"; svc_loop 93202 "93203"; svc_loop 93203 "93202"].


(** A trip registered under two identifiers, each the target of a link. *)
Definition svc_two_ids : Service :=
  {| serviceId := [IdInt 93301; IdInt 93302]; direction := Some UP;
     rakeSizeReq := Some 15; needsACRake := false; linkedTo := None;
     events := []; svc_render := true |}.

Definition two_id_services : list Service :=
  [svc_two_ids; svc_loop 93310 "93301"; svc_loop 93320 "93302"].

Definition sample_wtt : TimeTable :=
  {| rakecycles := [cycle_A]; suburbanServices := sample_services |}.

(* ================================================================== *)
(** * Part I, continued: further functions of the core and its callers *)
(* ================================================================== *)

(** ** Display of times: [data_builder.fmt_time] *)

(** [round(t)] of a number: to the nearest integer, halves to the even
    one. *)
Definition py_round (q : Q) : Z :=
  let f := Qfloor q in
  match Qcompare (q - inject_Z f) (1 # 2) with
  | Lt => f
  | Gt => f + 1
  | Eq => if Z.even f then f else f + 1
  end.

(** The format [{n:02d}] of an integer: at least two characters, padded
    with a zero on the left. *)
Definition pad2 (n : Z) : string :=
  let s := str_of_Z n in
  if (String.length s <? 2)%nat then ("0" ++ s)%string else s.

(** [fmt_time(t)] *)
Definition fmt_time (t : option Q) : string :=
  match t with
  | None => "--:--"
  | Some q =>
      let t := py_round q in
      (pad2 (t / 60) ++ ":" ++ pad2 (t mod 60))%string
  end.


(** The integers from 0 below [n]. *)
Definition below (n : nat) : list Z := map Z.of_nat (seq 0 n).


(** ** FilterEngine, continued: [reset_all_flags] *)

(** The loop body of [reset_all_flags] over the services. *)
Definition reset_svc (svc : Service) : Service :=
  match events svc with
  | [] => set_svc_render svc false
  | es => set_events (set_svc_render svc true) (map (fun ev => set_ev_render ev true) es)
  end.

(** [reset_all_flags].  The flags of the services on the paths are those
    of the suburban services, which the value of a path does not follow;
    no filter of RAKELINK mode reads them. *)
Definition reset_all_flags (wtt : TimeTable) : TimeTable :=
  {| rakecycles := map (fun rc => set_rc_render rc true) (rakecycles wtt);
     suburbanServices := map reset_svc (suburbanServices wtt) |}.

(** What the direction filter [dirs] allows for a service of direction
    [d]. *)
Definition direction_allows (dirs : option (list string)) (d : option Direction) : bool :=
  match dirs with
  | None | Some [] => true
  | Some ds =>
      existsb (fun x =>
                 match d with
                 | Some UP => String.eqb x "UP"
                 | Some DOWN => String.eqb x "DOWN"
                 | None => false
                 end) ds
  end.

(** A terminal-station constraint of SERVICE mode holds for the terminal
    event [e] of a service: no constraint is set, or the event is at
    exactly that station, at a time inside the window. *)
Definition terminal_ok (lo hi : Z) (constraint : option string)
    (e : option StationEvent) : Prop :=
  match constraint with
  | None | Some EmptyString => True
  | Some st =>
      exists ev t, e = Some ev /\ atStation ev = st /\ atTime ev = Some t /\ inside lo hi t
  end.

(** The last element of a list, if any. *)
Definition last_opt {A : Type} (xs : list A) : option A :=
  match rev xs with
  | [] => None
  | x :: _ => Some x
  end.

(** Conditions of SERVICE-mode visibility of a service, for the window
    [[lo, hi]]. *)
Definition service_visible (qq : FilterQuery) (lo hi : Z) (svc : Service) : Prop :=
  events svc <> [] /\
  direction_allows (inDirection qq) (direction svc) = true /\
  ac_allows (ac qq) (needsACRake svc) = true /\
  terminal_ok lo hi (startStation qq) (hd_error (events svc)) /\
  terminal_ok lo hi (endStation qq) (last_opt (events svc)) /\
  Forall (station_passes lo hi (events svc)) (passingThrough qq).



(** ** Sample queries *)

(** UP trips from VIRAR that call at Dadar, in the default window. *)
Definition query_virar_dadar : FilterQuery :=
  {| type := Some SERVICE; startStation := Some "VIRAR"; endStation := None;
     passingThrough := ["Dadar"]; inTimePeriod := Some (165, 1605);
     ac := None; inDirection := Some ["UP"] |}.



(** ** RAKELINK mode: the terminal events of a path *)

(** The first service and the last service of a non-empty path have
    events. *)
Definition terminals_present (rc : RakeCycle) : bool :=
  match servicePath rc with
  | None | Some [] => true
  | Some sp =>
      match hd_error sp, last_opt sp with
      | Some s0, Some sl =>
          match events s0, events sl with
          | _ :: _, _ :: _ => true
          | _, _ => false
          end
      | _, _ => true
      end
  end.



(* ================================================================== *)
(** * Part I, continued: shared objects *)
(* ================================================================== *)

(** [Service] objects are shared: the paths of the cycles hold the
    objects of [wtt.suburbanServices], and an assignment to an attribute
    of one is seen through every reference to it.  For the functions that
    depend on it, a reference is a number and the store gives the object
    behind every reference.  The [Rake] of a cycle is created for that
    cycle by [assignRakes] and the cycles of [wtt.rakecycles] are distinct
    objects; both are kept as values. *)

Definition set_needsACRake (s : Service) (b : bool) : Service :=
  {| serviceId := serviceId s; direction := direction s;
     rakeSizeReq := rakeSizeReq s; needsACRake := b;
     linkedTo := linkedTo s; events := events s; svc_render := svc_render s |}.

Module Shared.

Definition Ref : Type := nat.
Definition Store : Type := Ref -> Service.

(** An assignment to the object behind [r]. *)
Definition store_set (h : Store) (r : Ref) (s : Service) : Store :=
  fun r' => if Nat.eqb r' r then s else h r'.

(** The attributes of a [RakeCycle] that SERVICE mode and the AC
    operations use. *)
Record RakeCycle : Type := mkRakeCycle {
  rake : option Rake;
  linkName : string;
  servicePath : option (list Ref);
  render : bool
}.

Definition set_render (rc : RakeCycle) (b : bool) : RakeCycle :=
  {| rake := rake rc; linkName := linkName rc; servicePath := servicePath rc;
     render := b |}.

Definition set_rake (rc : RakeCycle) (rk : option Rake) : RakeCycle :=
  {| rake := rk; linkName := linkName rc; servicePath := servicePath rc;
     render := render rc |}.

(** [TimeTable]; [originalACStates = None] when the attribute is not
    set. *)
Record TimeTable : Type := mkTimeTable {
  store : Store;
  rakecycles : list RakeCycle;
  suburbanServices : list Ref;
  originalACStates : option (dict (K:=string) (V:=bool))
}.

Definition set_state (wtt : TimeTable) (h : Store) (rcs : list RakeCycle) : TimeTable :=
  {| store := h; rakecycles := rcs; suburbanServices := suburbanServices wtt;
     originalACStates := originalACStates wtt |}.

(** *** [FilterEngine.apply_service_filters] *)

(** The loop over [wtt.suburbanServices]. *)
Fixpoint service_loop (qq : FilterQuery) (refs : list Ref) (h : Store) : Py Store :=
  match refs with
  | [] => Ok h
  | r :: rest =>
      svc <- service_filter_svc qq (h r) ;;
      service_loop qq rest (store_set h r svc)
  end.

(** The loop body over [wtt.rakecycles]. *)
Definition cycle_render (h : Store) (rc : RakeCycle) : RakeCycle :=
  let rc := set_render rc false in
  match servicePath rc with
  | Some (r :: sp) =>
      if existsb (fun r => svc_render (h r)) (r :: sp) then set_render rc true else rc
  | _ => rc
  end.

Definition apply_service_filters (wtt : TimeTable) (qq : FilterQuery) : Py TimeTable :=
  h <- service_loop qq (suburbanServices wtt) (store wtt) ;;
  Ok (set_state wtt h (map (cycle_render h) (rakecycles wtt))).

(** *** [RakeOperations.convert_to_ac] *)

(** [for svc in rc.servicePath: svc.needsACRake = True] *)
Definition convert_path (sp : list Ref) (h : Store) : Store :=
  fold_left (fun h r => store_set h r (set_needsACRake (h r) true)) sp h.

(** The loop body: the store, the cycles gone through and the names
    converted so far. *)
Definition convert_step (link_names : list string)
    (st : Store * list RakeCycle * list string) (rc : RakeCycle)
  : Py (Store * list RakeCycle * list string) :=
  let '(h, out, converted) := st in
  if str_mem (linkName rc) link_names then
    if match rake rc with Some rk => isAC rk | None => false end
    then Ok (h, out ++ [rc], converted)
    else
      let rc1 := match rake rc with
                 | Some rk => set_rake rc (Some (set_isAC rk true))
                 | None => rc
                 end in
      match servicePath rc with
      | None => Raise TypeError
      | Some sp => Ok (convert_path sp h, out ++ [rc1], converted ++ [linkName rc])
      end
  else Ok (h, out ++ [rc], converted).

(** [convert_to_ac]: the timetable after the call and the summary
    [{"converted": n, "links": names}] it returns. *)
Definition convert_to_ac (wtt : TimeTable) (link_names : list string)
  : Py (TimeTable * (Z * list string)) :=
  match link_names with
  | [] => Ok (wtt, (0, []))
  | _ =>
      st <- forM (convert_step link_names) (rakecycles wtt) (store wtt, [], []) ;;
      let '(h, out, converted) := st in
      Ok (set_state wtt h out, (Z.of_nat (List.length converted), converted))
  end.

(** *** [TimeTable.storeOriginalACStates] and [TimeTable.resetACStates] *)

(** The key [f"svc_{svc.serviceId[0]}"]. *)
Definition svc_key (svc : Service) : Py string :=
  sid <- py_first (serviceId svc) ;;
  Ok ("svc_" ++ str_of_sid sid)%string.

(** [rc.servicePath if rc.servicePath else []] *)
Definition path_or_empty (rc : RakeCycle) : list Ref :=
  match servicePath rc with
  | Some sp => sp
  | None => []
  end.

Definition store_step (h : Store) (orig : dict (K:=string) (V:=bool)) (rc : RakeCycle)
  : Py (dict (K:=string) (V:=bool)) :=
  let orig1 := match rake rc with
               | Some rk => dict_set String.eqb orig (linkName rc) (isAC rk)
               | None => orig
               end in
  forM (fun o r =>
          key <- svc_key (h r) ;;
          Ok (dict_set String.eqb o key (needsACRake (h r))))
       (path_or_empty rc) orig1.

Definition storeOriginalACStates (wtt : TimeTable) : Py TimeTable :=
  orig <- forM (store_step (store wtt)) (rakecycles wtt) [] ;;
  Ok {| store := store wtt; rakecycles := rakecycles wtt;
        suburbanServices := suburbanServices wtt; originalACStates := Some orig |}.

Definition reset_step (orig : dict (K:=string) (V:=bool))
    (st : Store * list RakeCycle) (rc : RakeCycle) : Py (Store * list RakeCycle) :=
  let '(h, out) := st in
  let rc1 := match rake rc, dict_get String.eqb orig (linkName rc) with
             | Some rk, Some b => set_rake rc (Some (set_isAC rk b))
             | _, _ => rc
             end in
  h' <- forM (fun h r =>
                key <- svc_key (h r) ;;
                match dict_get String.eqb orig key with
                | Some b => Ok (store_set h r (set_needsACRake (h r) b))
                | None => Ok h
                end)
             (path_or_empty rc) h ;;
  Ok (h', out ++ [rc1]).

Definition resetACStates (wtt : TimeTable) : Py TimeTable :=
  match originalACStates wtt with
  | None => Ok wtt
  | Some orig =>
      st <- forM (reset_step orig) (rakecycles wtt) (store wtt, []) ;;
      Ok (set_state wtt (fst st) (snd st))
  end.

End Shared.



(** ** Sample timetable with shared services *)

(** The sample services behind the references 0, 1 and 2 (and the
    isolated trip behind every other one), link [A] over the first two. *)
Definition shared_wtt : Shared.TimeTable :=
  {| Shared.store := fun r => nth r sample_services svc_93050;
     Shared.rakecycles :=
       [ {| Shared.rake := Some {| rakeId := 0; isAC := false; rakeSize := 15 |};
            Shared.linkName := "A"; Shared.servicePath := Some [0; 1]%nat;
            Shared.render := true |} ];
     Shared.suburbanServices := [0; 1; 2]%nat;
     Shared.originalACStates := None |}.



(** ** Vocabulary of the AC operations *)

(** A cycle has an AC rake. *)
Definition has_AC_rake (rc : Shared.RakeCycle) : bool :=
  match Shared.rake rc with
  | Some rk => isAC rk
  | None => false
  end.

(** The cycles a conversion of the links [names] acts on: the named ones
    that do not have an AC rake yet. *)
Definition to_convert (names : list string) (rc : Shared.RakeCycle) : bool :=
  str_mem (Shared.linkName rc) names && negb (has_AC_rake rc).

(** The reference [r] is on the path of a cycle that the conversion acts
    on. *)
Definition on_converted_path (names : list string) (rcs : list Shared.RakeCycle)
    (r : Shared.Ref) : bool :=
  existsb (fun rc => to_convert names rc && existsb (Nat.eqb r) (Shared.path_or_empty rc)) rcs.

(** A cycle with the rake it has, if any, made AC. *)
Definition with_AC_rake (rc : Shared.RakeCycle) : Shared.RakeCycle :=
  Shared.set_rake rc (option_map (fun rk => set_isAC rk true) (Shared.rake rc)).

(** No cycle that the conversion acts on has the path [None]. *)
Definition convertible (names : list string) (rcs : list Shared.RakeCycle) : bool :=
  forallb (fun rc => negb (to_convert names rc) ||
                     match Shared.servicePath rc with Some _ => true | None => false end) rcs.



(** A named cycle that has no rake. *)
Definition named_without_rake (names : list string) (rc : Shared.RakeCycle) : bool :=
  str_mem (Shared.linkName rc) names &&
  match Shared.rake rc with Some _ => false | None => true end.



(** ** Vocabulary of the stored AC states *)

(** The flag [v] is one that [storeOriginalACStates] files under the key
    [k]: the AC flag of the rake of a cycle named [k], or the AC
    requirement of a service on a path whose key is [k]. *)
Definition ac_source (h : Shared.Store) (rcs : list Shared.RakeCycle)
    (k : string) (v : bool) : Prop :=
  (exists rc rk, In rc rcs /\ Shared.rake rc = Some rk /\
                 Shared.linkName rc = k /\ isAC rk = v) \/
  (exists rc r, In rc rcs /\ In r (Shared.path_or_empty rc) /\
                Shared.svc_key (h r) = Ok k /\ needsACRake (h r) = v).

(** No key stands for two different flags. *)
Definition ac_keys_unambiguous (wtt : Shared.TimeTable) : Prop :=
  forall k v v',
    ac_source (Shared.store wtt) (Shared.rakecycles wtt) k v ->
    ac_source (Shared.store wtt) (Shared.rakecycles wtt) k v' -> v = v'.

(** [wtt1] has the cycles of [wtt], with their names and paths and with
    a rake where [wtt] has one, and its services have the identifiers
    they have in [wtt]. *)
Definition same_links (wtt wtt1 : Shared.TimeTable) : Prop :=
  Forall2 (fun rc rc1 =>
             Shared.linkName rc1 = Shared.linkName rc /\
             Shared.servicePath rc1 = Shared.servicePath rc /\
             (Shared.rake rc1 = None <-> Shared.rake rc = None))
          (Shared.rakecycles wtt) (Shared.rakecycles wtt1) /\
  forall r, serviceId (Shared.store wtt1 r) = serviceId (Shared.store wtt r).

(** The reference [r] is on the path of some cycle. *)
Definition on_some_path (rcs : list Shared.RakeCycle) (r : Shared.Ref) : bool :=
  existsb (fun rc => existsb (Nat.eqb r) (Shared.path_or_empty rc)) rcs.

(** The cycle [rc1] with, on its rake, the AC flag of the rake of [rc]. *)
Definition with_AC_of (rc rc1 : Shared.RakeCycle) : Shared.RakeCycle :=
  match Shared.rake rc, Shared.rake rc1 with
  | Some rk, Some rk1 => Shared.set_rake rc1 (Some (set_isAC rk1 (isAC rk)))
  | _, _ => rc1
  end.



(* ================================================================== *)
(** * Part I, continued: the filter tabs ([gardi.py]) *)
(* ================================================================== *)

(** The dictionary saved for a tab: [None] is the empty dictionary of
    [Gardi.__init__], the only other value ever stored has the five
    keys. *)
Record SavedState : Type := mkSaved {
  saved_startStation : option string;
  saved_endStation : option string;
  saved_passingThrough : list string;
  saved_inTimePeriod : option (Z * Z);
  saved_inDirection : option (list string)
}.

(** The part of [Gardi] that the switch of tabs uses.  [filterStates]
    has the three filter types as its keys from [__init__] on. *)
Record Gardi : Type := mkGardi {
  query : FilterQuery;
  filterStates : FilterType -> option SavedState
}.

Definition FilterType_eqb (a b : FilterType) : bool :=
  match a, b with
  | RAKELINK, RAKELINK | SERVICE, SERVICE | STATION, STATION => true
  | _, _ => false
  end.

(** [Gardi.__init__] *)
Definition newGardi : Gardi :=
  {| query := {| type := Some RAKELINK; startStation := None; endStation := None;
                 passingThrough := []; inTimePeriod := Some (165, 1605);
                 ac := None; inDirection := None |};
     filterStates := fun _ => None |}.

(** [Gardi.switch_filter_mode(active_tab)].  The saved list is a copy, and
    no code of [gardi.py] changes the list of the query in place, so the
    lists are kept as values. *)
Definition switch_filter_mode (g : Gardi) (active_tab : string) : Gardi :=
  let q := query g in
  (* save current *)
  let states :=
    match type q with
    | Some t =>
        fun t' =>
          if FilterType_eqb t' t
          then Some {| saved_startStation := startStation q;
                       saved_endStation := endStation q;
                       saved_passingThrough := passingThrough q;
                       saved_inTimePeriod := inTimePeriod q;
                       saved_inDirection := inDirection q |}
          else filterStates g t'
    | None => filterStates g
    end in
  (* update type *)
  let type' :=
    if String.eqb active_tab "tab-rakelink" then Some RAKELINK
    else if String.eqb active_tab "tab-service" then Some SERVICE
    else if String.eqb active_tab "tab-station" then Some STATION
    else type q in
  (* restore saved state for new tab *)
  let saved := match type' with Some t => states t | None => None end in
  {| query :=
       {| type := type';
          startStation := match saved with Some s => saved_startStation s | None => None end;
          endStation := match saved with Some s => saved_endStation s | None => None end;
          passingThrough := match saved with Some s => saved_passingThrough s | None => [] end;
          inTimePeriod :=
            match saved with Some s => saved_inTimePeriod s | None => Some (165, 1605) end;
          ac := ac q;
          inDirection := match saved with Some s => saved_inDirection s | None => None end |};
     filterStates := states |}.

(** The tab of a filter type. *)
Definition tab_of (t : FilterType) : string :=
  match t with
  | RAKELINK => "tab-rakelink"
  | SERVICE => "tab-service"
  | STATION => "tab-station"
  end.

(** The application on the SERVICE tab with the sample query. *)
Definition gardi_on_service : Gardi :=
  {| query := query_virar_dadar; filterStates := fun _ => None |}.



(** The query with another time window. *)
Definition set_inTimePeriod (qq : FilterQuery) (p : option (Z * Z)) : FilterQuery :=
  {| type := type qq; startStation := startStation qq; endStation := endStation qq;
     passingThrough := passingThrough qq; inTimePeriod := p;
     ac := ac qq; inDirection := inDirection qq |}.



(** ** Vocabulary of the matching of stubs and chains *)

(** A chain has a first service, with a first identifier. *)
Definition chain_headed (path : list Service) : Prop :=
  exists p0 rest pid pids, path = p0 :: rest /\ serviceId p0 = pid :: pids.

(** The first identifier of the first service of the chain prints as
    [sid] does. *)
Definition starts_with (sid : SId) (path : list Service) : Prop :=
  exists p0 rest pid pids,
    path = p0 :: rest /\ serviceId p0 = pid :: pids /\
    str_of_sid sid = str_of_sid pid.



(** ** Vocabulary of the validation *)

(** The path of the cycle is a chain with the first identifiers [wtt],
    at least one. *)
Definition has_chain (rc : RakeCycle) (wtt : list SId) : Prop :=
  exists sp, servicePath rc = Some sp /\
             mapM (fun svc => py_first (serviceId svc)) sp = Ok wtt /\ wtt <> [].

(** The declared identifiers of the cycle diverge from those of its path
    in no way but the tolerated ones. *)
Definition tolerated (rc : RakeCycle) : Prop :=
  exists wtt, has_chain rc wtt /\ code_tolerates (serviceIds rc) wtt.



(* ================================================================== *)
(** * Part I, continued: lengths, durations and station names *)
(* ================================================================== *)

(** [DISTANCE_MAP]: kilometres from Churchgate. *)
Definition DISTANCE_MAP : dict (K:=string) (V:=Q) :=
  [("CHURCHGATE", 0); ("MARINE LINES", 2); ("CHARNI ROAD", 3); ("GRANT ROAD", 4);
   ("M'BAI CENTRAL(L)", 5); ("MAHALAKSHMI", 6); ("LOWER PAREL", 8); ("PRABHADEVI", 9);
   ("DADAR", 11); ("MATUNGA ROAD", 23 # 2); ("MAHIM JN.", 12); ("BANDRA", 15);
   ("KHAR ROAD", 17); ("SANTA CRUZ", 18); ("VILE PARLE", 20); ("ANDHERI", 22);
   ("JOGESHWARI", 24); ("RAM MANDIR", 51 # 2); ("GOREGAON", 27); ("MALAD", 30);
   ("KANDIVALI", 32); ("BORIVALI", 34); ("DAHISAR", 37); ("MIRA ROAD", 40);
   ("BHAYANDAR", 44); ("NAIGAON", 48); ("VASAI ROAD", 52); ("NALLASOPARA", 56);
   ("VIRAR", 60)]%Q.

(** [DISTANCE_MAP[name]], [None] standing for the [KeyError]. *)
Definition distance_of (name : string) : option Q :=
  dict_get String.eqb DISTANCE_MAP name.

(** The outcome of [computeLengthKm]: the length it assigns, the
    [IndexError] of [self.events[0]], or the [KeyError] of a station that
    [DISTANCE_MAP] does not have. *)
Inductive LengthResult : Type :=
| Length (l : Q)
| LengthIndexError
| LengthKeyError (station : string).

(** The loop [for e in self.events[1:]]. *)
Fixpoint length_loop (dprev l : Q) (es : list StationEvent) : LengthResult :=
  match es with
  | [] => Length l
  | e :: rest =>
      match distance_of (atStation e) with
      | None => LengthKeyError (atStation e)
      | Some dCCGKm => length_loop dCCGKm (l + Qabs (dprev - dCCGKm))%Q rest
      end
  end.

(** [Service.computeLengthKm] *)
Definition computeLengthKm (svc : Service) : LengthResult :=
  match events svc with
  | [] => LengthIndexError
  | e0 :: rest =>
      match distance_of (atStation e0) with
      | None => LengthKeyError (atStation e0)
      | Some dprev => length_loop dprev 0 rest
      end
  end.

(** [Service.computeDurationMinutes]: the value assigned to
    [self.durationMinutes]. *)
Definition computeDurationMinutes (svc : Service) : Py Q :=
  el <- py_last (events svc) ;;
  e0 <- py_first (events svc) ;;
  match atTime el, atTime e0 with
  | Some t_last, Some t_first => Ok (t_last - t_first)%Q
  | _, _ => Raise TypeError
  end.

(** [normalize_station_name], on a string. *)
Definition normalize_station_name (name : string) : string :=
  let name := strip name in
  let name := if String.eqb name "M'BAI CENTRAL (L)" then "M'BAI CENTRAL(L)" else name in
  if String.eqb (upper name) "KANDIVLI" then "KANDIVALI" else name.

(** ** Vocabulary of lengths and durations *)

(** The events [es] are at stations of [DISTANCE_MAP] that lie ever
    farther from Churchgate ([away = false]: ever nearer) than the distance
    [dprev]. *)
Fixpoint heads_one_way (away : bool) (dprev : Q) (es : list StationEvent) : Prop :=
  match es with
  | [] => True
  | e :: rest =>
      exists d, distance_of (atStation e) = Some d /\
                (if away then dprev <= d else d <= dprev)%Q /\
                heads_one_way away d rest
  end.

(** The first station of the events that [DISTANCE_MAP] does not have. *)
Fixpoint first_unknown (es : list StationEvent) : option string :=
  match es with
  | [] => None
  | e :: rest =>
      match distance_of (atStation e) with
      | None => Some (atStation e)
      | Some _ => first_unknown rest
      end
  end.

(** A minute of the day on the axis of the timetable, which runs from
    02:45 to 02:45 of the next day. *)
Definition shifted (x : Z) : Z := if x <? 165 then x + 1440 else x.



(** ** Vocabulary of the chains, continued *)

(** Consecutive identifiers of [trace] are joined by the [next] links of
    [adj]. *)
Fixpoint chain_linked (adj : dict (K:=SId) (V:=AdjEntry)) (trace : list SId) : Prop :=
  match trace with
  | x :: rest =>
      match rest with
      | y :: _ => next (adj_get adj x) = Some y
      | [] => True
      end /\ chain_linked adj rest
  | [] => True
  end.

(** Some service whose first identifier is [x] is linked to [y]: its
    [linkedTo] reads as the identifier [y]. *)
Definition links_to (services : list Service) (x y : SId) : Prop :=
  exists sv l ids,
    In sv services /\ serviceId sv = x :: ids /\
    linkedTo sv = Some l /\ nextId_of l = y.

(** Every identifier of [trace] but the last is linked to the one after
    it. *)
Fixpoint follows_links (services : list Service) (trace : list SId) : Prop :=
  match trace with
  | x :: rest =>
      match rest with
      | y :: _ => links_to services x y
      | [] => True
      end /\ follows_links services rest
  | [] => True
  end.



(** ** Parser, continued: [TimeTableParser.isolateSuburbanServices] *)

(** [isolateSuburbanServices]: the services of the two grids that carry
    an identifier declared by some rake link, in grid order.  (The sets
    [seen] and [repeated] of the source are not used.) *)
Definition isolateSuburbanServices (rakecycles : list RakeCycle)
    (upServices downServices : list Service) : list Service :=
  let suburbanIds := flat_map serviceIds rakecycles in
  filter (fun s => existsb (fun sid => sid_mem sid suburbanIds) (serviceId s))
         (upServices ++ downServices).


(** A trip whose cell at BORIVALI carries a date before the time, which
    [_timeToMinutes] does not read: the event there has no time. *)
Definition svc_93003 : Service :=
  {| serviceId := [IdInt 93003]; direction := Some UP; rakeSizeReq := Some 15;
     needsACRake := false; linkedTo := None;
     events := [newStationEvent "VIRAR" "08:20";
                newStationEvent "BORIVALI" "1/1/1900 08:40:00";
                newStationEvent "DADAR" "09:12"];
     svc_render := true |}.


(** The chains of [two_id_services]: the trip with two identifiers ends
    both. *)
Definition two_id_chains : list (list Service) :=
  [[svc_loop 93310 "93301"; svc_two_ids]; [svc_loop 93320 "93302"; svc_two_ids]].

(** A stub that declares the second identifier of the trip with two: the
    grid has a service for it, so it is not among the undefined ones. *)
Definition cycle_secondary : RakeCycle := newRakeCycle "G" [IdInt 93302] [].

(** A stub that starts at the trip with two identifiers, the target of a
    link, and goes on with trip 93320. *)
Definition cycle_relinked : RakeCycle := newRakeCycle "H" [IdInt 93301; IdInt 93320] [].





(** ** The graph of the links, as the specification words it *)



















(* ================================================================== *)
(** * Part II: properties *)
(* ================================================================== *)

(** ** Time conversion *)

Ltac digit_cases d :=
  let H := fresh in
  assert (H : d = 0 \/ d = 1 \/ d = 2 \/ d = 3 \/ d = 4 \/ d = 5 \/ d = 6 \/
              d = 7 \/ d = 8 \/ d = 9) by lia;
  repeat (destruct H as [H | H]; [subst d; reflexivity | ]); subst d; reflexivity.

Lemma digit_of_char (d : Z) : 0 <= d <= 9 -> digit_of (digit_char d) = Some d.
Proof. intros Hd. digit_cases d. Qed.

Lemma is_space_digit (d : Z) : 0 <= d <= 9 -> is_space (digit_char d) = false.
Proof. intros Hd. digit_cases d. Qed.

Lemma colon_not_digit (d : Z) : 0 <= d <= 9 -> Ascii.eqb ":" (digit_char d) = false.
Proof. intros Hd. digit_cases d. Qed.

Lemma directive_two {A : Type} (ok2 : Z -> Z -> bool) (a b : Z) (rest : string)
    (k : Z -> string -> option A) :
  0 <= a <= 9 -> 0 <= b <= 9 ->
  directive ok2 (String (digit_char a) (String (digit_char b) rest)) k =
  if ok2 a b then
    match k (10 * a + b) rest with
    | Some x => Some x
    | None => k a (String (digit_char b) rest)
    end
  else k a (String (digit_char b) rest).
Proof.
  intros Ha Hb. unfold directive.
  rewrite (digit_of_char a Ha), (digit_of_char b Hb). reflexivity.
Qed.

Lemma directive_one {A : Type} (ok2 : Z -> Z -> bool) (a : Z) (rest : string)
    (k : Z -> string -> option A) :
  0 <= a <= 9 ->
  directive ok2 (String (digit_char a) (String ":" rest)) k = k a (String ":" rest).
Proof.
  intros Ha. unfold directive. rewrite (digit_of_char a Ha).
  change (digit_of ":") with (@None Z). reflexivity.
Qed.

Lemma literal_digit {A : Type} (d : Z) (rest : string) (k : string -> option A) :
  0 <= d <= 9 -> literal ":" (String (digit_char d) rest) k = None.
Proof. intros Hd. unfold literal. rewrite (colon_not_digit d Hd). reflexivity. Qed.

Lemma rstrip_digit_end (d : Z) :
  0 <= d <= 9 -> rstrip (String (digit_char d) EmptyString) = String (digit_char d) EmptyString.
Proof. intros Hd. cbn [rstrip]. rewrite (is_space_digit d Hd). reflexivity. Qed.

Lemma rstrip_cons (c : ascii) (r : string) :
  rstrip r <> EmptyString -> rstrip (String c r) = String c (rstrip r).
Proof. intros H. cbn [rstrip]. destruct (rstrip r); [congruence | reflexivity]. Qed.

Lemma lstrip_digit (d : Z) (r : string) :
  0 <= d <= 9 -> lstrip (String (digit_char d) r) = String (digit_char d) r.
Proof. intros Hd. cbn [lstrip]. rewrite (is_space_digit d Hd). reflexivity. Qed.

Lemma two_digits_parts (n : Z) :
  0 <= n < 100 -> 0 <= n / 10 <= 9 /\ 0 <= n mod 10 <= 9 /\ 10 * (n / 10) + n mod 10 = n.
Proof. intros Hn. Z.to_euclidean_division_equations. lia. Qed.



Lemma rstrip_fix (c : ascii) (r : string) :
  rstrip r = r -> r <> EmptyString -> rstrip (String c r) = String c r.
Proof. intros H Hne. rewrite rstrip_cons; rewrite H; [reflexivity | exact Hne]. Qed.

Ltac strip_digits :=
  unfold strip; rewrite lstrip_digit by lia;
  repeat (apply rstrip_fix; [ | discriminate]);
  apply rstrip_digit_end; lia.

Lemma hour_digits_cases (pad : bool) (h : Z) :
  0 <= h < 24 ->
  hour_digits pad h = two_digits h \/
  (0 <= h <= 9 /\ hour_digits pad h = String (digit_char h) EmptyString).
Proof.
  intros Hh. unfold hour_digits.
  destruct (pad || (10 <=? h)) eqn:E; [left; reflexivity | right].
  apply orb_false_iff in E. destruct E as [_ E]. apply Z.leb_gt in E.
  split; [lia | reflexivity].
Qed.

Lemma strip_fmt_HMS (pad : bool) (h m s : Z) :
  0 <= h < 24 -> 0 <= m < 60 -> 0 <= s < 60 ->
  strip (fmt_HMS pad h m s) = fmt_HMS pad h m s.
Proof.
  intros Hh Hm Hs.
  destruct (two_digits_parts h) as (Ha & Hb & _); [lia|].
  destruct (two_digits_parts m) as (Hc & Hd & _); [lia|].
  destruct (two_digits_parts s) as (He & Hf & _); [lia|].
  unfold fmt_HMS.
  destruct (hour_digits_cases pad h Hh) as [-> | [H9 ->]];
    unfold two_digits; cbn [append]; strip_digits.
Qed.

Lemma strip_fmt_HM (pad : bool) (h m : Z) :
  0 <= h < 24 -> 0 <= m < 60 ->
  strip (fmt_HM pad h m) = fmt_HM pad h m.
Proof.
  intros Hh Hm.
  destruct (two_digits_parts h) as (Ha & Hb & _); [lia|].
  destruct (two_digits_parts m) as (Hc & Hd & _); [lia|].
  unfold fmt_HM.
  destruct (hour_digits_cases pad h Hh) as [-> | [H9 ->]];
    unfold two_digits; cbn [append]; strip_digits.
Qed.

Lemma ok_H_parts (h : Z) : 0 <= h < 24 -> ok_H (h / 10) (h mod 10) = true.
Proof.
  intros Hh. unfold ok_H.
  destruct (Z.leb_spec (h / 10) 1) as [H1 | H1]; [apply orb_true_r | ].
  rewrite orb_false_r. apply andb_true_iff. split.
  - apply Z.eqb_eq. Z.to_euclidean_division_equations. lia.
  - apply Z.leb_le. Z.to_euclidean_division_equations. lia.
Qed.

Lemma ok_M_parts (m : Z) : 0 <= m < 60 -> ok_M (m / 10) (m mod 10) = true.
Proof.
  intros Hm. unfold ok_M. apply Z.leb_le. Z.to_euclidean_division_equations. lia.
Qed.

Lemma ok_S_parts (s : Z) : 0 <= s < 60 -> ok_S (s / 10) (s mod 10) = true.
Proof.
  intros Hs. unfold ok_S. apply orb_true_iff. right.
  apply Z.leb_le. Z.to_euclidean_division_equations. lia.
Qed.

Lemma literal_colon {A : Type} (rest : string) (k : string -> option A) :
  literal ":" (String ":" rest) k = k rest.
Proof. reflexivity. Qed.

Lemma strptime_HMS_fmt (pad : bool) (h m s : Z) :
  0 <= h < 24 -> 0 <= m < 60 -> 0 <= s < 60 ->
  strptime_HMS (fmt_HMS pad h m s) = Ok (mkHMS h m s).
Proof.
  intros Hh Hm Hs.
  destruct (two_digits_parts h) as (Ha & Hb & Hab); [lia|].
  destruct (two_digits_parts m) as (Hc & Hd & Hcd); [lia|].
  destruct (two_digits_parts s) as (He & Hf & Hef); [lia|].
  assert (Hfin : finish (mkHMS h m s) EmptyString = Ok (mkHMS h m s)).
  { unfold finish. cbn [second]. destruct (Z.leb_spec s 59); [reflexivity | lia]. }
  unfold strptime_HMS, fmt_HMS.
  destruct (hour_digits_cases pad h Hh) as [-> | [H9 ->]];
    unfold two_digits; cbn [append].
  - rewrite directive_two by assumption. rewrite ok_H_parts by assumption.
    rewrite literal_colon. rewrite directive_two by assumption.
    rewrite ok_M_parts by assumption.
    rewrite literal_colon. rewrite directive_two by assumption.
    rewrite ok_S_parts by assumption.
    rewrite Hab, Hcd, Hef. exact Hfin.
  - rewrite directive_one by assumption.
    rewrite literal_colon. rewrite directive_two by assumption.
    rewrite ok_M_parts by assumption.
    rewrite literal_colon. rewrite directive_two by assumption.
    rewrite ok_S_parts by assumption.
    rewrite Hcd, Hef. exact Hfin.
Qed.

Lemma literal_empty {A : Type} (k : string -> option A) :
  literal ":" EmptyString k = None.
Proof. reflexivity. Qed.

Lemma strptime_HMS_fmt_HM (pad : bool) (h m : Z) :
  0 <= h < 24 -> 0 <= m < 60 ->
  strptime_HMS (fmt_HM pad h m) = Raise ValueError.
Proof.
  intros Hh Hm.
  destruct (two_digits_parts h) as (Ha & Hb & Hab); [lia|].
  destruct (two_digits_parts m) as (Hc & Hd & Hcd); [lia|].
  unfold strptime_HMS, fmt_HM.
  destruct (hour_digits_cases pad h Hh) as [-> | [H9 ->]];
    unfold two_digits; cbn [append].
  - rewrite directive_two by assumption. rewrite ok_H_parts by assumption.
    rewrite literal_colon. rewrite directive_two by assumption.
    rewrite ok_M_parts by assumption.
    rewrite literal_empty. rewrite !literal_digit by assumption. reflexivity.
  - rewrite directive_one by assumption.
    rewrite literal_colon. rewrite directive_two by assumption.
    rewrite ok_M_parts by assumption.
    rewrite literal_empty. rewrite !literal_digit by assumption. reflexivity.
Qed.

Lemma strptime_HM_fmt (pad : bool) (h m : Z) :
  0 <= h < 24 -> 0 <= m < 60 ->
  strptime_HM (fmt_HM pad h m) = Ok (mkHMS h m 0).
Proof.
  intros Hh Hm.
  destruct (two_digits_parts h) as (Ha & Hb & Hab); [lia|].
  destruct (two_digits_parts m) as (Hc & Hd & Hcd); [lia|].
  unfold strptime_HM, fmt_HM.
  destruct (hour_digits_cases pad h Hh) as [-> | [H9 ->]];
    unfold two_digits; cbn [append].
  - rewrite directive_two by assumption. rewrite ok_H_parts by assumption.
    rewrite literal_colon. rewrite directive_two by assumption.
    rewrite ok_M_parts by assumption.
    rewrite Hab, Hcd. reflexivity.
  - rewrite directive_one by assumption.
    rewrite literal_colon. rewrite directive_two by assumption.
    rewrite ok_M_parts by assumption.
    rewrite Hcd. reflexivity.
Qed.

Lemma fmt_HMS_nonempty (pad : bool) (h m s : Z) : fmt_HMS pad h m s <> EmptyString.
Proof.
  unfold fmt_HMS, hour_digits, two_digits.
  destruct (pad || (10 <=? h)); cbn [append]; discriminate.
Qed.

Lemma fmt_HM_nonempty (pad : bool) (h m : Z) : fmt_HM pad h m <> EmptyString.
Proof.
  unfold fmt_HM, hour_digits, two_digits.
  destruct (pad || (10 <=? h)); cbn [append]; discriminate.
Qed.

Lemma timeToMinutes_fmt_HMS (pad : bool) (h m s : Z) :
  0 <= h < 24 -> 0 <= m < 60 -> 0 <= s < 60 ->
  _timeToMinutes (fmt_HMS pad h m s) = Some (wrap (minutes_of (mkHMS h m s))).
Proof.
  intros Hh Hm Hs. unfold _timeToMinutes.
  rewrite strip_fmt_HMS, strptime_HMS_fmt by assumption.
  destruct (fmt_HMS pad h m s) eqn:E; [ | reflexivity].
  exfalso. exact (fmt_HMS_nonempty _ _ _ _ E).
Qed.

Lemma timeToMinutes_fmt_HM (pad : bool) (h m : Z) :
  0 <= h < 24 -> 0 <= m < 60 ->
  _timeToMinutes (fmt_HM pad h m) = Some (wrap (minutes_of (mkHMS h m 0))).
Proof.
  intros Hh Hm. unfold _timeToMinutes.
  rewrite strip_fmt_HM, strptime_HMS_fmt_HM, strptime_HM_fmt by assumption.
  destruct (fmt_HM pad h m) eqn:E; [ | reflexivity].
  exfalso. exact (fmt_HM_nonempty _ _ _ E).
Qed.

(** The wrap-around rule. *)
Lemma wrap_spec (x : Q) :
  ((x < 165)%Q -> wrap x = (x + 1440)%Q) /\ ((165 <= x)%Q -> wrap x = x).
Proof.
  unfold wrap, Qlt_bool. split; intros H.
  - destruct (Qle_bool 165 x) eqn:E; [ | reflexivity].
    apply Qle_bool_iff in E. exfalso. exact (Qlt_not_le _ _ H E).
  - apply Qle_bool_iff in H. rewrite H. reflexivity.
Qed.

Lemma minutes_of_HM (h m : Z) : (minutes_of (mkHMS h m 0) == inject_Z (60 * h + m))%Q.
Proof.
  unfold minutes_of. cbn [hour minute second].
  unfold Qeq, Qplus, Qdiv, Qmult, Qinv, inject_Z. cbn -[Z.mul Z.add]. lia.
Qed.

Lemma digit_of_range (c : ascii) (d : Z) : digit_of c = Some d -> 0 <= d <= 9.
Proof.
  unfold digit_of. destruct ((48 <=? nat_of_ascii c)%nat && (nat_of_ascii c <=? 57)%nat) eqn:E;
    [ | discriminate].
  intros H. injection H as <-. apply andb_true_iff in E. destruct E as [E1 E2].
  apply Nat.leb_le in E1, E2. lia.
Qed.

Lemma directive_inv {A : Type} (ok2 : Z -> Z -> bool) (s : string)
    (k : Z -> string -> option A) (x : A) :
  directive ok2 s k = Some x ->
  exists v r, k v r = Some x /\
    (0 <= v <= 9 \/
     exists d1 d2, 0 <= d1 <= 9 /\ 0 <= d2 <= 9 /\ ok2 d1 d2 = true /\ v = 10 * d1 + d2).
Proof.
  unfold directive. intros H.
  assert (Hone : match s with
                 | String c r => match digit_of c with Some d => k d r | None => None end
                 | EmptyString => None
                 end = Some x ->
                 exists v r, k v r = Some x /\
                   (0 <= v <= 9 \/
                    exists d1 d2, 0 <= d1 <= 9 /\ 0 <= d2 <= 9 /\
                                  ok2 d1 d2 = true /\ v = 10 * d1 + d2)).
  { destruct s as [ | c r]; [discriminate | ].
    destruct (digit_of c) as [d | ] eqn:Ed; [ | discriminate].
    intros Hk. exists d, r. split; [exact Hk | left; exact (digit_of_range _ _ Ed)]. }
  destruct s as [ | c1 [ | c2 r]]; try (apply Hone; exact H).
  destruct (digit_of c1) as [d1 | ] eqn:E1; [ | discriminate H].
  destruct (digit_of c2) as [d2 | ] eqn:E2; [ | apply Hone; exact H].
  destruct (ok2 d1 d2) eqn:Eok; [ | apply Hone; exact H].
  destruct (k (10 * d1 + d2) r) as [y | ] eqn:Ek; [ | apply Hone; exact H].
  injection H as <-. exists (10 * d1 + d2), r. split; [exact Ek | right].
  exists d1, d2. repeat split; try exact Eok;
    try (apply (digit_of_range _ _ E1)); apply (digit_of_range _ _ E2).
Qed.

Lemma literal_inv {A : Type} (c : ascii) (s : string) (k : string -> option A) (x : A) :
  literal c s k = Some x -> exists r, k r = Some x.
Proof.
  unfold literal. destruct s as [ | c' r]; [discriminate | ].
  destruct (Ascii.eqb c c'); [ | discriminate]. intros H. exists r. exact H.
Qed.

Lemma ok_H_bound (v : Z) :
  (0 <= v <= 9 \/
   exists d1 d2, 0 <= d1 <= 9 /\ 0 <= d2 <= 9 /\ ok_H d1 d2 = true /\ v = 10 * d1 + d2) ->
  0 <= v <= 23.
Proof.
  intros [H0 | (d1 & d2 & H1 & H2 & Hok & ->)]; [lia | ].
  unfold ok_H in Hok. apply orb_true_iff in Hok. destruct Hok as [Hok | Hok].
  - apply andb_true_iff in Hok. destruct Hok as [Ha Hb].
    apply Z.eqb_eq in Ha. apply Z.leb_le in Hb. lia.
  - apply Z.leb_le in Hok. lia.
Qed.

Lemma ok_M_bound (v : Z) :
  (0 <= v <= 9 \/
   exists d1 d2, 0 <= d1 <= 9 /\ 0 <= d2 <= 9 /\ ok_M d1 d2 = true /\ v = 10 * d1 + d2) ->
  0 <= v <= 59.
Proof.
  intros [H0 | (d1 & d2 & H1 & H2 & Hok & ->)]; [lia | ].
  unfold ok_M in Hok. apply Z.leb_le in Hok. lia.
Qed.

Lemma ok_S_bound (v : Z) :
  (0 <= v <= 9 \/
   exists d1 d2, 0 <= d1 <= 9 /\ 0 <= d2 <= 9 /\ ok_S d1 d2 = true /\ v = 10 * d1 + d2) ->
  0 <= v.
Proof.
  intros [H0 | (d1 & d2 & H1 & H2 & Hok & ->)]; lia.
Qed.

Lemma finish_inv (t t' : HMS) (rest : string) :
  finish t rest = Ok t' -> t' = t /\ second t <= 59.
Proof.
  unfold finish. destruct rest; [ | discriminate].
  destruct (Z.leb_spec (second t) 59); [ | discriminate].
  intros Hf. injection Hf as <-. split; [reflexivity | assumption].
Qed.

Lemma strptime_HMS_range (s : string) (t : HMS) :
  strptime_HMS s = Ok t -> HMS_in_range t.
Proof.
  unfold strptime_HMS.
  destruct (directive ok_H s _) as [[t0 rest] | ] eqn:E; [ | discriminate].
  intros Hf. apply finish_inv in Hf. destruct Hf as [-> Hsec].
  apply directive_inv in E. destruct E as (h & s1 & E & Hh).
  apply literal_inv in E. destruct E as (s2 & E).
  apply directive_inv in E. destruct E as (m & s3 & E & Hm).
  apply literal_inv in E. destruct E as (s4 & E).
  apply directive_inv in E. destruct E as (sec & s5 & E & Hs).
  injection E as <- <-. cbn [second] in Hsec.
  apply ok_H_bound in Hh. apply ok_M_bound in Hm. apply ok_S_bound in Hs.
  unfold HMS_in_range. cbn [hour minute second]. lia.
Qed.

Lemma strptime_HM_range (s : string) (t : HMS) :
  strptime_HM s = Ok t -> HMS_in_range t.
Proof.
  unfold strptime_HM.
  destruct (directive ok_H s _) as [[t0 rest] | ] eqn:E; [ | discriminate].
  intros Hf. apply finish_inv in Hf. destruct Hf as [-> Hsec].
  apply directive_inv in E. destruct E as (h & s1 & E & Hh).
  apply literal_inv in E. destruct E as (s2 & E).
  apply directive_inv in E. destruct E as (m & s3 & E & Hm).
  injection E as <- <-.
  apply ok_H_bound in Hh. apply ok_M_bound in Hm.
  unfold HMS_in_range. cbn [hour minute second]. lia.
Qed.

(** Whatever [_timeToMinutes] returns is the wrapped value of fields in
    range. *)
Lemma timeToMinutes_inv (s : string) (v : Q) :
  _timeToMinutes s = Some v ->
  exists t, HMS_in_range t /\ v = wrap (minutes_of t).
Proof.
  unfold _timeToMinutes. destruct s as [ | c r]; [discriminate | ].
  destruct (strptime_HMS (strip (String c r))) as [t | e] eqn:E1.
  - intros H. injection H as <-. exists t. split; [ | reflexivity].
    exact (strptime_HMS_range _ _ E1).
  - destruct (strptime_HM (strip (String c r))) as [t | e'] eqn:E2; [ | discriminate].
    intros H. injection H as <-. exists t. split; [ | reflexivity].
    exact (strptime_HM_range _ _ E2).
Qed.

Lemma minutes_of_bounds (t : HMS) :
  HMS_in_range t -> (0 <= minutes_of t)%Q /\ (minutes_of t < 1440)%Q.
Proof.
  intros (Hh & Hm & Hs). unfold minutes_of.
  destruct t as [h m s]. cbn [hour minute second] in *.
  unfold Qle, Qlt, Qplus, Qdiv, Qmult, Qinv, inject_Z. cbn -[Z.mul Z.add].
  split; lia.
Qed.

Lemma wrap_bounds (x : Q) :
  (0 <= x)%Q -> (x < 1440)%Q -> (165 <= wrap x)%Q /\ (wrap x < 1605)%Q.
Proof.
  intros H0 H1. unfold wrap, Qlt_bool.
  destruct (Qle_bool 165 x) eqn:E; cbn [negb].
  - apply Qle_bool_iff in E. split; [exact E | ].
    apply Qlt_trans with 1440%Q; [exact H1 | reflexivity].
  - assert (Hlt : (x < 165)%Q).
    { apply Qnot_le_lt. intros Hle. apply Qle_bool_iff in Hle. congruence. }
    split.
    + apply Qle_trans with (0 + 1440)%Q; [discriminate | ].
      apply Qplus_le_compat; [exact H0 | apply Qle_refl].
    + apply Qlt_le_trans with (165 + 1440)%Q; [ | discriminate].
      apply Qplus_lt_le_compat; [exact Hlt | apply Qle_refl].
Qed.

Lemma minutes_of_HMS (h m s : Z) :
  (minutes_of (mkHMS h m s) == inject_Z (60 * h + m) + inject_Z s / 60)%Q.
Proof.
  unfold minutes_of. cbn [hour minute second].
  unfold Qeq, Qplus, Qdiv, Qmult, Qinv, inject_Z. cbn -[Z.mul Z.add]. lia.
Qed.

(** C4. A time string [H:MM] or [H:MM:SS] (the hour with or without a
    leading zero) converts to its minutes since midnight, shifted by 1440
    when below 165 and unchanged from 165 on; ["02:30"] gives 1590 and
    ["09:15"] gives 555; a string that neither format accepts gives
    [None]. *)
Theorem timeToMinutes_wraparound :
  (forall (pad : bool) (h m : Z), 0 <= h < 24 -> 0 <= m < 60 ->
     exists v, _timeToMinutes (fmt_HM pad h m) = Some v /\
       (60 * h + m < 165 -> (v == inject_Z (60 * h + m + 1440))%Q) /\
       (165 <= 60 * h + m -> (v == inject_Z (60 * h + m))%Q))
  /\ (forall (pad : bool) (h m s : Z), 0 <= h < 24 -> 0 <= m < 60 -> 0 <= s < 60 ->
     exists v, _timeToMinutes (fmt_HMS pad h m s) = Some v /\
       ((inject_Z (60 * h + m) + inject_Z s / 60 < 165)%Q ->
        (v == inject_Z (60 * h + m) + inject_Z s / 60 + 1440)%Q) /\
       ((165 <= inject_Z (60 * h + m) + inject_Z s / 60)%Q ->
        (v == inject_Z (60 * h + m) + inject_Z s / 60)%Q))
  /\ (exists v, _timeToMinutes "02:30" = Some v /\ (v == 1590)%Q)
  /\ (exists v, _timeToMinutes "09:15" = Some v /\ (v == 555)%Q)
  /\ (forall str : string, ~ parses_as_time str -> _timeToMinutes str = None).
Proof.
  repeat split.
  - intros pad h m Hh Hm. eexists. split; [apply timeToMinutes_fmt_HM; assumption | ].
    destruct (wrap_spec (minutes_of (mkHMS h m 0))) as [Hlt Hge]. split; intros H.
    + rewrite Hlt.
      * rewrite minutes_of_HM. rewrite (inject_Z_plus (60 * h + m) 1440). reflexivity.
      * rewrite minutes_of_HM.
        change (inject_Z (60 * h + m) < inject_Z 165)%Q. rewrite <- Zlt_Qlt. exact H.
    + rewrite Hge.
      * apply minutes_of_HM.
      * rewrite minutes_of_HM.
        change (inject_Z 165 <= inject_Z (60 * h + m))%Q. rewrite <- Zle_Qle. exact H.
  - intros pad h m s Hh Hm Hs. eexists.
    split; [apply timeToMinutes_fmt_HMS; assumption | ].
    destruct (wrap_spec (minutes_of (mkHMS h m s))) as [Hlt Hge]. split; intros H.
    + rewrite Hlt.
      * rewrite minutes_of_HMS. reflexivity.
      * rewrite minutes_of_HMS. exact H.
    + rewrite Hge.
      * apply minutes_of_HMS.
      * rewrite minutes_of_HMS. exact H.
  - eexists. split; [vm_compute; reflexivity | reflexivity].
  - eexists. split; [vm_compute; reflexivity | reflexivity].
  - intros str Hno. unfold _timeToMinutes. destruct str as [ | c r]; [reflexivity | ].
    destruct (strptime_HMS (strip (String c r))) as [t | e] eqn:E1.
    + exfalso. apply Hno. exists t. left. exact E1.
    + destruct (strptime_HM (strip (String c r))) as [t | e'] eqn:E2; [ | reflexivity].
      exfalso. apply Hno. exists t. right. exact E2.
Qed.

Lemma timeToMinutes_wraparound_witness :
  (0 <= 2 < 24 /\ 0 <= 30 < 60) /\
  exists v, _timeToMinutes (fmt_HM true 2 30) = Some v /\
    (60 * 2 + 30 < 165 -> (v == inject_Z (60 * 2 + 30 + 1440))%Q) /\
    (165 <= 60 * 2 + 30 -> (v == inject_Z (60 * 2 + 30))%Q).
Proof.
  split; [lia | ].
  destruct timeToMinutes_wraparound as [H _].
  apply (H true 2 30); lia.
Defined.

(** C10. Whatever string it is given, the conversion returns [None] or a
    value [v] with [165 <= v < 1605]; hence the time of every
    [StationEvent], when not [None], lies in the default window
    [[165, 1605]] of [FilterQuery]. *)
Theorem timeToMinutes_range :
  (forall (str : string) (v : Q),
     _timeToMinutes str = Some v -> (165 <= v)%Q /\ (v < 1605)%Q)
  /\ inTimePeriod defaultQuery = Some (165, 1605)
  /\ (forall (st time : string) (v : Q),
        atTime (newStationEvent st time) = Some v -> in_window 165 1605 v = true).
Proof.
  assert (Hrange : forall (str : string) (v : Q),
             _timeToMinutes str = Some v -> (165 <= v)%Q /\ (v < 1605)%Q).
  { intros str v H. apply timeToMinutes_inv in H. destruct H as (t & Ht & ->).
    destruct (minutes_of_bounds t Ht) as [H0 H1]. exact (wrap_bounds _ H0 H1). }
  split; [exact Hrange | ]. split; [reflexivity | ].
  intros st time v H. cbn [newStationEvent atTime] in H.
  destruct (Hrange _ _ H) as [Hlo Hhi].
  unfold in_window. apply andb_true_iff. split; apply Qle_bool_iff.
  - exact Hlo.
  - apply Qlt_le_weak. exact Hhi.
Qed.

Lemma timeToMinutes_range_witness :
  _timeToMinutes "09:15" = Some (33300 # 60)%Q /\
  (165 <= 33300 # 60)%Q /\ (33300 # 60 < 1605)%Q.
Proof.
  assert (E : _timeToMinutes "09:15" = Some (33300 # 60)%Q) by (vm_compute; reflexivity).
  split; [exact E | ].
  destruct timeToMinutes_range as [H _].
  exact (H "09:15" (33300 # 60)%Q E).
Defined.

(** ** Extraction of the AC requirement *)

Lemma marker_count_cons (c : string) (cells : list string) :
  marker_count (c :: cells) =
  ((if is_ac_marker (strip c) then 1 else 0) + marker_count cells)%nat.
Proof. unfold marker_count. cbn [filter]. destruct (is_ac_marker (strip c)); reflexivity. Qed.

Lemma extractAC_loop_spec (cells : list string) :
  forall k : Z, k <= 1 ->
  (extractAC_loop cells k = true <->
   cells <> [] /\ 1 - k <= Z.of_nat (marker_count (removelast cells))).
Proof.
  induction cells as [ | c rest IH]; intros k Hk.
  - cbn. split; [discriminate | intros [H _]; congruence].
  - cbn [extractAC_loop]. destruct (Z.eqb_spec k 1) as [-> | Hne].
    + split; [ | reflexivity]. intros _. split; [discriminate | lia].
    + assert (Hrl : rest <> [] -> removelast (c :: rest) = c :: removelast rest).
      { destruct rest; [congruence | reflexivity]. }
      destruct (is_ac_marker (strip c)) eqn:Em.
      * rewrite (IH (k + 1)) by lia. split.
        -- intros [Hr Hc]. split; [discriminate | ].
           rewrite (Hrl Hr), marker_count_cons, Em. cbv iota. lia.
        -- intros [_ Hc]. destruct rest as [ | c' rest'].
           ++ cbn [removelast marker_count filter List.length] in Hc. lia.
           ++ split; [discriminate | ].
              rewrite Hrl, marker_count_cons, Em in Hc by discriminate. cbv iota in Hc. lia.
      * rewrite (IH k) by lia. split.
        -- intros [Hr Hc]. split; [discriminate | ].
           rewrite (Hrl Hr), marker_count_cons, Em. cbv iota. lia.
        -- intros [_ Hc]. destruct rest as [ | c' rest'].
           ++ cbn [removelast marker_count filter List.length] in Hc. lia.
           ++ split; [discriminate | ].
              rewrite Hrl, marker_count_cons, Em in Hc by discriminate. cbv iota in Hc. lia.
Qed.

(** C9 (as the code has it). The AC requirement extracted from a column
    is true exactly when at least two marker cells occur before its last
    cell; in particular it is false for a column without marker cell. *)
Theorem extractACRequirement_two_markers :
  (forall col : list string,
     extractACRequirement col = true <-> (2 <= marker_count (removelast col))%nat)
  /\ (forall col : list string,
        marker_count col = 0%nat -> extractACRequirement col = false).
Proof.
  assert (Hiff : forall col : list string,
     extractACRequirement col = true <-> (2 <= marker_count (removelast col))%nat).
  { intros col. unfold extractACRequirement.
    rewrite (extractAC_loop_spec col (-1)) by lia. split.
    - intros [_ H]. lia.
    - intros H. split; [ | lia]. intros ->. cbn in H. lia. }
  split; [exact Hiff | ].
  intros col H0. destruct (extractACRequirement col) eqn:E; [ | reflexivity].
  apply Hiff in E. exfalso.
  assert (Hle : (marker_count (removelast col) <= marker_count col)%nat).
  { clear. induction col as [ | c rest IH]; [apply Nat.le_refl | ].
    destruct rest as [ | c' rest'].
    - cbn [removelast]. change (marker_count []) with 0%nat. lia.
    - change (removelast (c :: c' :: rest')) with (c :: removelast (c' :: rest')).
      rewrite (marker_count_cons c (removelast (c' :: rest'))).
      rewrite (marker_count_cons c (c' :: rest')). lia. }
  lia.
Qed.

Lemma extractACRequirement_two_markers_witness :
  marker_count ["93001"; "12 CAR"; "09:15"] = 0%nat /\
  extractACRequirement ["93001"; "12 CAR"; "09:15"] = false.
Proof.
  split; [reflexivity | ].
  destruct extractACRequirement_two_markers as [_ H].
  apply (H ["93001"; "12 CAR"; "09:15"]). reflexivity.
Defined.

(** C9, as stated, fails: a column with one marker cell is extracted as
    not requiring AC. *)
Lemma extractACRequirement_single_marker :
  existsb (fun cell => is_ac_marker (strip cell)) ["93001"; "AC"; "09:15"; "09:20"] = true /\
  extractACRequirement ["93001"; "AC"; "09:15"; "09:20"] = false.
Proof. split; reflexivity. Qed.

(** ** STATION mode *)

Lemma in_window_inside (lo hi : Z) (t : Q) :
  in_window lo hi t = true <-> inside lo hi t.
Proof.
  unfold in_window, inside. rewrite andb_true_iff, !Qle_bool_iff. reflexivity.
Qed.

Lemma checkACConstraint_render (qq : FilterQuery) (svc : Service) :
  svc_render (checkACConstraint qq svc) =
  svc_render svc && ac_allows (ac qq) (needsACRake svc).
Proof.
  unfold checkACConstraint, ac_allows.
  destruct (ac qq) as [mode | ]; [ | cbn; now rewrite andb_true_r].
  destruct mode as [ | c r]; [cbn; now rewrite andb_true_r | ].
  remember (String c r) as mode eqn:Em. clear Em c r.
  destruct (String.eqb_spec mode "all") as [-> | Hall];
    [cbn; now rewrite andb_true_r | ].
  destruct (String.eqb_spec mode "ac") as [-> | Hac].
  - destruct (needsACRake svc); cbn; [now rewrite andb_true_r | now rewrite andb_false_r].
  - destruct (String.eqb_spec mode "nonac") as [-> | Hnon].
    + destruct (needsACRake svc); cbn; [now rewrite andb_false_r | now rewrite andb_true_r].
    + cbn. now rewrite andb_true_r.
Qed.

Lemma checkACConstraint_events (qq : FilterQuery) (svc : Service) :
  events (checkACConstraint qq svc) = events svc.
Proof.
  unfold checkACConstraint.
  destruct (ac qq) as [[ | c r] | ]; try reflexivity.
  destruct (String.eqb (String c r) "all"); [reflexivity | ].
  destruct (String.eqb (String c r) "ac" && negb (needsACRake svc)); [reflexivity | ].
  destruct (String.eqb (String c r) "nonac" && needsACRake svc); reflexivity.
Qed.

Lemma station_filter_event_spec (lo hi : Z) (ev : StationEvent) :
  atStation (station_filter_event lo hi ev) = atStation ev /\
  atTime (station_filter_event lo hi ev) = atTime ev /\
  (ev_render (station_filter_event lo hi ev) = true <->
   exists t, atTime ev = Some t /\ inside lo hi t).
Proof.
  unfold station_filter_event. cbn [set_ev_render atTime].
  destruct (atTime ev) as [t | ] eqn:Et.
  - destruct (in_window lo hi t) eqn:Ew; cbn [negb set_ev_render atStation atTime ev_render].
    + repeat split; try assumption. intros _. exists t. split; [reflexivity | ].
      apply in_window_inside. exact Ew.
    + repeat split; try assumption; [discriminate | ].
      intros (t' & Ht' & Hin). injection Ht' as <-.
      apply in_window_inside in Hin. congruence.
  - cbn [set_ev_render atStation atTime ev_render]. repeat split; try assumption;
      [discriminate | intros (t' & Ht' & _); discriminate].
Qed.

Lemma station_filter_svc_events (qq : FilterQuery) (lo hi : Z) (svc : Service) :
  events (station_filter_svc qq lo hi svc) = map (station_filter_event lo hi) (events svc).
Proof.
  unfold station_filter_svc. cbn [set_svc_render events].
  destruct (events svc) as [ | e es] eqn:E; [cbn; exact E | ].
  rewrite checkACConstraint_events. reflexivity.
Qed.

Lemma station_filter_svc_render (qq : FilterQuery) (lo hi : Z) (svc : Service) :
  svc_render (station_filter_svc qq lo hi svc) =
  match events svc with
  | [] => false
  | _ => ac_allows (ac qq) (needsACRake svc)
  end.
Proof.
  unfold station_filter_svc. cbn [set_svc_render events].
  destruct (events svc) as [ | e es]; [reflexivity | ].
  rewrite checkACConstraint_render. reflexivity.
Qed.

(** C6. After a STATION-mode pass every rake cycle is visible; an event is
    visible exactly when its time is not [None] and lies in the closed
    window; and the visibility of a service is a function of the AC
    constraint and the service alone (false for a service without events),
    the same whatever the window and the station constraints. *)
Theorem station_mode_visibility (wtt : TimeTable) (qq : FilterQuery) (lo hi : Z) :
  inTimePeriod qq = Some (lo, hi) ->
  exists wtt',
    apply_station_filters wtt qq = Ok wtt' /\
    List.length (rakecycles wtt') = List.length (rakecycles wtt) /\
    (forall rc, In rc (rakecycles wtt') -> rc_render rc = true) /\
    List.length (suburbanServices wtt') = List.length (suburbanServices wtt) /\
    (forall (i : nat) (svc svc' : Service),
        nth_error (suburbanServices wtt) i = Some svc ->
        nth_error (suburbanServices wtt') i = Some svc' ->
        List.length (events svc') = List.length (events svc) /\
        (forall (j : nat) (ev ev' : StationEvent),
            nth_error (events svc) j = Some ev ->
            nth_error (events svc') j = Some ev' ->
            atStation ev' = atStation ev /\ atTime ev' = atTime ev /\
            (ev_render ev' = true <-> exists t, atTime ev = Some t /\ inside lo hi t)) /\
        svc_render svc' =
          match events svc with
          | [] => false
          | _ => ac_allows (ac qq) (needsACRake svc)
          end /\
        (forall (qq2 : FilterQuery) (wtt2 : TimeTable) (svc2 : Service),
            ac qq2 = ac qq ->
            apply_station_filters wtt qq2 = Ok wtt2 ->
            nth_error (suburbanServices wtt2) i = Some svc2 ->
            svc_render svc2 = svc_render svc')).
Proof.
  intros Hp. unfold apply_station_filters. rewrite Hp.
  eexists. split; [reflexivity | ]. cbn [rakecycles suburbanServices].
  split; [apply length_map | ].
  split.
  { intros rc Hin. apply in_map_iff in Hin. destruct Hin as (rc0 & <- & _). reflexivity. }
  split; [apply length_map | ].
  intros i svc svc' Hi Hi'.
  rewrite nth_error_map, Hi in Hi'. cbn in Hi'. injection Hi' as <-.
  split; [rewrite station_filter_svc_events; apply length_map | ].
  split.
  { intros j ev ev' Hj Hj'. rewrite station_filter_svc_events in Hj'.
    rewrite nth_error_map, Hj in Hj'. cbn in Hj'. injection Hj' as <-.
    apply station_filter_event_spec. }
  split; [apply station_filter_svc_render | ].
  intros qq2 wtt2 svc2 Hac H2 Hn2.
  destruct (inTimePeriod qq2) as [[lo2 hi2] | ]; [ | discriminate].
  injection H2 as <-. cbn [suburbanServices] in Hn2.
  rewrite nth_error_map, Hi in Hn2. cbn in Hn2. injection Hn2 as <-.
  rewrite !station_filter_svc_render, Hac. reflexivity.
Qed.

Lemma station_mode_visibility_witness :
  inTimePeriod (mkQuery (Some STATION) None None [] (Some (600, 660)) None None)
    = Some (600, 660) /\
  exists wtt',
    apply_station_filters sample_wtt
      (mkQuery (Some STATION) None None [] (Some (600, 660)) None None) = Ok wtt' /\
    (forall rc, In rc (rakecycles wtt') -> rc_render rc = true).
Proof.
  split; [reflexivity | ].
  destruct (station_mode_visibility sample_wtt
              (mkQuery (Some STATION) None None [] (Some (600, 660)) None None)
              600 660 eq_refl) as (w & H1 & _ & H2 & _).
  exists w. split; assumption.
Defined.

(** With the window [[600, 660]] the event at 08:20 (500 minutes) of a
    service becomes invisible, the one at 10:30 stays visible, and the
    rake cycle stays visible. *)
Example station_mode_window_600_660 :
  exists wtt',
    apply_station_filters sample_wtt
      (mkQuery (Some STATION) None None [] (Some (600, 660)) None None) = Ok wtt' /\
    map rc_render (rakecycles wtt') = [true] /\
    map (fun s => map ev_render (events s)) (suburbanServices wtt') =
      [[false; false; false; false]; [true; false]; [false; false]].
Proof. eexists. split; [reflexivity | ]. split; vm_compute; reflexivity. Qed.

(** ** Assignment of rakes *)

Lemma rake_scan_id (rake : Rake) (sp : list Service) :
  rakeId (rake_scan rake sp) = rakeId rake.
Proof.
  induction sp as [ | svc rest IH]; [reflexivity | ]. cbn [rake_scan].
  destruct (needsACRake svc); [reflexivity | ].
  destruct (rakeSizeReq svc) as [n | ]; [ | exact IH].
  destruct (n =? 0); [exact IH | reflexivity].
Qed.

Lemma rake_scan_decided (i : Z) (sp : list Service) :
  rake_decided_by sp (rake_scan (newRake i) sp).
Proof.
  induction sp as [ | svc rest IH].
  - left. repeat split.
  - cbn [rake_scan]. destruct (needsACRake svc) eqn:Eac.
    + right. exists [], svc, rest. split; [reflexivity | ]. split; [reflexivity | ].
      left. repeat split. exact Eac.
    + destruct (rakeSizeReq svc) as [n | ] eqn:Esz.
      * destruct (Z.eqb_spec n 0) as [-> | Hn].
        -- assert (Hu : undecided svc = true).
           { unfold undecided, declares_size. rewrite Eac, Esz. reflexivity. }
           destruct IH as [(Hall & Hr) | (pre & s & post & -> & Hpre & Hd)].
           ++ left. split; [ | exact Hr]. cbn [forallb]. rewrite Hu, Hall. reflexivity.
           ++ right. exists (svc :: pre), s, post. split; [reflexivity | ].
              split; [ | exact Hd]. cbn [forallb]. rewrite Hu, Hpre. reflexivity.
        -- right. exists [], svc, rest. split; [reflexivity | ]. split; [reflexivity | ].
           right. cbn [set_rakeSize newRake isAC rakeSize]. repeat split; assumption.
      * assert (Hu : undecided svc = true).
        { unfold undecided, declares_size. rewrite Eac, Esz. reflexivity. }
        destruct IH as [(Hall & Hr) | (pre & s & post & -> & Hpre & Hd)].
        -- left. split; [ | exact Hr]. cbn [forallb]. rewrite Hu, Hall. reflexivity.
        -- right. exists (svc :: pre), s, post. split; [reflexivity | ].
           split; [ | exact Hd]. cbn [forallb]. rewrite Hu, Hpre. reflexivity.
Qed.

Lemma assignRakes_from_spec (rcs : list RakeCycle) :
  forall (i : Z) (rcs' : list RakeCycle),
    assignRakes_from i rcs = Ok rcs' ->
    List.length rcs' = List.length rcs /\
    forall (k : nat) (rc rc' : RakeCycle),
      nth_error rcs k = Some rc -> nth_error rcs' k = Some rc' ->
      exists sp rk,
        servicePath rc = Some sp /\ rake rc' = Some rk /\
        rakeId rk = i + Z.of_nat k /\ rake_decided_by sp rk.
Proof.
  induction rcs as [ | rc0 rest IH]; intros i rcs' H.
  - cbn in H. injection H as <-. split; [reflexivity | ].
    intros [ | k] rc rc' Hk; discriminate.
  - cbn [assignRakes_from] in H. unfold assign_one in H.
    destruct (servicePath rc0) as [sp | ] eqn:Esp; [ | discriminate].
    cbn [bind] in H.
    destruct (assignRakes_from (i + 1) rest) as [rest' | e] eqn:Er; [ | discriminate].
    cbn [bind] in H. injection H as <-.
    destruct (IH _ _ Er) as [Hlen Hnth]. split; [cbn; now rewrite Hlen | ].
    intros [ | k] rc rc' Hk Hk'.
    + cbn in Hk, Hk'. injection Hk as <-. injection Hk' as <-.
      exists sp, (rake_scan (newRake i) sp). repeat split.
      * exact Esp.
      * rewrite rake_scan_id. cbn. lia.
      * apply rake_scan_decided.
    + cbn in Hk, Hk'. destruct (Hnth k rc rc' Hk Hk') as (sp' & rk & H1 & H2 & H3 & H4).
      exists sp', rk. repeat split; try assumption. lia.
Qed.

Lemma assignRakes_from_total (rcs : list RakeCycle) :
  forall i : Z,
    Forall (fun rc => servicePath rc <> None) rcs ->
    exists rcs', assignRakes_from i rcs = Ok rcs'.
Proof.
  induction rcs as [ | rc0 rest IH]; intros i Hall.
  - exists []. reflexivity.
  - inversion Hall as [ | ? ? H0 Hrest]; subst.
    destruct (IH (i + 1) Hrest) as (rest' & Er).
    cbn [assignRakes_from]. unfold assign_one.
    destruct (servicePath rc0) as [sp | ]; [ | congruence].
    cbn [bind]. rewrite Er. cbn [bind]. eexists. reflexivity.
Qed.

(** C8 (as the code has it). Every cycle with a path is assigned a rake,
    numbered by its position, which is non-AC with 12 cars by default; the
    first service of the path, in path order, that requires AC or
    declares a car count decides it: AC with 12 cars in the first case,
    non-AC with the declared car count in the second. *)
Theorem assignRakes_first_match (rcs : list RakeCycle) :
  Forall (fun rc => servicePath rc <> None) rcs ->
  exists rcs',
    assignRakes rcs = Ok rcs' /\
    List.length rcs' = List.length rcs /\
    forall (k : nat) (rc rc' : RakeCycle),
      nth_error rcs k = Some rc -> nth_error rcs' k = Some rc' ->
      exists sp rk,
        servicePath rc = Some sp /\ rake rc' = Some rk /\
        rakeId rk = Z.of_nat k /\ rake_decided_by sp rk.
Proof.
  intros Hall. destruct (assignRakes_from_total rcs 0 Hall) as (rcs' & E).
  exists rcs'. split; [exact E | ].
  destruct (assignRakes_from_spec rcs 0 rcs' E) as [Hlen Hnth].
  split; [exact Hlen | ].
  intros k rc rc' Hk Hk'. destruct (Hnth k rc rc' Hk Hk') as (sp & rk & H1 & H2 & H3 & H4).
  exists sp, rk. repeat split; try assumption; lia.
Qed.

Lemma assignRakes_first_match_witness :
  Forall (fun rc => servicePath rc <> None) [cycle_A] /\
  exists rcs', assignRakes [cycle_A] = Ok rcs' /\ List.length rcs' = 1%nat.
Proof.
  assert (H : Forall (fun rc => servicePath rc <> None) [cycle_A]).
  { constructor; [discriminate | constructor]. }
  split; [exact H | ].
  destruct (assignRakes_first_match [cycle_A] H) as (rcs' & E & Hlen & _).
  exists rcs'. split; assumption.
Defined.

(** C8, as stated, fails: on the path [93001 (non-AC, 15 cars), 93002
    (AC)] a service requires AC, yet the assigned rake is non-AC; and on
    the path [93002 (AC, 15 cars)] the rake has 12 cars, not the 15 the
    service declares. *)
Lemma assignRakes_not_any_AC :
  existsb needsACRake sample_chain = true /\
  assignRakes [cycle_A] = Ok [set_rake cycle_A (Some (mkRake 0 false 15))] /\
  rakeSizeReq svc_93002 = Some 15 /\
  assignRakes [set_servicePath cycle_A (Some [svc_93002])] =
    Ok [set_rake (set_servicePath cycle_A (Some [svc_93002])) (Some (mkRake 0 true 12))].
Proof. repeat split. Qed.

(** ** Validation against the summary *)

(** The three cases of the reconciler's testable properties: an exact
    match and a single trailing stabling marker are kept, a differing
    identifier is a conflict. *)
Example validate_exact_match :
  validateRakeCycles [cycle_A] = Ok ([cycle_A], []).
Proof. reflexivity. Qed.

Example validate_one_trailing_ETY :
  validateRakeCycles [cycle_ETY1] = Ok ([cycle_ETY1], []).
Proof. reflexivity. Qed.

Example validate_differing_id :
  validateRakeCycles [cycle_93099] =
    Ok ([], [(cycle_93099, [IdInt 93001; IdInt 93002])]).
Proof. reflexivity. Qed.

(** C1 at the stub [[93001, 93002, "ETY7", "ETY8"]] with the chain
    [[93001, 93002]]: the mismatch is confined to the two trailing
    declared identifiers and both contain the token ETY, yet the cycle is
    logged as a conflict and removed.  The test reads the last element of
    [summaryPath[:-2]], which is [93002], instead of the last but one of
    [summaryPath]. *)
Theorem validate_two_trailing_ETY :
  serviceIds cycle_ETY2 = [IdInt 93001; IdInt 93002] ++ [IdStr "ETY7"; IdStr "ETY8"] /\
  servicePath cycle_ETY2 = Some sample_chain /\
  map (fun s => py_first (serviceId s)) sample_chain = [Ok (IdInt 93001); Ok (IdInt 93002)] /\
  forallb has_ETY [IdStr "ETY7"; IdStr "ETY8"] = true /\
  validateRakeCycles [cycle_ETY2] =
    Ok ([], [(cycle_ETY2, [IdInt 93001; IdInt 93002])]).
Proof. repeat split. Qed.

(** ** Dictionaries *)

Section DictFacts.
Context {K V : Type} (eqb : K -> K -> bool).
Hypothesis eqb_eq : forall a b : K, eqb a b = true <-> a = b.

Lemma eqb_refl_K (a : K) : eqb a a = true.
Proof. apply eqb_eq. reflexivity. Qed.

Lemma eqb_neq_K (a b : K) : a <> b -> eqb a b = false.
Proof.
  intros H. destruct (eqb a b) eqn:E; [ | reflexivity].
  apply eqb_eq in E. contradiction.
Qed.

Lemma eqb_dec_K (a b : K) : {a = b} + {a <> b}.
Proof.
  destruct (eqb a b) eqn:E.
  - left. apply eqb_eq. exact E.
  - right. intros H. apply eqb_eq in H. congruence.
Qed.

Lemma dict_get_set (d : dict (K:=K) (V:=V)) (k k' : K) (v : V) :
  dict_get eqb (dict_set eqb d k v) k' =
  if eqb k' k then Some v else dict_get eqb d k'.
Proof.
  induction d as [ | [k0 v0] r IH]; cbn [dict_set dict_get].
  - reflexivity.
  - destruct (eqb_dec_K k k0) as [-> | Hne].
    + rewrite eqb_refl_K. cbn [dict_get]. destruct (eqb k' k0); reflexivity.
    + rewrite (eqb_neq_K _ _ Hne). cbn [dict_get]. rewrite IH.
      destruct (eqb_dec_K k' k0) as [-> | Hne'].
      * rewrite eqb_refl_K.
        rewrite (eqb_neq_K k0 k); [reflexivity | congruence].
      * rewrite (eqb_neq_K _ _ Hne'). reflexivity.
Qed.

Lemma dict_keys_set (d : dict (K:=K) (V:=V)) (k : K) (v : V) :
  dict_keys (dict_set eqb d k v) =
  if dict_mem eqb d k then dict_keys d else dict_keys d ++ [k].
Proof.
  unfold dict_mem, dict_keys.
  induction d as [ | [k0 v0] r IH]; cbn [dict_set dict_get map fst].
  - reflexivity.
  - destruct (eqb k k0) eqn:E; cbn [map fst]; [reflexivity | ].
    rewrite IH. destruct (dict_get eqb r k); reflexivity.
Qed.

Lemma dict_mem_In (d : dict (K:=K) (V:=V)) (k : K) :
  dict_mem eqb d k = true <-> In k (dict_keys d).
Proof.
  unfold dict_mem, dict_keys.
  induction d as [ | [k0 v0] r IH]; cbn [dict_get map fst In].
  - split; [discriminate | contradiction].
  - destruct (eqb_dec_K k k0) as [-> | Hne].
    + rewrite eqb_refl_K. split; [now left | reflexivity].
    + rewrite (eqb_neq_K _ _ Hne). rewrite IH. split; [now right | ].
      intros [H | H]; [congruence | exact H].
Qed.

Lemma dict_keys_set_NoDup (d : dict (K:=K) (V:=V)) (k : K) (v : V) :
  NoDup (dict_keys d) -> NoDup (dict_keys (dict_set eqb d k v)).
Proof.
  intros Hnd. rewrite dict_keys_set. destruct (dict_mem eqb d k) eqn:E; [exact Hnd | ].
  apply NoDup_app; [exact Hnd | repeat constructor; intros [] | ].
  intros x Hx [<- | []]. apply dict_mem_In in Hx. congruence.
Qed.
End DictFacts.

Lemma SId_eqb_eq (a b : SId) : SId_eqb a b = true <-> a = b.
Proof.
  destruct a as [x | x], b as [y | y]; cbn [SId_eqb].
  - rewrite Z.eqb_eq. split; [now intros -> | congruence].
  - split; discriminate.
  - split; discriminate.
  - rewrite String.eqb_eq. split; [now intros -> | congruence].
Qed.

(** ** SERVICE mode: the passing-through constraint *)

Lemma times_at_app (st : string) (es1 es2 : list StationEvent) :
  times_at st (es1 ++ es2) = times_at st es1 ++ times_at st es2.
Proof. unfold times_at. rewrite filter_app, map_app. reflexivity. Qed.

Lemma stnMapTimes_step (m : dict (K:=string) (V:=list (option Q)))
    (pre : list StationEvent) (e : StationEvent) :
  (forall st, dict_get String.eqb m st = nonempty_or_none (times_at st pre)) ->
  forall st,
    dict_get String.eqb
      (let m1 := if dict_mem String.eqb m (atStation e) then m
                 else dict_set String.eqb m (atStation e) [] in
       match dict_get String.eqb m1 (atStation e) with
       | Some ts => dict_set String.eqb m1 (atStation e) (ts ++ [atTime e])
       | None => m1
       end) st
    = nonempty_or_none (times_at st (pre ++ [e])).
Proof.
  intros Hinv st. cbv zeta. rewrite times_at_app.
  unfold dict_mem. pose proof (Hinv (atStation e)) as He.
  assert (Hlast : times_at st [e] = if String.eqb st (atStation e) then [atTime e] else []).
  { unfold times_at. cbn [filter]. rewrite String.eqb_sym.
    destruct (String.eqb st (atStation e)); reflexivity. }
  rewrite Hlast.
  destruct (dict_get String.eqb m (atStation e)) as [ts | ] eqn:Eg.
  - rewrite Eg. rewrite (dict_get_set String.eqb String.eqb_eq).
    destruct (String.eqb_spec st (atStation e)) as [-> | Hne].
    + destruct (times_at (atStation e) pre) as [ | t0 r] eqn:Et; [discriminate | ].
      cbn in He. injection He as ->. reflexivity.
    + rewrite app_nil_r. apply Hinv.
  - rewrite (dict_get_set String.eqb String.eqb_eq), String.eqb_refl.
    rewrite !(dict_get_set String.eqb String.eqb_eq).
    destruct (String.eqb_spec st (atStation e)) as [-> | Hne].
    + destruct (times_at (atStation e) pre) as [ | t0 r] eqn:Et; [reflexivity | discriminate].
    + rewrite app_nil_r. apply Hinv.
Qed.

Lemma stnMapTimes_fold (es : list StationEvent) :
  forall (pre : list StationEvent) (m : dict (K:=string) (V:=list (option Q))),
    (forall st, dict_get String.eqb m st = nonempty_or_none (times_at st pre)) ->
    forall st,
      dict_get String.eqb
        (fold_left
           (fun m e =>
              let m1 := if dict_mem String.eqb m (atStation e) then m
                        else dict_set String.eqb m (atStation e) [] in
              match dict_get String.eqb m1 (atStation e) with
              | Some ts => dict_set String.eqb m1 (atStation e) (ts ++ [atTime e])
              | None => m1
              end) es m) st
      = nonempty_or_none (times_at st (pre ++ es)).
Proof.
  induction es as [ | e es IH]; intros pre m Hinv st.
  - cbn [fold_left]. rewrite app_nil_r. apply Hinv.
  - cbn [fold_left]. rewrite (IH (pre ++ [e])).
    + rewrite <- app_assoc. reflexivity.
    + apply stnMapTimes_step. exact Hinv.
Qed.

Lemma stnMapTimes_get (es : list StationEvent) (st : string) :
  dict_get String.eqb (stnMapTimes_of es) st = nonempty_or_none (times_at st es).
Proof.
  unfold stnMapTimes_of. rewrite (stnMapTimes_fold es [] []); [reflexivity | ].
  intros st'. reflexivity.
Qed.

Lemma py_last_rev {A : Type} (l : list A) :
  py_last l = match rev l with [] => Raise IndexError | x :: _ => Ok x end.
Proof.
  induction l as [ | x r IH]; [reflexivity | ].
  cbn [rev]. destruct r as [ | y r'].
  - reflexivity.
  - change (py_last (x :: y :: r')) with (py_last (y :: r')). rewrite IH.
    destruct (rev (y :: r')) as [ | z zs] eqn:E; [ | reflexivity].
    apply (f_equal (@List.length A)) in E. rewrite length_rev in E. discriminate.
Qed.

Lemma passing_loop_ok (qq : FilterQuery) (lo hi : Z) (es : list StationEvent)
    (svc : Service) (us : list string) :
  inTimePeriod qq = Some (lo, hi) ->
  forall svc',
    passing_loop qq (stnMapTimes_of es) us svc = Ok svc' ->
    (Forall (passes_at lo hi es) us /\ svc' = svc) \/
    (Exists (fun u => ~ passes_at lo hi es u) us /\ svc' = set_svc_render svc false).
Proof.
  intros Hp. induction us as [ | u rest IH]; intros svc' H.
  - cbn in H. injection H as <-. left. split; [constructor | reflexivity].
  - cbn [passing_loop] in H. rewrite stnMapTimes_get in H.
    unfold passes_at, last_time_at in *.
    destruct (times_at u es) as [ | t0 ts] eqn:Et; cbn [nonempty_or_none] in H.
    + injection H as <-. right. split; [ | reflexivity].
      apply Exists_cons_hd. rewrite Et. cbn. intros (t & Ht & _). discriminate.
    + rewrite py_last_rev in H.
      destruct (rev (t0 :: ts)) as [ | t r] eqn:Er.
      { apply (f_equal (@List.length _)) in Er. rewrite length_rev in Er. discriminate. }
      cbn [bind] in H. rewrite Hp in H. cbn [outside_window] in H.
      destruct t as [q | ]; [ | discriminate]. cbn [bind] in H.
      destruct (in_window lo hi q) eqn:Ew; cbn [negb] in H.
      * destruct (IH _ H) as [[Hall ->] | [Hex ->]].
        -- left. split; [ | reflexivity]. constructor; [ | exact Hall].
           rewrite Et, Er. exists q. split; [reflexivity | ].
           apply in_window_inside. exact Ew.
        -- right. split; [ | reflexivity]. apply Exists_cons_tl. exact Hex.
      * injection H as <-. right. split; [ | reflexivity].
        apply Exists_cons_hd. rewrite Et, Er. intros (t & Ht & Hin).
        injection Ht as <-. apply in_window_inside in Hin. congruence.
Qed.

Lemma times_at_not_None (st : string) (es : list StationEvent) (t : option Q) :
  (forall e, In e es -> atTime e <> None) -> In t (times_at st es) -> t <> None.
Proof.
  intros Hall Hin. unfold times_at in Hin. apply in_map_iff in Hin.
  destruct Hin as (e & <- & He). apply filter_In in He. apply Hall. apply He.
Qed.

Lemma passing_loop_total (qq : FilterQuery) (lo hi : Z) (es : list StationEvent)
    (svc : Service) (us : list string) :
  inTimePeriod qq = Some (lo, hi) ->
  (forall e, In e es -> atTime e <> None) ->
  exists svc', passing_loop qq (stnMapTimes_of es) us svc = Ok svc'.
Proof.
  intros Hp Hall. induction us as [ | u rest IH].
  - exists svc. reflexivity.
  - cbn [passing_loop]. rewrite stnMapTimes_get.
    destruct (times_at u es) as [ | t0 ts] eqn:Et; cbn [nonempty_or_none].
    + eexists. reflexivity.
    + rewrite py_last_rev.
      destruct (rev (t0 :: ts)) as [ | t r] eqn:Er.
      { apply (f_equal (@List.length _)) in Er. rewrite length_rev in Er. discriminate. }
      cbn [bind]. rewrite Hp. cbn [outside_window].
      assert (Ht : t <> None).
      { apply (times_at_not_None u es); [exact Hall | ].
        rewrite Et. apply in_rev. rewrite Er. now left. }
      destruct t as [q | ]; [ | congruence]. cbn [bind].
      destruct (negb (in_window lo hi q)); [eexists; reflexivity | exact IH].
Qed.

Lemma checkPassingThroughConstraint_ok (qq : FilterQuery) (lo hi : Z) (svc svc' : Service) :
  inTimePeriod qq = Some (lo, hi) ->
  checkPassingThroughConstraint qq svc = Ok svc' ->
  (Forall (station_passes lo hi (events svc)) (passingThrough qq) /\ svc' = svc) \/
  (Exists (fun st => ~ station_passes lo hi (events svc) st) (passingThrough qq) /\
   svc' = set_svc_render svc false).
Proof.
  intros Hp H. unfold checkPassingThroughConstraint in H.
  assert (Hloop : passing_loop qq (stnMapTimes_of (events svc))
                    (map upper (passingThrough qq)) svc = Ok svc').
  { destruct (map upper (passingThrough qq)); [exact H | exact H]. }
  destruct (passing_loop_ok qq lo hi _ svc _ Hp _ Hloop) as [[Hall ->] | [Hex ->]].
  - left. split; [ | reflexivity]. exact (proj1 (Forall_map upper _ _) Hall).
  - right. split; [ | reflexivity]. exact (proj1 (Exists_map upper _ _) Hex).
Qed.

Lemma checkPassingThroughConstraint_total (qq : FilterQuery) (lo hi : Z) (svc : Service) :
  inTimePeriod qq = Some (lo, hi) ->
  (forall e, In e (events svc) -> atTime e <> None) ->
  exists svc', checkPassingThroughConstraint qq svc = Ok svc'.
Proof.
  intros Hp Hall. unfold checkPassingThroughConstraint.
  destruct (passing_loop_total qq lo hi (events svc) svc
              (map upper (passingThrough qq)) Hp Hall) as (s & Hs).
  destruct (map upper (passingThrough qq)); [exists svc; reflexivity | exists s; exact Hs].
Qed.

Lemma times_at_reset (st : string) (es : list StationEvent) :
  times_at st (map (fun ev => set_ev_render ev true) es) = times_at st es.
Proof.
  unfold times_at. induction es as [ | e r IH]; [reflexivity | ].
  cbn [map filter set_ev_render atStation].
  destruct (String.eqb (atStation e) st); cbn [map]; rewrite IH; reflexivity.
Qed.

Lemma checkDirectionConstraint_events (qq : FilterQuery) (svc : Service) :
  events (checkDirectionConstraint qq svc) = events svc.
Proof.
  unfold checkDirectionConstraint.
  destruct (inDirection qq) as [[ | d ds] | ]; try reflexivity.
  destruct (existsb _ (d :: ds)); reflexivity.
Qed.

Lemma checkStartStationConstraint_events (qq : FilterQuery) (svc svc' : Service) :
  checkStartStationConstraint qq svc = Ok svc' -> events svc' = events svc.
Proof.
  unfold checkStartStationConstraint.
  destruct (startStation qq) as [[ | c r] | ]; try (intros H; injection H as <-; reflexivity).
  destruct (py_first (events svc)) as [e0 | ]; [ | discriminate]. cbn [bind].
  destruct (inTimePeriod qq) as [p | ]; [ | discriminate].
  destruct (String.eqb (atStation e0) (String c r)).
  - destruct (outside_window (Some p) (atTime e0)) as [[ | ] | ]; cbn [bind];
      try discriminate; intros H; injection H as <-; reflexivity.
  - intros H; injection H as <-; reflexivity.
Qed.

Lemma checkEndStationConstraint_events (qq : FilterQuery) (svc svc' : Service) :
  checkEndStationConstraint qq svc = Ok svc' -> events svc' = events svc.
Proof.
  unfold checkEndStationConstraint.
  destruct (endStation qq) as [[ | c r] | ]; try (intros H; injection H as <-; reflexivity).
  destruct (py_last (events svc)) as [e0 | ]; [ | discriminate]. cbn [bind].
  destruct (inTimePeriod qq) as [p | ]; [ | discriminate].
  destruct (String.eqb (atStation e0) (String c r)).
  - destruct (outside_window (Some p) (atTime e0)) as [[ | ] | ]; cbn [bind];
      try discriminate; intros H; injection H as <-; reflexivity.
  - intros H; injection H as <-; reflexivity.
Qed.

Lemma passes_at_ext (lo hi : Z) (es es' : list StationEvent) :
  (forall st, times_at st es' = times_at st es) ->
  forall u, passes_at lo hi es' u <-> passes_at lo hi es u.
Proof.
  intros H u. unfold passes_at, last_time_at. rewrite H. reflexivity.
Qed.

(** A service that the SERVICE-mode pass leaves visible passes at every
    queried station. *)
Lemma service_filter_svc_visible (qq : FilterQuery) (lo hi : Z) (svc svc' : Service) :
  inTimePeriod qq = Some (lo, hi) ->
  service_filter_svc qq svc = Ok svc' ->
  svc_render svc' = true ->
  Forall (station_passes lo hi (events svc)) (passingThrough qq).
Proof.
  intros Hp H Hr. unfold service_filter_svc in H. cbn [set_svc_render events] in H.
  destruct (events svc) as [ | e0 es0] eqn:Ees.
  { injection H as <-. discriminate Hr. }
  rewrite <- Ees in *.
  match type of H with
  | bind (checkStartStationConstraint qq ?s) _ = _ => set (s2 := s) in H
  end.
  assert (E2 : events s2 = map (fun ev => set_ev_render ev true) (events svc)).
  { unfold s2. rewrite checkACConstraint_events, checkDirectionConstraint_events.
    cbn [set_events events]. rewrite Ees. reflexivity. }
  destruct (checkStartStationConstraint qq s2) as [s3 | ] eqn:E3; [ | discriminate].
  cbn [bind] in H.
  destruct (checkEndStationConstraint qq s3) as [s4 | ] eqn:E4; [ | discriminate].
  cbn [bind] in H.
  apply checkStartStationConstraint_events in E3.
  apply checkEndStationConstraint_events in E4.
  assert (Ht : forall st, times_at st (events s4) = times_at st (events svc)).
  { intros st. rewrite E4, E3, E2. apply times_at_reset. }
  destruct (checkPassingThroughConstraint_ok qq lo hi s4 svc' Hp H) as [[Hall _] | [_ ->]].
  - eapply Forall_impl; [ | exact Hall]. intros st Hst.
    unfold station_passes in *. apply (passes_at_ext lo hi _ _ Ht). exact Hst.
  - discriminate Hr.
Qed.

Lemma passing_loop_step (qq : FilterQuery) (lo hi : Z) (es : list StationEvent)
    (svc : Service) (u : string) (rest : list string) :
  inTimePeriod qq = Some (lo, hi) ->
  passing_loop qq (stnMapTimes_of es) (u :: rest) svc =
  match last_time_at u es with
  | None => Ok (set_svc_render svc false)
  | Some None => Raise TypeError
  | Some (Some q) =>
      if in_window lo hi q then passing_loop qq (stnMapTimes_of es) rest svc
      else Ok (set_svc_render svc false)
  end.
Proof.
  intros Hp. cbn [passing_loop]. rewrite stnMapTimes_get. unfold last_time_at.
  destruct (times_at u es) as [ | t0 ts] eqn:Et; cbn [nonempty_or_none]; [reflexivity | ].
  rewrite py_last_rev.
  destruct (rev (t0 :: ts)) as [ | t r] eqn:Er.
  { apply (f_equal (@List.length _)) in Er. rewrite length_rev in Er. discriminate. }
  cbn [bind]. rewrite Hp. cbn [outside_window].
  destruct t as [q | ]; [ | reflexivity]. cbn [bind].
  destruct (in_window lo hi q); reflexivity.
Qed.

Lemma passing_loop_pass (qq : FilterQuery) (lo hi : Z) (es : list StationEvent)
    (svc : Service) (pre rest : list string) :
  inTimePeriod qq = Some (lo, hi) ->
  Forall (passes_at lo hi es) pre ->
  passing_loop qq (stnMapTimes_of es) (pre ++ rest) svc =
  passing_loop qq (stnMapTimes_of es) rest svc.
Proof.
  intros Hp Hall. induction Hall as [ | u pre (q & Hq & Hin) _ IH]; [reflexivity | ].
  rewrite <- app_comm_cons, (passing_loop_step qq lo hi es svc u _ Hp), Hq.
  apply in_window_inside in Hin. rewrite Hin. exact IH.
Qed.

Lemma passing_loop_first_failing (qq : FilterQuery) (lo hi : Z) (es : list StationEvent)
    (svc : Service) (pre post : list string) (u : string) :
  inTimePeriod qq = Some (lo, hi) ->
  Forall (passes_at lo hi es) pre ->
  ~ passes_at lo hi es u ->
  passing_loop qq (stnMapTimes_of es) (pre ++ u :: post) svc =
  match last_time_at u es with
  | Some None => Raise TypeError
  | _ => Ok (set_svc_render svc false)
  end.
Proof.
  intros Hp Hall Hu. rewrite (passing_loop_pass qq lo hi es svc pre _ Hp Hall).
  rewrite (passing_loop_step qq lo hi es svc u post Hp).
  destruct (last_time_at u es) as [[q | ] | ] eqn:El; try reflexivity.
  destruct (in_window lo hi q) eqn:Ew; [ | reflexivity].
  exfalso. apply Hu. exists q. split; [exact El | ]. apply in_window_inside. exact Ew.
Qed.

Lemma checkPassingThroughConstraint_pass (qq : FilterQuery) (lo hi : Z) (svc : Service) :
  inTimePeriod qq = Some (lo, hi) ->
  Forall (station_passes lo hi (events svc)) (passingThrough qq) ->
  checkPassingThroughConstraint qq svc = Ok svc.
Proof.
  intros Hp Hall. unfold checkPassingThroughConstraint.
  assert (H : passing_loop qq (stnMapTimes_of (events svc))
                (map upper (passingThrough qq)) svc = Ok svc).
  { rewrite <- (app_nil_r (map upper (passingThrough qq))).
    rewrite (passing_loop_pass qq lo hi _ svc _ [] Hp); [reflexivity | ].
    apply Forall_map. exact Hall. }
  destruct (map upper (passingThrough qq)); [reflexivity | exact H].
Qed.

Lemma checkPassingThroughConstraint_first_failing (qq : FilterQuery) (lo hi : Z)
    (svc : Service) (pre post : list string) (st : string) :
  inTimePeriod qq = Some (lo, hi) ->
  passingThrough qq = pre ++ st :: post ->
  Forall (station_passes lo hi (events svc)) pre ->
  ~ station_passes lo hi (events svc) st ->
  checkPassingThroughConstraint qq svc =
  match last_time_at (upper st) (events svc) with
  | Some None => Raise TypeError
  | _ => Ok (set_svc_render svc false)
  end.
Proof.
  intros Hp Hq Hall Hst. unfold checkPassingThroughConstraint.
  rewrite Hq, map_app. cbn [map].
  rewrite (passing_loop_first_failing qq lo hi _ svc (map upper pre) (map upper post)
             (upper st) Hp); [ | apply Forall_map; exact Hall | exact Hst].
  destruct (map upper pre ++ upper st :: map upper post) eqn:E; [ | reflexivity].
  destruct (map upper pre); discriminate E.
Qed.

(** C7 (as the code has it). With a window set, a queried station passes
    for a service when the service has an event at its upper-cased name
    and the time of the last such event lies in the closed window.  The
    passing-through check returns the service unchanged when every
    queried station passes; it returns the service made invisible when
    the first queried station that does not pass has no event of the
    service, or a last event whose time is not [None]; and whenever it
    returns it has done one of the two.  Consequently a service left
    visible by a SERVICE-mode pass passes at every queried station, and
    a queried station none of whose events lies in the window makes the
    service invisible. *)
Theorem service_passing_through_last_event (qq : FilterQuery) (svc : Service) (lo hi : Z) :
  inTimePeriod qq = Some (lo, hi) ->
  (Forall (station_passes lo hi (events svc)) (passingThrough qq) ->
   checkPassingThroughConstraint qq svc = Ok svc)
  /\ (forall pre st post,
        passingThrough qq = pre ++ st :: post ->
        Forall (station_passes lo hi (events svc)) pre ->
        ~ station_passes lo hi (events svc) st ->
        last_time_at (upper st) (events svc) <> Some None ->
        checkPassingThroughConstraint qq svc = Ok (set_svc_render svc false))
  /\ (forall svc',
        checkPassingThroughConstraint qq svc = Ok svc' ->
        (Forall (station_passes lo hi (events svc)) (passingThrough qq) /\ svc' = svc) \/
        (Exists (fun st => ~ station_passes lo hi (events svc) st) (passingThrough qq) /\
         svc' = set_svc_render svc false))
  /\ (forall svc',
        service_filter_svc qq svc = Ok svc' ->
        (svc_render svc' = true ->
         Forall (station_passes lo hi (events svc)) (passingThrough qq)) /\
        (forall st,
            In st (passingThrough qq) ->
            (forall e t, In e (events svc) -> atStation e = upper st ->
                         atTime e = Some t -> ~ inside lo hi t) ->
            svc_render svc' = false)).
Proof.
  intros Hp. split; [ | split; [ | split]].
  - exact (checkPassingThroughConstraint_pass qq lo hi svc Hp).
  - intros pre st post Hq Hpre Hst Hlast.
    rewrite (checkPassingThroughConstraint_first_failing qq lo hi svc pre post st
               Hp Hq Hpre Hst).
    destruct (last_time_at (upper st) (events svc)) as [[q | ] | ];
      [reflexivity | congruence | reflexivity].
  - intros svc' H. exact (checkPassingThroughConstraint_ok qq lo hi svc svc' Hp H).
  - intros svc' H. split; [exact (service_filter_svc_visible qq lo hi svc svc' Hp H) | ].
    intros st Hst Hnone. destruct (svc_render svc') eqn:Er; [ | reflexivity].
    exfalso.
    pose proof (service_filter_svc_visible qq lo hi svc svc' Hp H Er) as Hf.
    rewrite Forall_forall in Hf. destruct (Hf st Hst) as (t & Hlast & Hin).
    unfold last_time_at in Hlast.
    destruct (rev (times_at (upper st) (events svc))) as [ | t0 r] eqn:Erev; [discriminate | ].
    injection Hlast as ->.
    assert (Hmem : In (Some t) (times_at (upper st) (events svc))).
    { apply in_rev. rewrite Erev. now left. }
    unfold times_at in Hmem. apply in_map_iff in Hmem. destruct Hmem as (e & He & Hfe).
    apply filter_In in Hfe. destruct Hfe as [Hine Hst'].
    apply String.eqb_eq in Hst'. exact (Hnone e t Hine Hst' He Hin).
Qed.

(** Trip 93003 has an event without a time at BORIVALI, which the query
    does not name; its last event at DADAR is at 09:12 (552 minutes).
    With the window [[540, 560]] it stays as it is, with [[500, 551]] it
    is made invisible. *)
Lemma service_passing_through_last_event_witness :
  inTimePeriod (mkQuery (Some SERVICE) None None ["Virar"; "Dadar"] (Some (500, 551)) None None)
    = Some (500, 551) /\
  (exists e, In e (events svc_93003) /\ atTime e = None) /\
  checkPassingThroughConstraint
    (mkQuery (Some SERVICE) None None ["Dadar"] (Some (540, 560)) None None)
    svc_93003 = Ok svc_93003 /\
  checkPassingThroughConstraint
    (mkQuery (Some SERVICE) None None ["Virar"; "Dadar"] (Some (500, 551)) None None)
    svc_93003 = Ok (set_svc_render svc_93003 false).
Proof.
  split; [reflexivity | ]. split.
  { exists (newStationEvent "BORIVALI" "1/1/1900 08:40:00").
    split; [cbn; tauto | vm_compute; reflexivity]. }
  assert (Hin : forall lo hi q, in_window lo hi q = true -> inside lo hi q).
  { intros lo hi q. apply in_window_inside. }
  split.
  - apply (service_passing_through_last_event
             (mkQuery (Some SERVICE) None None ["Dadar"] (Some (540, 560)) None None)
             svc_93003 540 560 eq_refl).
    constructor; [ | constructor].
    eexists. split; [vm_compute; reflexivity | ]. apply Hin. vm_compute. reflexivity.
  - destruct (service_passing_through_last_event
                (mkQuery (Some SERVICE) None None ["Virar"; "Dadar"] (Some (500, 551)) None None)
                svc_93003 500 551 eq_refl) as (_ & Hfail & _).
    apply (Hfail ["Virar"] "Dadar" []).
    + reflexivity.
    + constructor; [ | constructor].
      eexists. split; [vm_compute; reflexivity | ]. apply Hin. vm_compute. reflexivity.
    + intros (t & Ht & Hw). vm_compute in Ht. injection Ht as <-.
      apply in_window_inside in Hw. vm_compute in Hw. discriminate.
    + vm_compute. discriminate.
Defined.

(** C7, as stated, fails: with the window [[540, 551]] trip 93001 has an
    event at DADAR inside the window (09:10, 550 minutes), yet the check
    reads its last event there (09:12) and makes the service invisible. *)
Lemma service_passing_through_not_any_event :
  (exists e t, In e (events svc_93001) /\ atStation e = upper "Dadar" /\
               atTime e = Some t /\ inside 540 551 t) /\
  checkPassingThroughConstraint
    (mkQuery (Some SERVICE) None None ["Dadar"] (Some (540, 551)) None None)
    svc_93001 = Ok (set_svc_render svc_93001 false) /\
  service_filter_svc
    (mkQuery (Some SERVICE) None None ["Dadar"] (Some (540, 551)) None None)
    svc_93001 = Ok (set_svc_render svc_93001 false).
Proof.
  split; [ | split; vm_compute; reflexivity].
  exists (newStationEvent "DADAR" "09:10"). eexists.
  split; [cbn; tauto | ]. split; [reflexivity | ].
  split; [vm_compute; reflexivity | ].
  unfold inside, Qle. vm_compute. split; discriminate.
Qed.

(** ** Resolution of the stubs *)

Lemma forM_mapM_acc {A B : Type} (f : A -> Py B) (xs : list A) :
  forall acc : list B,
    forM (fun acc x => y <- f x ;; Ok (acc ++ [y])) xs acc =
    (ys <- mapM f xs ;; Ok (acc ++ ys)).
Proof.
  unfold mapM. induction xs as [ | x r IH]; intros acc.
  - cbn. rewrite app_nil_r. reflexivity.
  - cbn [forM]. destruct (f x) as [y | e]; cbn [bind]; [ | reflexivity].
    rewrite (IH (acc ++ [y])), (IH ([] ++ [y])).
    destruct (forM _ r []) as [ys | e]; cbn [bind]; [ | reflexivity].
    rewrite <- app_assoc. reflexivity.
Qed.

Lemma mapM_cons {A B : Type} (f : A -> Py B) (x : A) (xs : list A) :
  mapM f (x :: xs) = (y <- f x ;; ys <- mapM f xs ;; Ok (y :: ys)).
Proof.
  unfold mapM at 1. cbn [forM]. destruct (f x) as [y | e]; cbn [bind]; [ | reflexivity].
  rewrite forM_mapM_acc. reflexivity.
Qed.

Lemma mapM_app {A B : Type} (f : A -> Py B) (xs ys : list A) :
  mapM f (xs ++ ys) = (a <- mapM f xs ;; b <- mapM f ys ;; Ok (a ++ b)).
Proof.
  induction xs as [ | x r IH].
  - cbn [app]. change (mapM f []) with (@Ok (list B) []). cbn [bind].
    destruct (mapM f ys); reflexivity.
  - cbn [app]. rewrite !mapM_cons. destruct (f x) as [y | e]; cbn [bind]; [ | reflexivity].
    rewrite IH. destruct (mapM f r) as [a | e]; cbn [bind]; [ | reflexivity].
    destruct (mapM f ys) as [b | e]; reflexivity.
Qed.

Lemma match_steps_unmatched (rc : RakeCycle) (sid : SId) (ids : list SId)
    (chains : list (list Service)) :
  serviceIds rc = sid :: ids ->
  starts_no_chain sid chains ->
  forM match_step chains rc = Ok rc.
Proof.
  intros Hids Hno. induction Hno as [ | path chains' Hp Hrest IH]; [reflexivity | ].
  destruct Hp as (p0 & rest & pid & pids & -> & Hpid & Hne).
  cbn [forM]. unfold match_step at 1. rewrite Hids. cbn [py_first bind].
  rewrite Hpid. cbn [py_first bind].
  destruct (String.eqb_spec (str_of_sid sid) (str_of_sid pid)) as [E | _]; [contradiction | ].
  cbn [bind]. exact IH.
Qed.

Lemma repair_log_ok (rc : RakeCycle) (sid : SId) (ids : list SId)
    (chains : list (list Service)) :
  serviceIds rc = sid :: ids ->
  starts_no_chain sid chains ->
  chains <> [] ->
  repair_log chains rc = Ok tt.
Proof.
  intros Hids Hno Hne. unfold repair_log. rewrite Hids. cbn [py_first bind].
  destruct (rev chains) as [ | path r] eqn:Er.
  { apply (f_equal (@List.length _)) in Er. rewrite length_rev in Er.
    destruct chains; [congruence | discriminate]. }
  assert (Hin : In path chains). { apply in_rev. rewrite Er. now left. }
  unfold starts_no_chain in Hno. rewrite Forall_forall in Hno.
  destruct (Hno path Hin) as (p0 & rest & pid & pids & -> & Hpid & _).
  cbn [py_first bind]. rewrite Hpid. reflexivity.
Qed.

Lemma resolve_one_unmatched (suburban : list Service) (chains : list (list Service))
    (rc : RakeCycle) (sid : SId) (ids : list SId) :
  serviceIds rc = sid :: ids ->
  path_truthy (servicePath rc) = false ->
  chains <> [] ->
  starts_no_chain sid chains ->
  resolve_one suburban chains rc =
  (r <- fixPath suburban rc ;;
   Ok (set_servicePath (fst r) (snd r),
       match status (fst r) with INVALID => true | VALID => false end)).
Proof.
  intros Hids Hfalsy Hne Hno. unfold resolve_one.
  rewrite (match_steps_unmatched rc sid ids chains Hids Hno). cbn [bind].
  rewrite Hfalsy, (repair_log_ok rc sid ids chains Hids Hno Hne). cbn [bind].
  destruct (fixPath suburban rc) as [[rc2 fixedPath] | e]; reflexivity.
Qed.

Lemma lookup_path (all : dict (K:=string) (V:=Service)) (ids : list SId) :
  forall (path acc : list Service),
    Forall2 (fun id svc => dict_get String.eqb all (str_of_sid id) = Some svc) ids path ->
    forM (fun path id =>
            match dict_get String.eqb all (str_of_sid id) with
            | None => Raise ValueError
            | Some svc => Ok (path ++ [svc])
            end) ids acc = Ok (acc ++ path).
Proof.
  induction ids as [ | id r IH]; intros path acc H; inversion H; subst.
  - cbn. rewrite app_nil_r. reflexivity.
  - cbn [forM]. match goal with Hg : dict_get _ _ _ = Some _ |- _ => rewrite Hg end.
    cbn [bind]. rewrite (IH _ _ ltac:(eassumption)). rewrite <- app_assoc. reflexivity.
Qed.

Lemma resolveRakeCycles_drop (suburban : list Service) (chains : list (list Service))
    (rc rc' : RakeCycle) (pre post : list RakeCycle) :
  resolve_one suburban chains rc = Ok (rc', true) ->
  resolveRakeCycles suburban chains (pre ++ rc :: post) =
  resolveRakeCycles suburban chains (pre ++ post).
Proof.
  intros H. unfold resolveRakeCycles.
  destruct (mapM _ chains) as [ids | e]; cbn [bind]; [ | reflexivity].
  rewrite !mapM_app, mapM_cons, H. cbn [bind].
  destruct (mapM (resolve_one suburban chains) pre) as [a | e]; cbn [bind]; [ | reflexivity].
  destruct (mapM (resolve_one suburban chains) post) as [b | e]; cbn [bind]; [ | reflexivity].
  rewrite !filter_app. cbn [filter snd negb]. reflexivity.
Qed.

Lemma lookup_path_missing (all : dict (K:=string) (V:=Service)) (ids : list SId) :
  Exists (fun id => dict_get String.eqb all (str_of_sid id) = None) ids ->
  forall acc : list Service,
    forM (fun path id =>
            match dict_get String.eqb all (str_of_sid id) with
            | None => Raise ValueError
            | Some svc => Ok (path ++ [svc])
            end) ids acc = Raise ValueError.
Proof.
  induction ids as [ | id r IH]; intros H acc; [inversion H | ].
  cbn [forM]. destruct (dict_get String.eqb all (str_of_sid id)) as [svc | ] eqn:E;
    cbn [bind]; [ | reflexivity].
  apply IH. inversion H as [x l Hx | x l Hr]; subst; [congruence | exact Hr].
Qed.

(** Every declared identifier is found, or one of them is not. *)
Lemma lookup_path_cases (all : dict (K:=string) (V:=Service)) (ids : list SId) :
  (exists path,
      Forall2 (fun id svc => dict_get String.eqb all (str_of_sid id) = Some svc) ids path) \/
  Exists (fun id => dict_get String.eqb all (str_of_sid id) = None) ids.
Proof.
  induction ids as [ | id r [(path & IH) | IH]].
  - left. exists []. constructor.
  - destruct (dict_get String.eqb all (str_of_sid id)) as [svc | ] eqn:E.
    + left. exists (svc :: path). constructor; assumption.
    + right. apply Exists_cons_hd. exact E.
  - right. apply Exists_cons_tl. exact IH.
Qed.

(** C2 (as the code has it). For a fresh stub whose first declared
    identifier starts none of the chains (there being at least one): with
    undefined identifiers the stub is marked INVALID and removed from the
    cycles; otherwise, when no suburban service has that identifier as
    its first one, [ValueError] is raised; and when one has and some
    service is linked to the identifier, the path is rebuilt from the
    declared sequence, each identifier looked up among the first
    identifiers of the suburban services, and [ValueError] is raised
    when one of the declared identifiers is the first identifier of no
    suburban service. *)
Theorem resolve_unmatched_stub (suburban : list Service) (chains : list (list Service))
    (rc : RakeCycle) (sid : SId) (ids : list SId) :
  serviceIds rc = sid :: ids ->
  status rc = VALID ->
  path_truthy (servicePath rc) = false ->
  chains <> [] ->
  starts_no_chain sid chains ->
  (undefinedIds rc <> [] ->
     resolve_one suburban chains rc =
       Ok (set_servicePath (set_status rc INVALID) (Some []), true) /\
     forall pre post,
       resolveRakeCycles suburban chains (pre ++ rc :: post) =
       resolveRakeCycles suburban chains (pre ++ post))
  /\ (undefinedIds rc = [] ->
      forall all, allServices_of suburban = Ok all ->
        (dict_get String.eqb all (str_of_sid sid) = None ->
           resolve_one suburban chains rc = Raise ValueError) /\
        (dict_mem String.eqb all (str_of_sid sid) = true ->
         is_linked_target sid (dict_values all) = true ->
         (forall path,
            Forall2 (fun id svc => dict_get String.eqb all (str_of_sid id) = Some svc)
              (serviceIds rc) path ->
            resolve_one suburban chains rc = Ok (set_servicePath rc (Some path), false)) /\
         (Exists (fun id => dict_get String.eqb all (str_of_sid id) = None) (serviceIds rc) ->
          resolve_one suburban chains rc = Raise ValueError))).
Proof.
  intros Hids Hst Hfalsy Hne Hno.
  pose proof (resolve_one_unmatched suburban chains rc sid ids Hids Hfalsy Hne Hno) as Hres.
  split.
  - intros Hund.
    assert (E : resolve_one suburban chains rc =
                Ok (set_servicePath (set_status rc INVALID) (Some []), true)).
    { rewrite Hres. unfold fixPath. rewrite Hids. cbn [py_first bind].
      destruct (undefinedIds rc); [congruence | reflexivity]. }
    split; [exact E | ]. intros pre post.
    exact (resolveRakeCycles_drop suburban chains rc _ pre post E).
  - intros Hund all Hall. split.
    + intros Hget. rewrite Hres. unfold fixPath. rewrite Hids. cbn [py_first bind].
      rewrite Hund, Hall. cbn [bind]. rewrite Hget. reflexivity.
    + intros Hmem Hlink.
      assert (Hfix : fixPath suburban rc =
                     (path <- forM (fun path id =>
                                      match dict_get String.eqb all (str_of_sid id) with
                                      | None => Raise ValueError
                                      | Some svc => Ok (path ++ [svc])
                                      end) (serviceIds rc) [] ;;
                      Ok (rc, Some path))).
      { unfold fixPath. rewrite Hids. cbn [py_first bind]. rewrite Hund, Hall. cbn [bind].
        unfold dict_mem in Hmem.
        destruct (dict_get String.eqb all (str_of_sid sid)) as [s | ]; [ | discriminate].
        unfold is_linked_target in Hlink. rewrite Hlink. reflexivity. }
      split.
      * intros path Hpath. rewrite Hres, Hfix.
        rewrite (lookup_path all (serviceIds rc) path [] Hpath).
        cbn [bind app fst snd]. rewrite Hst. reflexivity.
      * intros Hmiss. rewrite Hres, Hfix.
        rewrite (lookup_path_missing all (serviceIds rc) Hmiss []). reflexivity.
Qed.

Example chains_of_sample : makeRakeCyclePathsSV sample_services = Some [sample_chain].
Proof. vm_compute. reflexivity. Qed.

(** The stub [F], with an undefined identifier, is removed; the stub
    [H], whose first trip is the target of a link and starts no chain,
    gets the two declared trips as its path. *)
Lemma resolve_unmatched_stub_witness :
  (undefinedIds cycle_undefined <> [] /\
   resolveRakeCycles sample_services [sample_chain] ([cycle_A] ++ cycle_undefined :: []) =
   resolveRakeCycles sample_services [sample_chain] ([cycle_A] ++ [])) /\
  (makeRakeCyclePathsSV two_id_services = Some two_id_chains /\
   undefinedIds cycle_relinked = [] /\
   resolve_one two_id_services two_id_chains cycle_relinked =
   Ok (set_servicePath cycle_relinked (Some [svc_two_ids; svc_loop 93320 "93302"]), false)).
Proof.
  split.
  - split; [discriminate | ].
    assert (Hno : starts_no_chain (IdInt 93077) [sample_chain]).
    { constructor; [ | constructor].
      exists svc_93001, [svc_93002], (IdInt 93001), []. repeat split. discriminate. }
    destruct (resolve_unmatched_stub sample_services [sample_chain] cycle_undefined
                (IdInt 93077) [IdInt 93002] eq_refl eq_refl eq_refl
                ltac:(discriminate) Hno) as [Ha _].
    destruct (Ha ltac:(discriminate)) as [_ Hdrop].
    exact (Hdrop [cycle_A] []).
  - split; [vm_compute; reflexivity | ]. split; [reflexivity | ].
    assert (Hno : starts_no_chain (IdInt 93301) two_id_chains).
    { constructor; [ | constructor; [ | constructor]].
      - exists (svc_loop 93310 "93301"), [svc_two_ids], (IdInt 93310), [].
        repeat split. discriminate.
      - exists (svc_loop 93320 "93302"), [svc_two_ids], (IdInt 93320), [].
        repeat split. discriminate. }
    destruct (resolve_unmatched_stub two_id_services two_id_chains cycle_relinked
                (IdInt 93301) [IdInt 93320] eq_refl eq_refl eq_refl
                ltac:(discriminate) Hno) as [_ Hb].
    destruct (Hb eq_refl _ eq_refl) as [_ Hc].
    destruct (Hc eq_refl eq_refl) as [Hd _].
    apply Hd. repeat constructor.
Defined.

(** C2, as stated, fails in its second case: the stub [G] declares the
    second identifier of a trip with two, so no identifier is undefined;
    it starts none of the chains and trip 93320 is linked to it; yet the
    path is not rebuilt from the declared sequence: the identifier is
    the first one of no service and [ValueError] is raised, which ends
    the reconciliation of all the stubs. *)
Lemma fixPath_secondary_id_raises :
  makeRakeCyclePathsSV two_id_services = Some two_id_chains /\
  undefinedIds cycle_secondary = [] /\
  starts_no_chain (IdInt 93302) two_id_chains /\
  is_linked_target (IdInt 93302) two_id_services = true /\
  (exists all, allServices_of two_id_services = Ok all /\
               is_linked_target (IdInt 93302) (dict_values all) = true) /\
  fixPath two_id_services cycle_secondary = Raise ValueError /\
  resolve_one two_id_services two_id_chains cycle_secondary = Raise ValueError /\
  resolveRakeCycles two_id_services two_id_chains [cycle_secondary] = Raise ValueError.
Proof.
  split; [vm_compute; reflexivity | ]. split; [reflexivity | ]. split.
  { constructor; [ | constructor; [ | constructor]].
    - exists (svc_loop 93310 "93301"), [svc_two_ids], (IdInt 93310), [].
      repeat split. discriminate.
    - exists (svc_loop 93320 "93302"), [svc_two_ids], (IdInt 93320), [].
      repeat split. discriminate. }
  split; [vm_compute; reflexivity | ]. split.
  { eexists. split; [vm_compute; reflexivity | vm_compute; reflexivity]. }
  repeat split; vm_compute; reflexivity.
Qed.

(** Where the first declared identifier is a first identifier and no
    service is linked to it, [fixPath] raises nothing: the stub [E]
    declares the isolated trip 93050; [fixPath] falls off its end and the
    stub stays among the cycles with no path.  (The validation that
    follows then fails on the missing path with a [TypeError].) *)
Lemma fixPath_not_linked_no_error :
  undefinedIds cycle_isolated = [] /\
  starts_no_chain (IdInt 93050) [sample_chain] /\
  is_linked_target (IdInt 93050) sample_services = false /\
  fixPath sample_services cycle_isolated = Ok (cycle_isolated, None) /\
  resolveRakeCycles sample_services [sample_chain] [cycle_isolated] = Ok [cycle_isolated] /\
  validateRakeCycles [cycle_isolated] = Raise TypeError.
Proof.
  split; [reflexivity | ]. split.
  { constructor; [ | constructor].
    exists svc_93001, [svc_93002], (IdInt 93001), []. repeat split. discriminate. }
  repeat split; vm_compute; reflexivity.
Qed.

(** ** LinkResolver *)

Lemma sid_mem_In (x : SId) (xs : list SId) : sid_mem x xs = true <-> In x xs.
Proof.
  unfold sid_mem. rewrite existsb_exists. split.
  - intros (y & Hy & E). apply SId_eqb_eq in E. subst. exact Hy.
  - intros H. exists x. split; [exact H | apply SId_eqb_eq; reflexivity].
Qed.

Lemma sid_mem_false (x : SId) (xs : list SId) : sid_mem x xs = false <-> ~ In x xs.
Proof.
  rewrite <- sid_mem_In. destruct (sid_mem x xs); split; congruence.
Qed.

Lemma idMap_keys_NoDup (services : list Service) : NoDup (dict_keys (idMap_of services)).
Proof.
  unfold idMap_of.
  assert (H : forall (l : list Service) (m : dict (K:=SId) (V:=Service)),
             NoDup (dict_keys m) ->
             NoDup (dict_keys
                      (fold_left
                         (fun m s => fold_left (fun m' sid => dict_set SId_eqb m' sid s)
                                       (serviceId s) m) l m))).
  { induction l as [ | s r IH]; intros m Hm; [exact Hm | ].
    cbn [fold_left]. apply IH. generalize dependent m.
    induction (serviceId s) as [ | sid ids IHi]; intros m Hm; [exact Hm | ].
    cbn [fold_left]. apply IHi. apply (dict_keys_set_NoDup SId_eqb SId_eqb_eq). exact Hm. }
  apply H. constructor.
Qed.

(** Every value of [idMap] has a first identifier. *)
Lemma idMap_values_have_id (services : list Service) :
  Forall (fun sv => serviceId sv <> []) (dict_values (idMap_of services)).
Proof.
  unfold idMap_of.
  assert (Hset : forall (m : dict (K:=SId) (V:=Service)) k v,
             Forall (fun sv => serviceId sv <> []) (dict_values m) ->
             serviceId v <> [] ->
             Forall (fun sv => serviceId sv <> []) (dict_values (dict_set SId_eqb m k v))).
  { induction m as [ | [k0 v0] r IHm]; intros k v Hm Hv; cbn [dict_set].
    - constructor; [exact Hv | constructor].
    - unfold dict_values in *. cbn [map snd] in Hm. inversion Hm; subst.
      destruct (SId_eqb k k0); cbn [map snd]; constructor; try assumption.
      apply IHm; assumption. }
  assert (H : forall (l : list Service) (m : dict (K:=SId) (V:=Service)),
             Forall (fun sv => serviceId sv <> []) (dict_values m) ->
             Forall (fun sv => serviceId sv <> [])
               (dict_values
                  (fold_left
                     (fun m s => fold_left (fun m' sid => dict_set SId_eqb m' sid s)
                                   (serviceId s) m) l m))).
  { induction l as [ | s r IH]; intros m Hm; [exact Hm | ].
    cbn [fold_left]. apply IH.
    assert (Hs : forall ids (m' : dict (K:=SId) (V:=Service)),
               (ids <> [] -> serviceId s <> []) ->
               Forall (fun sv => serviceId sv <> []) (dict_values m') ->
               Forall (fun sv => serviceId sv <> [])
                 (dict_values (fold_left (fun m' sid => dict_set SId_eqb m' sid s) ids m'))).
    { induction ids as [ | sid ids IHi]; intros m' Hne Hm'; [exact Hm' | ].
      cbn [fold_left]. apply IHi; [intros _; apply Hne; discriminate | ].
      apply Hset; [exact Hm' | apply Hne; discriminate]. }
    apply Hs; [tauto | exact Hm]. }
  apply H. constructor.
Qed.

Lemma adj_get_set (adj : dict (K:=SId) (V:=AdjEntry)) (k k' : SId) (e : AdjEntry) :
  adj_get (dict_set SId_eqb adj k e) k' = if SId_eqb k' k then e else adj_get adj k'.
Proof.
  unfold adj_get. rewrite (dict_get_set SId_eqb SId_eqb_eq).
  destruct (SId_eqb k' k); reflexivity.
Qed.

Lemma link_step_linked_back (idMap : dict (K:=SId) (V:=Service))
    (adj : dict (K:=SId) (V:=AdjEntry)) (sv : Service) :
  linked_back adj -> linked_back (link_step idMap adj sv).
Proof.
  intros Hinv. unfold link_step.
  destruct (serviceId sv) as [ | sid ids]; [exact Hinv | ].
  destruct (linkedTo sv) as [[ | c r] | ]; try exact Hinv.
  destruct (dict_mem SId_eqb idMap (nextId_of (String c r))); [ | exact Hinv].
  set (nextId := nextId_of (String c r)).
  intros x y. rewrite !adj_get_set.
  destruct (SId_eqb y nextId) eqn:Ey; cbn [prev]; [discriminate | ].
  destruct (SId_eqb x nextId) eqn:Ex; cbn [next].
  - destruct (SId_eqb nextId sid) eqn:En; cbn [next].
    + intros H. injection H as <-. apply SId_eqb_eq in Ex. subst x.
      assert (Ht : SId_eqb nextId nextId = true) by (apply SId_eqb_eq; reflexivity).
      congruence.
    + intros H. destruct (SId_eqb y sid) eqn:Eys; cbn [prev];
        [apply SId_eqb_eq in Eys; subst y | ]; apply (Hinv nextId _); exact H.
  - destruct (SId_eqb x sid) eqn:Exs; cbn [next].
    + intros H. injection H as <-.
      assert (Ht : SId_eqb nextId nextId = true) by (apply SId_eqb_eq; reflexivity).
      congruence.
    + intros H. destruct (SId_eqb y sid) eqn:Eys; cbn [prev];
        [apply SId_eqb_eq in Eys; subst y | ]; apply (Hinv x _); exact H.
Qed.

Lemma build_adj_linked_back (idMap : dict (K:=SId) (V:=Service)) :
  linked_back (build_adj idMap).
Proof.
  unfold build_adj.
  assert (H : forall (l : list Service) (adj : dict (K:=SId) (V:=AdjEntry)),
             linked_back adj -> linked_back (fold_left (link_step idMap) l adj)).
  { induction l as [ | sv r IH]; intros adj Hadj; [exact Hadj | ].
    cbn [fold_left]. apply IH. apply link_step_linked_back. exact Hadj. }
  apply H. intros x y Hxy. cbn in Hxy. discriminate.
Qed.

Lemma unvisited_le (keys visited : list SId) (sid : SId) :
  (List.length (unvisited keys (sid :: visited)) <= List.length (unvisited keys visited))%nat.
Proof.
  unfold unvisited. induction keys as [ | k r IH]; [apply Nat.le_refl | ].
  cbn [filter]. change (sid_mem k (sid :: visited)) with (SId_eqb k sid || sid_mem k visited).
  destruct (SId_eqb k sid), (sid_mem k visited); cbn [orb negb List.length]; lia.
Qed.

Lemma unvisited_lt (keys visited : list SId) (sid : SId) :
  In sid keys -> ~ In sid visited ->
  (List.length (unvisited keys (sid :: visited)) < List.length (unvisited keys visited))%nat.
Proof.
  intros Hin Hnv. induction keys as [ | k r IH]; [contradiction | ].
  pose proof (unvisited_le r visited sid) as Hle.
  unfold unvisited in *. cbn [filter].
  change (sid_mem k (sid :: visited)) with (SId_eqb k sid || sid_mem k visited).
  destruct (SId_eqb k sid) eqn:Ek; cbn [orb negb].
  - apply SId_eqb_eq in Ek. subst k.
    apply sid_mem_false in Hnv. rewrite Hnv. cbn [negb List.length]. lia.
  - destruct Hin as [-> | Hin].
    { assert (Ht : SId_eqb sid sid = true) by (apply SId_eqb_eq; reflexivity). congruence. }
    specialize (IH Hin).
    destruct (sid_mem k visited); cbn [negb List.length]; lia.
Qed.

Lemma unvisited_length (keys visited : list SId) :
  (List.length (unvisited keys visited) <= List.length keys)%nat.
Proof. unfold unvisited. apply filter_length_le. Qed.

(** Enough fuel: the traversal returns. *)
Lemma followChain_total (idMap : dict (K:=SId) (V:=Service))
    (adj : dict (K:=SId) (V:=AdjEntry)) (fuel : nat) :
  forall (sid : SId) (visited : list SId) (chain : list Service),
    (List.length (unvisited (dict_keys idMap) visited) < fuel)%nat ->
    exists r, followChain fuel idMap adj sid (visited, chain) = Some r.
Proof.
  induction fuel as [ | f IH]; intros sid visited chain Hf; [lia | ].
  cbn [followChain].
  destruct (sid_mem sid visited) eqn:Ev; [eexists; reflexivity | ].
  destruct (dict_get SId_eqb idMap sid) as [sv | ] eqn:Eg; [ | eexists; reflexivity].
  destruct (next (adj_get adj sid)) as [nxt | ]; [ | eexists; reflexivity].
  destruct (sid_truthy nxt); [ | eexists; reflexivity].
  apply IH.
  assert (Hin : In sid (dict_keys idMap)).
  { apply (dict_mem_In SId_eqb SId_eqb_eq). unfold dict_mem. rewrite Eg. reflexivity. }
  apply sid_mem_false in Ev.
  pose proof (unvisited_lt (dict_keys idMap) visited sid Hin Ev). lia.
Qed.

(** More fuel does not change the result. *)
Lemma followChain_fuel_mono (idMap : dict (K:=SId) (V:=Service))
    (adj : dict (K:=SId) (V:=AdjEntry)) (fuel : nat) :
  forall (sid : SId) (st r : ChainState) (fuel' : nat),
    followChain fuel idMap adj sid st = Some r ->
    (fuel <= fuel')%nat ->
    followChain fuel' idMap adj sid st = Some r.
Proof.
  induction fuel as [ | f IH]; intros sid st r fuel' H Hle; [discriminate | ].
  destruct fuel' as [ | f']; [lia | ].
  cbn [followChain] in *. destruct st as [visited chain].
  destruct (sid_mem sid visited); [exact H | ].
  destruct (dict_get SId_eqb idMap sid) as [sv | ]; [ | exact H].
  destruct (next (adj_get adj sid)) as [nxt | ]; [ | exact H].
  destruct (sid_truthy nxt); [ | exact H].
  apply (IH _ _ _ f' H). lia.
Qed.

Lemma followChain_spec (idMap : dict (K:=SId) (V:=Service))
    (adj : dict (K:=SId) (V:=AdjEntry)) (fuel : nat) :
  linked_back adj ->
  forall (sid : SId) (visited visited' : list SId) (chain chain' : list Service),
    followChain fuel idMap adj sid (visited, chain) = Some (visited', chain') ->
    NoDup visited ->
    exists trace svcs,
      visited' = rev trace ++ visited /\
      chain' = chain ++ svcs /\
      services_at idMap trace svcs /\
      NoDup visited' /\
      (forall v, In v trace -> v = sid \/ prev (adj_get adj v) <> None) /\
      (sid_mem sid visited = false -> dict_mem SId_eqb idMap sid = true -> In sid trace).
Proof.
  intros Hlb. induction fuel as [ | f IH];
    intros sid visited visited' chain chain' H Hnd; [discriminate | ].
  cbn [followChain] in H.
  assert (Hstop : forall v c, Some (v, c) = Some (visited', chain') ->
             v = visited -> c = chain ->
             (sid_mem sid visited = false -> dict_mem SId_eqb idMap sid = true -> False) ->
             exists trace svcs,
               visited' = rev trace ++ visited /\ chain' = chain ++ svcs /\
               services_at idMap trace svcs /\ NoDup visited' /\
               (forall v, In v trace -> v = sid \/ prev (adj_get adj v) <> None) /\
               (sid_mem sid visited = false -> dict_mem SId_eqb idMap sid = true ->
                In sid trace)).
  { intros v c E -> -> Habs. injection E as <- <-. exists [], [].
    split; [reflexivity | ]. split; [now rewrite app_nil_r | ].
    split; [constructor | ]. split; [exact Hnd | ].
    split; [intros v [] | ].
    intros H1 H2. exfalso. exact (Habs H1 H2). }
  destruct (sid_mem sid visited) eqn:Ev.
  { apply (Hstop _ _ H); try reflexivity. intros; discriminate. }
  destruct (dict_get SId_eqb idMap sid) as [sv | ] eqn:Eg.
  2:{ apply (Hstop _ _ H); try reflexivity. unfold dict_mem. rewrite Eg. intros; discriminate. }
  assert (Hnd' : NoDup (sid :: visited)).
  { constructor; [apply sid_mem_false; exact Ev | exact Hnd]. }
  match goal with
  | |- ?G => assert (Hone : Some (sid :: visited, chain ++ [sv]) = Some (visited', chain') -> G)
  end.
  { intros E. injection E as <- <-. exists [sid], [sv].
    split; [reflexivity | ]. split; [reflexivity | ].
    split; [constructor; [exact Eg | constructor] | ]. split; [exact Hnd' | ].
    split; [intros v [<- | []]; now left | ].
    intros _ _. now left. }
  destruct (next (adj_get adj sid)) as [nxt | ] eqn:En; [ | exact (Hone H)].
  destruct (sid_truthy nxt); [ | exact (Hone H)].
  destruct (IH _ _ _ _ _ H Hnd') as (trace & svcs & Hv & Hc & Hs & Hn & Hp & _).
  exists (sid :: trace), (sv :: svcs).
  split; [rewrite Hv; cbn [rev]; rewrite <- app_assoc; reflexivity | ].
  split; [rewrite Hc, <- app_assoc; reflexivity | ].
  split; [constructor; assumption | ]. split; [exact Hn | ].
  split.
  - intros v [<- | Hin]; [now left | ].
    destruct (Hp v Hin) as [-> | Hprev]; [ | now right].
    right. exact (Hlb sid nxt En).
  - intros _ _. now left.
Qed.

Lemma is_start_prev (adj : dict (K:=SId) (V:=AdjEntry)) (k : SId) :
  prev (adj_get adj k) <> None -> is_start adj k = false.
Proof.
  unfold is_start. destruct (prev (adj_get adj k)); [reflexivity | congruence].
Qed.

Lemma loop_inv_skip (idMap : dict (K:=SId) (V:=Service))
    (adj : dict (K:=SId) (V:=AdjEntry)) (done : list SId) (k : SId)
    (st : list SId * list (list Service)) :
  is_start adj k = false ->
  loop_inv idMap adj done st -> loop_inv idMap adj (done ++ [k]) st.
Proof.
  intros Hk (traces & Hv & Hnd & Hs & Hlen & Hvis). exists traces.
  split; [exact Hv | ]. split; [exact Hnd | ]. split; [exact Hs | ]. split.
  - rewrite filter_app. cbn [filter]. rewrite Hk, app_nil_r. exact Hlen.
  - intros v Hin. destruct (Hvis v Hin) as [H | H]; [now left | right].
    apply in_or_app. now left.
Qed.

Lemma start_step_inv (idMap : dict (K:=SId) (V:=Service))
    (adj : dict (K:=SId) (V:=AdjEntry)) (fuel : nat)
    (done : list SId) (k : SId) (st : list SId * list (list Service)) :
  linked_back adj ->
  (List.length (dict_keys idMap) < fuel)%nat ->
  In k (dict_keys idMap) ->
  ~ In k done ->
  loop_inv idMap adj done st ->
  exists st', start_step fuel idMap adj (Some st) k = Some st' /\
              loop_inv idMap adj (done ++ [k]) st'.
Proof.
  intros Hlb Hfuel Hk Hnew Hinv. destruct st as [visited cycles].
  cbn [start_step].
  destruct (sid_mem k visited) eqn:Ev.
  { exists (visited, cycles). split; [reflexivity | ].
    apply loop_inv_skip; [ | exact Hinv].
    destruct Hinv as (_ & _ & _ & _ & _ & Hvis). apply sid_mem_In in Ev.
    destruct (Hvis k Ev) as [H | H]; [apply is_start_prev; exact H | contradiction]. }
  destruct (prev (adj_get adj k)) as [p | ] eqn:Ep.
  { exists (visited, cycles). split; [reflexivity | ].
    apply loop_inv_skip; [ | exact Hinv]. unfold is_start. rewrite Ep. reflexivity. }
  destruct (next (adj_get adj k)) as [n | ] eqn:En.
  2:{ exists (visited, cycles). split; [reflexivity | ].
      apply loop_inv_skip; [ | exact Hinv]. unfold is_start. rewrite Ep, En. reflexivity. }
  assert (Hstart : is_start adj k = true).
  { unfold is_start. rewrite Ep, En. reflexivity. }
  destruct (followChain_total idMap adj fuel k visited []) as ([v' chain] & Hf).
  { pose proof (unvisited_length (dict_keys idMap) visited). lia. }
  rewrite Hf.
  destruct Hinv as (traces & Hv & Hnd & Hs & Hlen & Hvis). cbn [fst snd] in *.
  destruct (followChain_spec idMap adj fuel Hlb k visited v' [] chain Hf Hnd)
    as (trace & svcs & Hv' & Hc & Hsv & Hnd' & Hp & Hin).
  cbn [app] in Hc. subst chain.
  assert (Hkin : In k trace).
  { apply Hin; [exact Ev | ]. apply (dict_mem_In SId_eqb SId_eqb_eq). exact Hk. }
  destruct svcs as [ | sv0 svcs'].
  { inversion Hsv; subst. contradiction. }
  exists (v', cycles ++ [sv0 :: svcs']). split; [reflexivity | ].
  exists (traces ++ [trace]). cbn [fst snd].
  split.
  { rewrite concat_app. cbn [List.concat]. rewrite app_nil_r, rev_app_distr, Hv', Hv. reflexivity. }
  split; [exact Hnd' | ].
  split; [apply Forall2_app; [exact Hs | constructor; [exact Hsv | constructor]] | ].
  split.
  { rewrite filter_app, !length_app. cbn [filter]. rewrite Hstart, Hlen. reflexivity. }
  intros v Hvin. rewrite Hv' in Hvin. apply in_app_or in Hvin. destruct Hvin as [Ht | Ho].
  - apply in_rev in Ht. destruct (Hp v Ht) as [-> | Hprev]; [ | now left].
    right. apply in_or_app. right. now left.
  - destruct (Hvis v Ho) as [H | H]; [now left | right]. apply in_or_app. now left.
Qed.

Lemma start_steps_inv (idMap : dict (K:=SId) (V:=Service))
    (adj : dict (K:=SId) (V:=AdjEntry)) (fuel : nat) (todo : list SId) :
  linked_back adj ->
  (List.length (dict_keys idMap) < fuel)%nat ->
  forall (done : list SId) (st : list SId * list (list Service)),
    dict_keys idMap = done ++ todo ->
    NoDup (dict_keys idMap) ->
    loop_inv idMap adj done st ->
    exists st', fold_left (start_step fuel idMap adj) todo (Some st) = Some st' /\
                loop_inv idMap adj (done ++ todo) st'.
Proof.
  intros Hlb Hfuel. induction todo as [ | k r IH]; intros done st Hkeys Hnd Hinv.
  - exists st. split; [reflexivity | ]. rewrite app_nil_r. exact Hinv.
  - cbn [fold_left].
    assert (Hk : In k (dict_keys idMap)).
    { rewrite Hkeys. apply in_or_app. right. now left. }
    assert (Hnew : ~ In k done).
    { rewrite Hkeys in Hnd. apply NoDup_remove_2 in Hnd. intros H. apply Hnd.
      apply in_or_app. now left. }
    destruct (start_step_inv idMap adj fuel done k st Hlb Hfuel Hk Hnew Hinv)
      as (st1 & E1 & Hinv1).
    rewrite E1.
    destruct (IH (done ++ [k]) st1) as (st' & E' & Hinv'); try assumption.
    { rewrite <- app_assoc. exact Hkeys. }
    exists st'. split; [exact E' | ]. rewrite <- app_assoc in Hinv'. exact Hinv'.
Qed.


Example chains_of_cyclic : makeRakeCyclePathsSV cyclic_services = Some [].
Proof. vm_compute. reflexivity. Qed.

Example chains_of_lasso :
  makeRakeCyclePathsSV lasso_services = Some [lasso_services].
Proof. vm_compute. reflexivity. Qed.

(** ** RAKELINK mode *)

(** The times [StationEvent] computes are never 0: they lie between 165
    and 1605. *)
Lemma newStationEvent_time_not_zero (st s : string) (t : Q) :
  atTime (newStationEvent st s) = Some t -> ~ (t == 0)%Q.
Proof.
  cbn [newStationEvent atTime]. intros H E.
  destruct (timeToMinutes_inv s t H) as (hms & Hr & ->).
  destruct (minutes_of_bounds hms Hr) as [H0 H1].
  destruct (wrap_bounds _ H0 H1) as [Hlo _].
  rewrite E in Hlo. revert Hlo. unfold Qle. cbn. lia.
Qed.


(** *** The passing-through filter on a list without repetition *)

Lemma str_mem_In (x : string) (xs : list string) : str_mem x xs = true <-> In x xs.
Proof.
  unfold str_mem. rewrite existsb_exists. split.
  - intros (y & Hy & E). apply String.eqb_eq in E. subst. exact Hy.
  - intros H. exists x. split; [exact H | apply String.eqb_refl].
Qed.

Lemma set_add_props (x : string) (seen : list string) :
  NoDup seen ->
  NoDup (set_add x seen) /\ (forall u, In u (set_add x seen) <-> In u seen \/ u = x).
Proof.
  intros Hnd. unfold set_add. destruct (str_mem x seen) eqn:E.
  - apply str_mem_In in E. split; [exact Hnd | ]. intros u. split; [now left | ].
    intros [H | ->]; assumption.
  - assert (Hn : ~ In x seen).
    { intros H. apply str_mem_In in H. congruence. }
    split.
    + apply NoDup_app; [exact Hnd | repeat constructor; intros [] | ].
      intros u Hu [<- | []]. contradiction.
    + intros u. rewrite in_app_iff. cbn [In]. split.
      * intros [H | [<- | []]]; [now left | now right].
      * intros [H | ->]; [now left | right; now left].
Qed.

Lemma seen_loop_props (selected : list string) (el : list StationEvent) :
  forall seen : list string,
    NoDup seen -> incl seen selected ->
    let r := seen_loop selected el seen in
    NoDup r /\ incl r selected /\
    (forall u, In u r -> In u seen \/ exists e, In e el /\ counts_for u e) /\
    (List.length r = List.length selected \/
     forall u, In u selected -> (In u seen \/ exists e, In e el /\ counts_for u e) -> In u r).
Proof.
  induction el as [ | e rest IH]; intros seen Hnd Hincl; cbn zeta.
  - cbn [seen_loop]. split; [exact Hnd | ]. split; [exact Hincl | ].
    split; [intros u H; now left | ]. right. intros u _ [H | (e & [] & _)]. exact H.
  - cbn [seen_loop]. destruct (atStation e) as [ | c s] eqn:Est.
    + destruct (IH seen Hnd Hincl) as (H1 & H2 & H3 & H4).
      split; [exact H1 | ]. split; [exact H2 | ]. split.
      * intros u Hu. destruct (H3 u Hu) as [H | (e' & He' & Hc)]; [now left | right].
        exists e'. split; [now right | exact Hc].
      * destruct H4 as [H4 | H4]; [now left | right]. intros u Hsel [H | (e' & He' & Hc)].
        -- apply H4; [exact Hsel | now left].
        -- destruct He' as [<- | He'].
           ++ destruct Hc as [Hne _]. congruence.
           ++ apply H4; [exact Hsel | right]. exists e'. split; assumption.
    + set (stName := upper (strip (String c s))).
      set (seen' := if str_mem stName selected then set_add stName seen else seen).
      assert (Hseen' : NoDup seen' /\ incl seen' selected /\
                       (forall u, In u seen' <->
                                  In u seen \/ (u = stName /\ In stName selected))).
      { unfold seen'. destruct (str_mem stName selected) eqn:Em.
        - apply str_mem_In in Em. destruct (set_add_props stName seen Hnd) as [Ha Hb].
          split; [exact Ha | ]. split.
          + intros u Hu. apply Hb in Hu. destruct Hu as [Hu | ->]; [apply Hincl; exact Hu | exact Em].
          + intros u. rewrite Hb. split.
            * intros [H | ->]; [now left | right; split; [reflexivity | exact Em]].
            * intros [H | [-> _]]; [now left | now right].
        - split; [exact Hnd | ]. split; [exact Hincl | ]. intros u. split; [now left | ].
          intros [H | [_ H]]; [exact H | ]. apply str_mem_In in H. congruence. }
      destruct Hseen' as (Hnd' & Hincl' & Hiff).
      assert (Hcount : counts_for stName e).
      { unfold counts_for. rewrite Est. split; [discriminate | reflexivity]. }
      destruct (Nat.eqb_spec (List.length seen') (List.length selected)) as [Elen | Nlen].
      * split; [exact Hnd' | ]. split; [exact Hincl' | ]. split; [ | now left].
        intros u Hu. apply Hiff in Hu. destruct Hu as [H | [-> _]]; [now left | right].
        exists e. split; [now left | exact Hcount].
      * destruct (IH seen' Hnd' Hincl') as (H1 & H2 & H3 & H4).
        split; [exact H1 | ]. split; [exact H2 | ]. split.
        -- intros u Hu. destruct (H3 u Hu) as [H | (e' & He' & Hc)].
           ++ apply Hiff in H. destruct H as [H | [-> _]]; [now left | right].
              exists e. split; [now left | exact Hcount].
           ++ right. exists e'. split; [now right | exact Hc].
        -- destruct H4 as [H4 | H4]; [now left | right].
           intros u Hsel [H | (e' & He' & Hc)].
           ++ apply H4; [exact Hsel | left]. apply Hiff. now left.
           ++ destruct He' as [<- | He'].
              ** apply H4; [exact Hsel | left]. apply Hiff. right.
                 destruct Hc as [_ Hc]. rewrite Est in Hc. fold stName in Hc. subst u.
                 split; [reflexivity | exact Hsel].
              ** apply H4; [exact Hsel | right]. exists e'. split; assumption.
Qed.

(** On a selection without repetition, the loop ends short of the
    selection exactly when some selected name has no event counting for
    it. *)
Lemma seen_loop_complete (selected : list string) (el : list StationEvent) :
  NoDup selected ->
  ((List.length (seen_loop selected el []) <? List.length selected)%nat = false <->
   forall u, In u selected -> exists e, In e el /\ counts_for u e).
Proof.
  intros Hsel.
  destruct (seen_loop_props selected el [] (NoDup_nil _) (incl_nil_l _))
    as (Hnd & Hincl & Hfrom & Hall).
  cbn zeta in *. rewrite Nat.ltb_ge. split.
  - intros Hlen u Hu.
    assert (Hin : In u (seen_loop selected el [])).
    { apply (NoDup_length_incl Hnd Hlen Hincl). exact Hu. }
    destruct (Hfrom u Hin) as [[] | H]. exact H.
  - intros Hcov. destruct Hall as [-> | Hall]; [apply Nat.le_refl | ].
    apply NoDup_incl_length; [exact Hsel | ].
    intros u Hu. apply Hall; [exact Hu | right; exact (Hcov u Hu)].
Qed.

Lemma mapM_nth {A B : Type} (f : A -> Py B) (xs : list A) :
  forall ys : list B,
    mapM f xs = Ok ys ->
    List.length ys = List.length xs /\
    forall (i : nat) (x : A) (y : B),
      nth_error xs i = Some x -> nth_error ys i = Some y -> f x = Ok y.
Proof.
  induction xs as [ | x0 r IH]; intros ys H.
  - injection H as <-. split; [reflexivity | ]. intros [ | i] x y Hx; discriminate.
  - rewrite mapM_cons in H. destruct (f x0) as [y0 | e] eqn:E0; [ | discriminate].
    cbn [bind] in H. destruct (mapM f r) as [ys' | e]; [ | discriminate].
    cbn [bind] in H. injection H as <-. destruct (IH ys' eq_refl) as [Hlen Hnth].
    split; [cbn; now rewrite Hlen | ].
    intros [ | i] x y Hx Hy; cbn in Hx, Hy.
    + injection Hx as <-. injection Hy as <-. exact E0.
    + exact (Hnth i x y Hx Hy).
Qed.

Lemma terminal_rc_spec (start end_ : option string) (rc rc1 : RakeCycle) :
  terminal_rc start end_ rc = Ok rc1 ->
  servicePath rc1 = servicePath rc /\ rake rc1 = rake rc /\
  (rc_render rc1 = true <->
   exists sp s0 e0 sl el,
     servicePath rc = Some sp /\
     py_first sp = Ok s0 /\ py_first (events s0) = Ok e0 /\
     py_last sp = Ok sl /\ py_last (events sl) = Ok el /\
     differs_from start (atStation e0) = false /\
     differs_from end_ (atStation el) = false).
Proof.
  unfold terminal_rc. cbn [set_rc_render servicePath rc_render].
  destruct (servicePath rc) as [[ | p0 ps] | ] eqn:Esp; cbn [path_truthy].
  - intros H. injection H as <-. cbn [set_rc_render servicePath rake rc_render].
    split; [exact Esp | ]. split; [reflexivity | ]. split; [discriminate | ].
    intros (sp & s0 & e0 & sl & el & Hsp & H0 & _). injection Hsp as <-. discriminate.
  - cbn [py_first bind].
    destruct (py_first (events p0)) as [e0 | ] eqn:E0; cbn [bind]; [ | discriminate].
    destruct (py_last (p0 :: ps)) as [sl | ] eqn:El; cbn [bind]; [ | discriminate].
    destruct (py_last (events sl)) as [el | ] eqn:Eel; cbn [bind]; [ | discriminate].
    intros H. injection H as <-.
    destruct (differs_from start (atStation e0)) eqn:Ds;
      destruct (differs_from end_ (atStation el)) eqn:De;
      cbn [set_rc_render servicePath rake rc_render andb];
      (split; [exact Esp | ]); (split; [reflexivity | ]); split;
      try discriminate;
      try (intros (sp & s0' & e0' & sl' & el' & Hsp & H0 & H1 & H2 & H3 & H4 & H5);
           injection Hsp as <-; cbn [py_first] in H0; injection H0 as <-;
           rewrite E0 in H1; injection H1 as <-;
           rewrite El in H2; injection H2 as <-;
           rewrite Eel in H3; injection H3 as <-; congruence).
    intros _. exists (p0 :: ps), p0, e0, sl, el. repeat split; assumption.
  - intros H. injection H as <-. cbn [set_rc_render servicePath rake rc_render].
    split; [exact Esp | ]. split; [reflexivity | ]. split; [discriminate | ].
    intros (sp & s0 & e0 & sl & el & Hsp & _). discriminate.
Qed.

Lemma window_events_In (lo hi : Z) (all : list StationEvent) (e : StationEvent) :
  (forall e t, In e all -> atTime e = Some t -> ~ (t == 0)%Q) ->
  (In e (window_events (Some (lo, hi)) all) <->
   In e all /\ exists t, atTime e = Some t /\ inside lo hi t).
Proof.
  intros Hnz. unfold window_events. rewrite filter_In. split.
  - intros [Hin H]. split; [exact Hin | ].
    destruct (atTime e) as [t | ]; [ | discriminate].
    apply andb_true_iff in H. destruct H as [_ H]. exists t. split; [reflexivity | ].
    apply in_window_inside. exact H.
  - intros [Hin (t & Ht & Hw)]. split; [exact Hin | ]. rewrite Ht.
    apply andb_true_iff. split; [ | apply in_window_inside; exact Hw].
    unfold time_truthy. destruct (Qeq_bool t 0) eqn:E; [ | reflexivity].
    apply Qeq_bool_iff in E. exfalso. exact (Hnz e t Hin Ht E).
Qed.

Lemma passing_rc_spec (qq : FilterQuery) (lo hi : Z) (rc : RakeCycle) :
  inTimePeriod qq = Some (lo, hi) ->
  NoDup (map upper (passingThrough qq)) ->
  (forall sp e t, servicePath rc = Some sp -> In e (flat_map events sp) ->
                  atTime e = Some t -> ~ (t == 0)%Q) ->
  servicePath (passing_rc qq rc) = servicePath rc /\
  rake (passing_rc qq rc) = rake rc /\
  (rc_render (passing_rc qq rc) = true <->
   rc_render rc = true /\
   exists sp, servicePath rc = Some sp /\ sp <> [] /\
     forall st, In st (passingThrough qq) ->
       exists e, In e (flat_map events sp) /\ event_at_in lo hi st e).
Proof.
  intros Hp Hnd Hnz. unfold passing_rc. cbn [set_rc_render servicePath rc_render].
  rewrite Hp.
  destruct (servicePath rc) as [[ | p0 ps] | ] eqn:Esp;
    cbn [set_rc_render servicePath rake rc_render].
  - split; [exact Esp | ]. split; [reflexivity | ]. rewrite andb_true_r, andb_false_r.
    split; [discriminate | ]. intros [_ (sp & Hsp & Hne & _)]. injection Hsp as <-. congruence.
  - set (all := flat_map events (p0 :: ps)).
    assert (Hnz' : forall e t, In e all -> atTime e = Some t -> ~ (t == 0)%Q).
    { intros e t He Ht. exact (Hnz (p0 :: ps) e t eq_refl He Ht). }
    pose proof (seen_loop_complete (map upper (passingThrough qq))
                  (window_events (Some (lo, hi)) all) Hnd) as Hc.
    assert (Hcov :
      (forall u, In u (map upper (passingThrough qq)) ->
         exists e, In e (window_events (Some (lo, hi)) all) /\ counts_for u e) <->
      (forall st, In st (passingThrough qq) ->
         exists e, In e all /\ event_at_in lo hi st e)).
    { split.
      - intros H st Hst. destruct (H (upper st) (in_map upper _ _ Hst)) as (e & He & Hne & Hu).
        apply (window_events_In lo hi all e Hnz') in He. destruct He as [Hin Ht].
        exists e. split; [exact Hin | ]. unfold event_at_in. repeat split; assumption.
      - intros H u Hu. apply in_map_iff in Hu. destruct Hu as (st & <- & Hst).
        destruct (H st Hst) as (e & Hin & Hne & Hu & Ht). exists e. split.
        + apply (window_events_In lo hi all e Hnz'). split; assumption.
        + split; assumption. }
    destruct (List.length _ <? List.length _)%nat eqn:El;
      cbn [set_rc_render servicePath rake rc_render].
    + split; [exact Esp | ]. split; [reflexivity | ].
      split; [discriminate | ]. intros [_ (sp & Hsp & _ & Hall)]. injection Hsp as <-.
      pose proof (proj2 Hc (proj2 Hcov Hall)) as Hf. discriminate Hf.
    + split; [exact Esp | ]. split; [reflexivity | ]. rewrite andb_true_r.
      split.
      * intros Hr. split; [exact Hr | ]. exists (p0 :: ps).
        split; [reflexivity | ]. split; [discriminate | ].
        apply (proj1 Hcov). apply (proj1 Hc). reflexivity.
      * intros [Hr _]. exact Hr.
  - split; [exact Esp | ]. split; [reflexivity | ]. rewrite andb_true_r, andb_false_r.
    split; [discriminate | ]. intros [_ (sp & Hsp & _)]. discriminate.
Qed.

Lemma ac_rc_spec (mode : string) (rc : RakeCycle) :
  servicePath (ac_rc mode rc) = servicePath rc /\
  (rc_render (ac_rc mode rc) = true <->
   rc_render rc = true /\
   exists rk, rake rc = Some rk /\ ac_allows (Some mode) (isAC rk) = true).
Proof.
  unfold ac_rc, ac_allows. destruct (rake rc) as [rk | ].
  2:{ cbn [set_rc_render rc_render servicePath]. split; [reflexivity | ].
      split; [discriminate | ]. intros [_ (rk & E & _)]. discriminate. }
  assert (Hkeep : forall f : Rake -> bool, f rk = true ->
            servicePath rc = servicePath rc /\
            (rc_render rc = true <->
             rc_render rc = true /\ exists rk0, Some rk = Some rk0 /\ f rk0 = true)).
  { intros f Hf. split; [reflexivity | ]. split; [ | tauto].
    intros H. split; [exact H | ]. exists rk. split; [reflexivity | exact Hf]. }
  assert (Hhide : forall f : Rake -> bool, f rk = false ->
            servicePath (set_rc_render rc false) = servicePath rc /\
            (rc_render (set_rc_render rc false) = true <->
             rc_render rc = true /\ exists rk0, Some rk = Some rk0 /\ f rk0 = true)).
  { intros f Hf. split; [reflexivity | ]. cbn [set_rc_render rc_render].
    split; [discriminate | ]. intros [_ (rk0 & E & H)]. injection E as <-. congruence. }
  destruct (String.eqb_spec mode "ac") as [-> | Hac].
  - cbn [String.eqb Ascii.eqb Bool.eqb andb]. destruct (isAC rk) eqn:Eac; cbn [negb].
    + exact (Hkeep isAC Eac).
    + exact (Hhide isAC Eac).
  - cbn [andb]. destruct (String.eqb mode "nonac"); cbn [andb].
    + destruct (isAC rk) eqn:Eac; cbn [negb].
      * apply (Hhide (fun r => negb (isAC r))). rewrite Eac. reflexivity.
      * apply (Hkeep (fun r => negb (isAC r))). rewrite Eac. reflexivity.
    + exact (Hkeep (fun _ => true) eq_refl).
Qed.

Lemma apply_passing_as_map (qq : FilterQuery) (rcs : list RakeCycle) :
  _apply_passing_through_filter qq rcs =
  map (fun rc => match passingThrough qq with [] => rc | _ => passing_rc qq rc end) rcs.
Proof.
  unfold _apply_passing_through_filter. destruct (passingThrough qq); [ | reflexivity].
  symmetry. apply map_id.
Qed.

Lemma apply_ac_as_map (qq : FilterQuery) (rcs : list RakeCycle) :
  _apply_ac_filter qq rcs =
  map (fun rc => match ac qq with
                 | None => rc
                 | Some mode => if String.eqb mode "all" then rc else ac_rc mode rc
                 end) rcs.
Proof.
  unfold _apply_ac_filter. destruct (ac qq) as [mode | ]; [ | symmetry; apply map_id].
  destruct (String.eqb mode "all"); [symmetry; apply map_id | reflexivity].
Qed.

(** RAKELINK mode on a query whose passing-through list names no station
    twice: a cycle is visible exactly under conditions (i) to (iv). *)
Lemma link_filter_visibility (wtt wtt' : TimeTable) (qq : FilterQuery) (lo hi : Z) :
  inTimePeriod qq = Some (lo, hi) ->
  NoDup (map upper (passingThrough qq)) ->
  (forall rc sp e t, In rc (rakecycles wtt) -> servicePath rc = Some sp ->
                     In e (flat_map events sp) -> atTime e = Some t -> ~ (t == 0)%Q) ->
  apply_link_filters wtt qq = Ok wtt' ->
  List.length (rakecycles wtt') = List.length (rakecycles wtt) /\
  forall (i : nat) (rc rc' : RakeCycle),
    nth_error (rakecycles wtt) i = Some rc ->
    nth_error (rakecycles wtt') i = Some rc' ->
    (rc_render rc' = true <-> link_visible qq lo hi rc).
Proof.
  intros Hp Hnd Hnz H. unfold apply_link_filters in H.
  destruct (mapM _ (rakecycles wtt)) as [rcs1 | e] eqn:E1; [ | discriminate].
  cbn [bind] in H. injection H as <-. cbn [rakecycles].
  rewrite apply_ac_as_map, apply_passing_as_map.
  destruct (mapM_nth _ _ _ E1) as [Hlen Hnth].
  split; [rewrite !length_map; exact Hlen | ].
  intros i rc rc' Hi Hi'.
  rewrite !nth_error_map in Hi'.
  destruct (nth_error rcs1 i) as [rc1 | ] eqn:Ei1; [ | discriminate].
  cbn [option_map] in Hi'. injection Hi' as <-.
  pose proof (Hnth i rc rc1 Hi Ei1) as Ht.
  destruct (terminal_rc_spec _ _ _ _ Ht) as (Hsp1 & Hrk1 & Hr1).
  assert (Hin : In rc (rakecycles wtt)) by (eapply nth_error_In; exact Hi).
  set (rc2 := match passingThrough qq with [] => rc1 | _ => passing_rc qq rc1 end).
  assert (H2 : servicePath rc2 = servicePath rc /\ rake rc2 = rake rc /\
               (rc_render rc2 = true <->
                rc_render rc1 = true /\
                (passingThrough qq <> [] ->
                 exists sp, servicePath rc = Some sp /\
                   forall st, In st (passingThrough qq) ->
                     exists e, In e (flat_map events sp) /\ event_at_in lo hi st e))).
  { unfold rc2. destruct (passingThrough qq) as [ | st0 sts] eqn:Ept.
    - split; [exact Hsp1 | ]. split; [exact Hrk1 | ]. split; [ | tauto].
      intros Hr. split; [exact Hr | congruence].
    - rewrite <- Ept in *.
      destruct (passing_rc_spec qq lo hi rc1 Hp Hnd) as (Ha & Hb & Hc).
      { intros sp e t Hsp. rewrite Hsp1 in Hsp. exact (Hnz rc sp e t Hin Hsp). }
      split; [congruence | ]. split; [congruence | ]. rewrite Hc, Hsp1. split.
      + intros [Hr (sp & Hsp & _ & Hall)]. split; [exact Hr | ]. intros _. exists sp.
        split; assumption.
      + intros [Hr Hall]. split; [exact Hr | ].
        destruct Hall as (sp & Hsp & Hall); [rewrite Ept; discriminate | ].
        exists sp. split; [exact Hsp | ]. split; [ | exact Hall].
        apply Hr1 in Hr. destruct Hr as (sp' & s0 & _ & _ & _ & Hsp' & H0 & _).
        rewrite Hsp in Hsp'. injection Hsp' as <-. intros ->. discriminate. }
  destruct H2 as (Hsp2 & Hrk2 & Hr2).
  assert (H3 : rc_render
                 match ac qq with
                 | None => rc2
                 | Some mode => if String.eqb mode "all" then rc2 else ac_rc mode rc2
                 end = true <->
               rc_render rc2 = true /\
               (ac_is_set (ac qq) = true ->
                exists rk, rake rc = Some rk /\ ac_allows (ac qq) (isAC rk) = true)).
  { unfold ac_is_set. destruct (ac qq) as [mode | ].
    - destruct (String.eqb mode "all") eqn:Eall; cbn [negb].
      + split; [intros Hr; split; [exact Hr | discriminate] | tauto].
      + destruct (ac_rc_spec mode rc2) as [_ Hc]. rewrite Hc, Hrk2. split.
        * intros [Hr Hrk]. split; [exact Hr | intros _; exact Hrk].
        * intros [Hr Hrk]. split; [exact Hr | exact (Hrk eq_refl)].
    - split; [intros Hr; split; [exact Hr | discriminate] | tauto]. }
  rewrite H3, Hr2, Hr1. unfold link_visible. split.
  - intros [[(sp & s0 & e0 & sl & el & Hsp & H0 & H1 & H4 & H5 & H6 & H7) Hpass] Hac].
    exists sp, s0, e0, sl, el. repeat split; try assumption.
    intros st Hst. destruct Hpass as (sp' & Hsp' & Hall).
    { intros E. rewrite E in Hst. contradiction. }
    rewrite Hsp in Hsp'. injection Hsp' as <-. exact (Hall st Hst).
  - intros (sp & s0 & e0 & sl & el & Hsp & H0 & H1 & H4 & H5 & H6 & H7 & Hall & Hac).
    split; [split | exact Hac].
    + exists sp, s0, e0, sl, el. repeat split; assumption.
    + intros _. exists sp. split; assumption.
Qed.

(** *** What the validation tolerates *)

Lemma ids_eqb_eq (a b : list SId) : ids_eqb a b = true <-> a = b.
Proof.
  revert b. induction a as [ | x a IH]; intros [ | y b]; cbn [ids_eqb];
    try (split; [reflexivity | reflexivity]); try (split; discriminate).
  rewrite andb_true_iff, SId_eqb_eq, IH. split; [intros [-> ->]; reflexivity | ].
  intros H. injection H as -> ->. split; reflexivity.
Qed.

Lemma py_last_snoc {A : Type} (l : list A) (x : A) : py_last (l ++ [x]) = Ok x.
Proof. rewrite py_last_rev, rev_app_distr. reflexivity. Qed.

Lemma removelast_eq_snoc {A : Type} (l w : list A) :
  l <> [] -> removelast l = w -> exists x, l = w ++ [x].
Proof.
  intros Hne <-. destruct (exists_last Hne) as (l' & x & ->).
  exists x. rewrite removelast_last. reflexivity.
Qed.

(** For a cycle whose path is a chain (every service with a first
    identifier, the chain not empty), the validation returns, and it
    records no conflict exactly in the cases of [code_tolerates]. *)
Lemma validate_one_tolerance (rc : RakeCycle) (sp : list Service) (wtt : list SId) :
  servicePath rc = Some sp ->
  mapM (fun svc => py_first (serviceId svc)) sp = Ok wtt ->
  wtt <> [] ->
  (code_tolerates (serviceIds rc) wtt /\ validate_one rc = Ok None) \/
  (~ code_tolerates (serviceIds rc) wtt /\ validate_one rc = Ok (Some wtt)).
Proof.
  intros Hsp Hw Hne. unfold validate_one. rewrite Hsp, Hw. cbn [bind].
  set (summary := serviceIds rc).
  destruct (ids_eqb wtt summary) eqn:E0; cbn [negb].
  { apply ids_eqb_eq in E0. left. split; [left; congruence | reflexivity]. }
  assert (N0 : summary <> wtt).
  { intros H. rewrite H in E0.
    assert (Ht : ids_eqb wtt wtt = true) by (apply ids_eqb_eq; reflexivity). congruence. }
  destruct (ids_eqb (removelast summary) wtt) eqn:E1.
  { apply ids_eqb_eq in E1.
    assert (Hs : summary <> []).
    { intros H. rewrite H in E1. cbn in E1. congruence. }
    destruct (removelast_eq_snoc summary wtt Hs E1) as (x & Hx).
    assert (Hl : py_last summary = Ok x) by (rewrite Hx; apply py_last_snoc).
    rewrite Hl. cbn [bind].
    destruct (has_ETY x) eqn:Ex.
    - left. split; [ | reflexivity]. right. left. exists x. split; assumption.
    - right. split; [ | reflexivity]. intros [H | [(x' & Hx' & Hety) | (pre & z & x' & y & _ & Hxy & _)]].
      + exact (N0 H).
      + rewrite Hx in Hx'. apply app_inj_tail in Hx'. destruct Hx' as [_ <-]. congruence.
      + rewrite Hx in Hxy. apply (f_equal (@List.length SId)) in Hxy.
        rewrite !length_app in Hxy. cbn in Hxy. lia. }
  assert (N1 : forall x, summary <> wtt ++ [x]).
  { intros x H. rewrite H, removelast_last in E1.
    assert (Ht : ids_eqb wtt wtt = true) by (apply ids_eqb_eq; reflexivity). congruence. }
  destruct (ids_eqb (removelast (removelast summary)) wtt) eqn:E2.
  { apply ids_eqb_eq in E2. rewrite E2.
    destruct (exists_last Hne) as (pre & z & Hz).
    assert (Hs1 : removelast summary <> []).
    { intros H. rewrite H in E2. cbn in E2. congruence. }
    destruct (removelast_eq_snoc (removelast summary) wtt Hs1 E2) as (x & Hx).
    assert (Hs : summary <> []).
    { intros H. rewrite H in Hs1. apply Hs1. reflexivity. }
    destruct (removelast_eq_snoc summary (wtt ++ [x]) Hs Hx) as (y & Hy).
    assert (Hsum : summary = wtt ++ [x; y]).
    { rewrite Hy, <- app_assoc. reflexivity. }
    assert (Hlz : py_last wtt = Ok z) by (rewrite Hz; apply py_last_snoc).
    assert (Hly : py_last summary = Ok y) by (rewrite Hy; apply py_last_snoc).
    rewrite Hlz. cbn [bind].
    assert (Hcases : forall P : Prop,
               code_tolerates summary wtt -> (has_ETY z = true -> has_ETY y = true -> P) -> P).
    { intros P [H | [(x' & Hx' & _) | (pre' & z' & x' & y' & Hw' & Hxy & Hz' & Hy')]] HP.
      - contradiction.
      - exfalso. exact (N1 x' Hx').
      - rewrite Hz in Hw'. apply app_inj_tail in Hw'. destruct Hw' as [_ <-].
        rewrite Hsum in Hxy. apply app_inv_head in Hxy. injection Hxy as _ <-.
        exact (HP Hz' Hy'). }
    destruct (has_ETY z) eqn:Ez.
    - rewrite Hly. cbn [bind].
      destruct (has_ETY y) eqn:Ey.
      + left. split; [ | reflexivity]. right. right. exists pre, z, x, y.
        repeat split; assumption.
      + right. split; [ | reflexivity]. intros H. apply (Hcases False H). congruence.
    - right. split; [ | reflexivity]. intros H. apply (Hcases False H). congruence. }
  right. split; [ | reflexivity].
  intros [H | [(x' & Hx' & _) | (pre' & z' & x' & y' & Hw' & Hxy & _)]].
  - contradiction.
  - exact (N1 x' Hx').
  - rewrite Hxy in E2.
    change (wtt ++ [x'; y']) with (wtt ++ [x'] ++ [y']) in E2.
    rewrite app_assoc, !removelast_last in E2.
    assert (Ht : ids_eqb wtt wtt = true) by (apply ids_eqb_eq; reflexivity). congruence.
Qed.

(** *** Chains of services with a single identifier *)

Lemma idMap_get_In (services : list Service) (id : SId) (sv : Service) :
  dict_get SId_eqb (idMap_of services) id = Some sv ->
  In id (serviceId sv) /\ In sv services.
Proof.
  unfold idMap_of.
  assert (H : forall (l : list Service) (m : dict (K:=SId) (V:=Service)),
             incl l services ->
             (forall id sv, dict_get SId_eqb m id = Some sv ->
                            In id (serviceId sv) /\ In sv services) ->
             forall id sv,
               dict_get SId_eqb
                 (fold_left
                    (fun m s => fold_left (fun m' sid => dict_set SId_eqb m' sid s)
                                  (serviceId s) m) l m) id = Some sv ->
               In id (serviceId sv) /\ In sv services).
  { induction l as [ | s r IH]; intros m Hl Hm; [exact Hm | ].
    cbn [fold_left]. apply IH; [intros x Hx; apply Hl; now right | ].
    assert (Hs : forall ids (m' : dict (K:=SId) (V:=Service)),
               incl ids (serviceId s) ->
               (forall id sv, dict_get SId_eqb m' id = Some sv ->
                              In id (serviceId sv) /\ In sv services) ->
               forall id sv,
                 dict_get SId_eqb
                   (fold_left (fun m' sid => dict_set SId_eqb m' sid s) ids m') id = Some sv ->
                 In id (serviceId sv) /\ In sv services).
    { induction ids as [ | sid ids IHi]; intros m' Hincl Hm'; [exact Hm' | ].
      cbn [fold_left]. apply IHi.
      - intros x Hx. apply Hincl. now right.
      - intros id0 sv0. rewrite (dict_get_set SId_eqb SId_eqb_eq).
        destruct (SId_eqb id0 sid) eqn:E.
        + intros Hg. injection Hg as <-. apply SId_eqb_eq in E. subst id0.
          split; [apply Hincl; now left | apply Hl; now left].
        + apply Hm'. }
    apply Hs; [apply incl_refl | exact Hm]. }
  apply H; [apply incl_refl | ]. intros id0 sv0 Hg. discriminate.
Qed.

Lemma services_at_concat (idMap : dict (K:=SId) (V:=Service))
    (traces : list (list SId)) (chains : list (list Service)) :
  Forall2 (services_at idMap) traces chains ->
  services_at idMap (List.concat traces) (List.concat chains).
Proof.
  unfold services_at. induction 1 as [ | tr ch trs chs H Hrest IH]; [constructor | ].
  cbn [List.concat]. apply Forall2_app; assumption.
Qed.

(** When every service has a single identifier, no service occurs twice
    in the chains either. *)
Lemma chains_services_NoDup (services : list Service)
    (traces : list (list SId)) (chains : list (list Service)) :
  (forall sv, In sv services -> (List.length (serviceId sv) <= 1)%nat) ->
  Forall2 (services_at (idMap_of services)) traces chains ->
  NoDup (List.concat traces) ->
  NoDup (List.concat chains).
Proof.
  intros Hone Hs Hnd. apply services_at_concat in Hs. unfold services_at in Hs.
  induction Hs as [ | id sv ids svs Hg Hrest IH]; [constructor | ].
  inversion Hnd as [ | ? ? Hnotin Hnd']; subst.
  constructor; [ | exact (IH Hnd')].
  intros Hsv. apply Hnotin.
  assert (Hids : forall id', dict_get SId_eqb (idMap_of services) id' = Some sv -> id' = id).
  { intros id' Hg'. destruct (idMap_get_In _ _ _ Hg) as [H1 Hin].
    destruct (idMap_get_In _ _ _ Hg') as [H2 _].
    pose proof (Hone sv Hin) as Hl.
    destruct (serviceId sv) as [ | a [ | b r]]; cbn in Hl, H1, H2; try lia; try contradiction.
    destruct H1 as [<- | []]. destruct H2 as [<- | []]. reflexivity. }
  clear IH Hnd Hnd' Hnotin. induction Hrest as [ | id' sv' ids' svs' Hg' Hrest' IH'];
    [contradiction | ].
  destruct Hsv as [-> | Hsv]; [left; exact (Hids id' Hg') | right; exact (IH' Hsv)].
Qed.

(** A service registered under two identifiers is two nodes of the
    graph: it is placed once under each of them. *)
Example chains_of_two_ids :
  makeRakeCyclePathsSV two_id_services =
    Some [[svc_loop 93310 "93301"; svc_two_ids]; [svc_loop 93320 "93302"; svc_two_ids]].
Proof. vm_compute. reflexivity. Qed.

(** Strings that neither format accepts: no digits, an hour or a minute
    out of range, a leap second, a date before the time. *)
Example timeToMinutes_unparseable :
  map _timeToMinutes ["abc"; "24:00"; "12:60"; "10:30:60"; "1/2/2024 10:30"; ""] =
    [None; None; None; None; None; None].
Proof. vm_compute. reflexivity. Qed.

(* ================================================================== *)
(** * Part II, continued: properties of the further functions *)
(* ================================================================== *)

(** ** Display of times *)

Lemma below_In (n : nat) (k : Z) : 0 <= k < Z.of_nat n -> In k (below n).
Proof.
  intros Hk. unfold below. apply in_map_iff. exists (Z.to_nat k).
  split; [lia | ]. apply in_seq. lia.
Qed.

Lemma pad2_two_digits (n : Z) : 0 <= n < 100 -> pad2 n = two_digits n.
Proof.
  intros Hn.
  assert (H : forallb (fun k => String.eqb (pad2 k) (two_digits k)) (below 100) = true)
    by (vm_compute; reflexivity).
  rewrite forallb_forall in H. apply String.eqb_eq. apply H. apply below_In. lia.
Qed.

Lemma py_round_integer (q : Q) (k : Z) : (q == inject_Z k)%Q -> py_round q = k.
Proof.
  intros H. unfold py_round.
  assert (Ef : Qfloor q = k) by (rewrite (Qfloor_comp _ _ H); apply Qfloor_Z).
  rewrite Ef.
  assert (E : (q - inject_Z k ?= 1 # 2)%Q = Lt).
  { apply Qlt_alt. setoid_replace (q - inject_Z k)%Q with 0%Q by (rewrite H; ring).
    reflexivity. }
  rewrite E. reflexivity.
Qed.

Lemma wrap_minutes_HM (h m : Z) :
  0 <= h < 24 -> 0 <= m < 60 ->
  (wrap (minutes_of (mkHMS h m 0)) ==
   inject_Z (if 60 * h + m <? 165 then 60 * (h + 24) + m else 60 * h + m))%Q.
Proof.
  intros Hh Hm. destruct (wrap_spec (minutes_of (mkHMS h m 0))) as [Hlt Hge].
  destruct (Z.ltb_spec (60 * h + m) 165) as [H | H].
  - rewrite Hlt.
    + rewrite minutes_of_HM. replace (60 * (h + 24) + m) with (60 * h + m + 1440) by lia.
      rewrite (inject_Z_plus (60 * h + m) 1440). reflexivity.
    + rewrite minutes_of_HM. change (inject_Z (60 * h + m) < inject_Z 165)%Q.
      rewrite <- Zlt_Qlt. exact H.
  - rewrite Hge; [apply minutes_of_HM | ].
    rewrite minutes_of_HM. change (inject_Z 165 <= inject_Z (60 * h + m))%Q.
    rewrite <- Zle_Qle. exact H.
Qed.

Lemma fmt_time_timeToMinutes (pad : bool) (h m : Z) :
  0 <= h < 24 -> 0 <= m < 60 ->
  fmt_time (_timeToMinutes (fmt_HM pad h m)) =
  fmt_HM true (if 60 * h + m <? 165 then h + 24 else h) m.
Proof.
  intros Hh Hm. rewrite timeToMinutes_fmt_HM by assumption. unfold fmt_time.
  rewrite (py_round_integer _ _ (wrap_minutes_HM h m Hh Hm)).
  unfold fmt_HM, hour_digits. cbn [orb].
  destruct (60 * h + m <? 165).
  - assert (E1 : (60 * (h + 24) + m) / 60 = h + 24)
      by (symmetry; apply (Z.div_unique _ 60 (h + 24) m); lia).
    assert (E2 : (60 * (h + 24) + m) mod 60 = m)
      by (symmetry; apply (Z.mod_unique _ 60 (h + 24) m); lia).
    rewrite E1, E2, !pad2_two_digits by lia. reflexivity.
  - assert (E1 : (60 * h + m) / 60 = h)
      by (symmetry; apply (Z.div_unique _ 60 h m); lia).
    assert (E2 : (60 * h + m) mod 60 = m)
      by (symmetry; apply (Z.mod_unique _ 60 h m); lia).
    rewrite E1, E2, !pad2_two_digits by lia. reflexivity.
Qed.

Lemma ok_H_late (h : Z) : 24 <= h < 30 -> ok_H (h / 10) (h mod 10) = false.
Proof.
  intros Hh. unfold ok_H.
  assert (E1 : h / 10 = 2) by (Z.to_euclidean_division_equations; lia).
  assert (E2 : 4 <= h mod 10) by (Z.to_euclidean_division_equations; lia).
  rewrite E1. cbn [Z.eqb Z.leb Z.compare Pos.compare Pos.compare_cont andb orb].
  destruct (Z.leb_spec (h mod 10) 3); [lia | reflexivity].
Qed.

(** A displayed hour from 24 on is no time string. *)
Lemma timeToMinutes_late_hour (h m : Z) :
  24 <= h < 30 -> 0 <= m < 60 -> _timeToMinutes (fmt_HM true h m) = None.
Proof.
  intros Hh Hm.
  destruct (two_digits_parts h) as (Ha & Hb & Hab); [lia | ].
  destruct (two_digits_parts m) as (Hc & Hd & Hcd); [lia | ].
  assert (Es : strip (fmt_HM true h m) = fmt_HM true h m).
  { unfold fmt_HM, hour_digits, two_digits. cbn [orb append]. strip_digits. }
  assert (E1 : strptime_HMS (fmt_HM true h m) = Raise ValueError).
  { unfold strptime_HMS, fmt_HM, hour_digits, two_digits. cbn [orb append].
    rewrite directive_two by assumption. rewrite ok_H_late by assumption.
    rewrite literal_digit by assumption. reflexivity. }
  assert (E2 : strptime_HM (fmt_HM true h m) = Raise ValueError).
  { unfold strptime_HM, fmt_HM, hour_digits, two_digits. cbn [orb append].
    rewrite directive_two by assumption. rewrite ok_H_late by assumption.
    rewrite literal_digit by assumption. reflexivity. }
  unfold _timeToMinutes. rewrite Es, E1, E2.
  destruct (fmt_HM true h m); reflexivity.
Qed.

(** X1. Displaying the time parsed from [H:MM] gives back the string,
    with its leading zero, when the time is 02:45 or later; an earlier
    time, which the parser moved past midnight, is displayed with its
    hour increased by 24, and that display is not accepted as a time
    string again.  A missing time is displayed as [--:--]. *)
Theorem fmt_time_round_trip (pad : bool) (h m : Z) :
  0 <= h < 24 -> 0 <= m < 60 ->
  (165 <= 60 * h + m ->
     fmt_time (_timeToMinutes (fmt_HM pad h m)) = fmt_HM true h m /\
     _timeToMinutes (fmt_time (_timeToMinutes (fmt_HM pad h m))) =
       _timeToMinutes (fmt_HM pad h m))
  /\ (60 * h + m < 165 ->
        fmt_time (_timeToMinutes (fmt_HM pad h m)) = fmt_HM true (h + 24) m /\
        _timeToMinutes (fmt_time (_timeToMinutes (fmt_HM pad h m))) = None)
  /\ fmt_time None = "--:--".
Proof.
  intros Hh Hm. pose proof (fmt_time_timeToMinutes pad h m Hh Hm) as E.
  split; [ | split; [ | reflexivity]].
  - intros H. destruct (Z.ltb_spec (60 * h + m) 165) as [H' | _]; [lia | ].
    split; [exact E | ]. rewrite E.
    rewrite !timeToMinutes_fmt_HM by assumption. reflexivity.
  - intros H. destruct (Z.ltb_spec (60 * h + m) 165) as [_ | H']; [ | lia].
    split; [exact E | ]. rewrite E. apply timeToMinutes_late_hour; lia.
Qed.

Lemma fmt_time_round_trip_witness :
  (0 <= 9 < 24 /\ 0 <= 15 < 60 /\ 165 <= 60 * 9 + 15) /\
  fmt_time (_timeToMinutes (fmt_HM false 9 15)) = fmt_HM true 9 15.
Proof.
  split; [lia | ].
  destruct (fmt_time_round_trip false 9 15 ltac:(lia) ltac:(lia)) as [H _].
  destruct (H ltac:(lia)) as [E _]. exact E.
Defined.

(** ** SERVICE mode: the visibility of a service *)

Lemma checkDirectionConstraint_eq (qq : FilterQuery) (svc : Service) :
  checkDirectionConstraint qq svc =
  if direction_allows (inDirection qq) (direction svc) then svc
  else set_svc_render svc false.
Proof.
  unfold checkDirectionConstraint, direction_allows.
  destruct (inDirection qq) as [[ | d ds] | ]; reflexivity.
Qed.

Lemma checkACConstraint_eq (qq : FilterQuery) (svc : Service) :
  checkACConstraint qq svc =
  if ac_allows (ac qq) (needsACRake svc) then svc else set_svc_render svc false.
Proof.
  unfold checkACConstraint, ac_allows.
  destruct (ac qq) as [mode | ]; [ | reflexivity].
  destruct mode as [ | c r]; [reflexivity | ].
  remember (String c r) as mode eqn:Em. clear Em c r.
  destruct (String.eqb_spec mode "all") as [-> | Hall]; [reflexivity | ].
  destruct (String.eqb_spec mode "ac") as [-> | Hac].
  - destruct (needsACRake svc); reflexivity.
  - destruct (String.eqb_spec mode "nonac") as [-> | Hnon].
    + destruct (needsACRake svc); reflexivity.
    + reflexivity.
Qed.

Lemma outside_window_ok (lo hi : Z) (t : option Q) (out : bool) :
  outside_window (Some (lo, hi)) t = Ok out ->
  exists q, t = Some q /\ (out = false <-> inside lo hi q).
Proof.
  cbn [outside_window]. destruct t as [q | ]; [ | discriminate].
  intros H. injection H as <-. exists q. split; [reflexivity | ].
  rewrite <- in_window_inside. destruct (in_window lo hi q); cbn; split; congruence.
Qed.

Lemma checkStartStationConstraint_ok (qq : FilterQuery) (lo hi : Z) (svc svc' : Service) :
  inTimePeriod qq = Some (lo, hi) ->
  checkStartStationConstraint qq svc = Ok svc' ->
  (terminal_ok lo hi (startStation qq) (hd_error (events svc)) /\ svc' = svc) \/
  (~ terminal_ok lo hi (startStation qq) (hd_error (events svc)) /\
   svc' = set_svc_render svc false).
Proof.
  intros Hp. unfold checkStartStationConstraint, terminal_ok. rewrite Hp.
  destruct (startStation qq) as [[ | c r] | ].
  - intros H. injection H as <-. left. split; [exact I | reflexivity].
  - destruct (events svc) as [ | e0 es]; cbn [py_first bind hd_error]; [discriminate | ].
    destruct (String.eqb_spec (atStation e0) (String c r)) as [Est | Est].
    + destruct (outside_window (Some (lo, hi)) (atTime e0)) as [out | ] eqn:Eo;
        cbn [bind]; [ | discriminate].
      destruct (outside_window_ok lo hi _ _ Eo) as (q & Hq & Hout).
      destruct out; intros H; injection H as <-.
      * right. split; [ | reflexivity]. intros (ev & t & Hev & _ & Ht & Hin).
        injection Hev as <-. rewrite Hq in Ht. injection Ht as <-.
        apply Hout in Hin. discriminate.
      * left. split; [ | reflexivity]. exists e0, q.
        split; [reflexivity | ]. split; [exact Est | ]. split; [exact Hq | ].
        apply Hout. reflexivity.
    + intros H. injection H as <-. right. split; [ | reflexivity].
      intros (ev & t & Hev & Hst & _). injection Hev as <-. contradiction.
  - intros H. injection H as <-. left. split; [exact I | reflexivity].
Qed.

Lemma py_last_last_opt {A : Type} (xs : list A) :
  py_last xs = match last_opt xs with Some x => Ok x | None => Raise IndexError end.
Proof. rewrite py_last_rev. unfold last_opt. destruct (rev xs); reflexivity. Qed.

Lemma checkEndStationConstraint_ok (qq : FilterQuery) (lo hi : Z) (svc svc' : Service) :
  inTimePeriod qq = Some (lo, hi) ->
  checkEndStationConstraint qq svc = Ok svc' ->
  (terminal_ok lo hi (endStation qq) (last_opt (events svc)) /\ svc' = svc) \/
  (~ terminal_ok lo hi (endStation qq) (last_opt (events svc)) /\
   svc' = set_svc_render svc false).
Proof.
  intros Hp. unfold checkEndStationConstraint, terminal_ok. rewrite Hp.
  destruct (endStation qq) as [[ | c r] | ].
  - intros H. injection H as <-. left. split; [exact I | reflexivity].
  - rewrite py_last_last_opt.
    destruct (last_opt (events svc)) as [e0 | ]; cbn [bind]; [ | discriminate].
    destruct (String.eqb_spec (atStation e0) (String c r)) as [Est | Est].
    + destruct (outside_window (Some (lo, hi)) (atTime e0)) as [out | ] eqn:Eo;
        cbn [bind]; [ | discriminate].
      destruct (outside_window_ok lo hi _ _ Eo) as (q & Hq & Hout).
      destruct out; intros H; injection H as <-.
      * right. split; [ | reflexivity]. intros (ev & t & Hev & _ & Ht & Hin).
        injection Hev as <-. rewrite Hq in Ht. injection Ht as <-.
        apply Hout in Hin. discriminate.
      * left. split; [ | reflexivity]. exists e0, q.
        split; [reflexivity | ]. split; [exact Est | ]. split; [exact Hq | ].
        apply Hout. reflexivity.
    + intros H. injection H as <-. right. split; [ | reflexivity].
      intros (ev & t & Hev & Hst & _). injection Hev as <-. contradiction.
  - intros H. injection H as <-. left. split; [exact I | reflexivity].
Qed.

Lemma terminal_ok_reset_hd (lo hi : Z) (c : option string) (es : list StationEvent) :
  terminal_ok lo hi c (hd_error (map (fun ev => set_ev_render ev true) es)) <->
  terminal_ok lo hi c (hd_error es).
Proof.
  unfold terminal_ok. destruct c as [[ | ch r] | ]; try reflexivity.
  destruct es as [ | e0 es']; cbn [map hd_error].
  - split; intros (ev & t & Hev & _); discriminate.
  - split; intros (ev & t & Hev & Hst & Ht & Hin); injection Hev as <-;
      eexists; exists t; (split; [reflexivity | ]);
      (split; [exact Hst | ]); (split; [exact Ht | exact Hin]).
Qed.

Lemma last_opt_map {A B : Type} (f : A -> B) (xs : list A) :
  last_opt (map f xs) = option_map f (last_opt xs).
Proof. unfold last_opt. rewrite <- map_rev. destruct (rev xs); reflexivity. Qed.

Lemma terminal_ok_reset_last (lo hi : Z) (c : option string) (es : list StationEvent) :
  terminal_ok lo hi c (last_opt (map (fun ev => set_ev_render ev true) es)) <->
  terminal_ok lo hi c (last_opt es).
Proof.
  unfold terminal_ok. destruct c as [[ | ch r] | ]; try reflexivity.
  rewrite last_opt_map. destruct (last_opt es) as [e0 | ]; cbn [option_map].
  - split; intros (ev & t & Hev & Hst & Ht & Hin); injection Hev as <-;
      eexists; exists t; (split; [reflexivity | ]);
      (split; [exact Hst | ]); (split; [exact Ht | exact Hin]).
  - split; intros (ev & t & Hev & _); discriminate.
Qed.

Lemma set_svc_render_twice (s : Service) (b c : bool) :
  set_svc_render (set_svc_render s b) c = set_svc_render s c.
Proof. reflexivity. Qed.

Lemma reset_fields (svc : Service) (b : bool) :
  let s := set_svc_render
             (set_events (set_svc_render svc true)
                (map (fun ev => set_ev_render ev true) (events svc))) b in
  serviceId s = serviceId svc /\ direction s = direction svc /\
  needsACRake s = needsACRake svc /\ linkedTo s = linkedTo svc /\
  map atStation (events s) = map atStation (events svc) /\
  map atTime (events s) = map atTime (events svc).
Proof.
  cbn [set_svc_render set_events serviceId direction needsACRake linkedTo events].
  rewrite !map_map. cbn [set_ev_render atStation atTime].
  repeat split; apply map_ext; intros ev; reflexivity.
Qed.

Lemma service_filter_svc_spec (qq : FilterQuery) (lo hi : Z) (svc svc' : Service) :
  inTimePeriod qq = Some (lo, hi) ->
  service_filter_svc qq svc = Ok svc' ->
  (svc_render svc' = true <-> service_visible qq lo hi svc) /\
  serviceId svc' = serviceId svc /\ direction svc' = direction svc /\
  needsACRake svc' = needsACRake svc /\ linkedTo svc' = linkedTo svc /\
  map atStation (events svc') = map atStation (events svc) /\
  map atTime (events svc') = map atTime (events svc).
Proof.
  intros Hp H. unfold service_filter_svc in H. cbn [set_svc_render events] in H.
  destruct (events svc) as [ | e0 es0] eqn:Ees.
  { injection H as <-. cbn [set_svc_render svc_render serviceId direction needsACRake
                             linkedTo events].
    rewrite Ees. split; [ | repeat split].
    split; [discriminate | ]. intros (Hne & _). congruence. }
  rewrite <- Ees in H.
  set (s0 := set_events (set_svc_render svc true)
               (map (fun ev => set_ev_render ev true) (events svc))) in H.
  assert (Hev0 : events s0 = map (fun ev => set_ev_render ev true) (events svc))
    by reflexivity.
  set (s0f := set_svc_render s0 false).
  rewrite checkDirectionConstraint_eq, checkACConstraint_eq in H.
  assert (Hd : direction s0 = direction svc) by reflexivity.
  assert (Ha : forall s, s = s0 \/ s = s0f -> needsACRake s = needsACRake svc).
  { intros s [-> | ->]; reflexivity. }
  assert (He : forall s, s = s0 \/ s = s0f -> events s = events s0).
  { intros s [-> | ->]; reflexivity. }
  assert (Hf : forall s, s = s0 \/ s = s0f -> set_svc_render s false = s0f).
  { intros s [-> | ->]; reflexivity. }
  (* direction and AC *)
  set (dA := direction_allows (inDirection qq) (direction svc)) in *.
  set (aA := ac_allows (ac qq) (needsACRake svc)) in *.
  rewrite Hd in H. fold dA in H.
  set (s1 := if dA then s0 else set_svc_render s0 false) in H.
  assert (H1 : (dA = true /\ s1 = s0) \/ (dA = false /\ s1 = s0f)).
  { unfold s1. destruct dA; [left | right]; split; reflexivity. }
  assert (H1' : s1 = s0 \/ s1 = s0f) by (destruct H1 as [[_ E] | [_ E]]; auto).
  rewrite (Ha s1 H1') in H. fold aA in H. rewrite (Hf s1 H1') in H.
  set (s2 := if aA then s1 else s0f) in H.
  assert (H2 : (dA = true /\ aA = true /\ s2 = s0) \/
               ((dA = false \/ aA = false) /\ s2 = s0f)).
  { unfold s2. destruct aA; destruct H1 as [[E1 E2] | [E1 E2]]; rewrite ?E2; auto. }
  assert (H2' : s2 = s0 \/ s2 = s0f) by (destruct H2 as [(_ & _ & E) | [_ E]]; auto).
  (* start, end, passing through *)
  destruct (checkStartStationConstraint qq s2) as [s3 | ] eqn:E3; [ | discriminate].
  cbn [bind] in H.
  destruct (checkEndStationConstraint qq s3) as [s4 | ] eqn:E4; [ | discriminate].
  cbn [bind] in H.
  pose proof (checkStartStationConstraint_ok qq lo hi s2 s3 Hp E3) as H3.
  rewrite (He s2 H2'), Hev0, terminal_ok_reset_hd, (Hf s2 H2') in H3.
  assert (H3' : s3 = s0 \/ s3 = s0f).
  { destruct H3 as [[_ ->] | [_ ->]]; auto. }
  pose proof (checkEndStationConstraint_ok qq lo hi s3 s4 Hp E4) as H4.
  rewrite (He s3 H3'), Hev0, terminal_ok_reset_last, (Hf s3 H3') in H4.
  assert (H4' : s4 = s0 \/ s4 = s0f).
  { destruct H4 as [[_ ->] | [_ ->]]; auto. }
  pose proof (checkPassingThroughConstraint_ok qq lo hi s4 svc' Hp H) as H5.
  rewrite (He s4 H4'), Hev0, (Hf s4 H4') in H5.
  assert (Hpass : forall st,
             station_passes lo hi (map (fun ev => set_ev_render ev true) (events svc)) st <->
             station_passes lo hi (events svc) st).
  { intros st. unfold station_passes. apply passes_at_ext. intros u. apply times_at_reset. }
  assert (H5' : svc' = s0 \/ svc' = s0f).
  { destruct H5 as [[_ ->] | [_ ->]]; auto. }
  split.
  2:{ rewrite <- Ees. destruct H5' as [E | E]; rewrite E.
      - exact (reset_fields svc true).
      - exact (reset_fields svc false). }
  unfold service_visible. fold dA aA. split.
  - intros Hr.
    assert (Hne : s0 <> s0f).
    { intros E. apply (f_equal svc_render) in E. discriminate E. }
    assert (E5 : svc' = s0).
    { destruct H5' as [E | E]; [exact E | rewrite E in Hr; discriminate Hr]. }
    destruct H5 as [[Hall E] | [_ E]]; [ | exfalso; apply Hne; congruence].
    assert (E4' : s4 = s0) by congruence.
    destruct H4 as [[Hend E'] | [_ E']]; [ | exfalso; apply Hne; congruence].
    assert (E3' : s3 = s0) by congruence.
    destruct H3 as [[Hstart E''] | [_ E'']]; [ | exfalso; apply Hne; congruence].
    assert (E2' : s2 = s0) by congruence.
    destruct H2 as [(Ed & Eaa & _) | [_ E2]]; [ | exfalso; apply Hne; congruence].
    split; [rewrite Ees; discriminate | ]. split; [exact Ed | ]. split; [exact Eaa | ].
    split; [exact Hstart | ]. split; [exact Hend | ].
    eapply Forall_impl; [ | exact Hall]. intros st. apply Hpass.
  - intros (_ & Ed & Eaa & Hstart & Hend & Hall).
    destruct H2 as [(_ & _ & E2) | [[E | E] _]]; [ | congruence | congruence].
    rewrite E2 in *.
    destruct H3 as [[_ E] | [N _]]; [ | contradiction]. subst s3.
    destruct H4 as [[_ E] | [N _]]; [ | contradiction]. subst s4.
    destruct H5 as [[_ E] | [N _]].
    + rewrite E. reflexivity.
    + exfalso. apply Exists_exists in N. destruct N as (st & Hst & Hn). apply Hn.
      apply Hpass. rewrite Forall_forall in Hall. exact (Hall st Hst).
Qed.

(** X2. A service that the SERVICE-mode pass returns is visible exactly
    when it has events and satisfies the direction filter, the AC
    constraint, the start-station and end-station constraints (the
    terminal event at exactly the queried name, at a time in the window)
    and the passing-through constraint; the pass changes no other
    attribute than the flags. *)
Theorem service_mode_visibility (qq : FilterQuery) (lo hi : Z) (svc svc' : Service) :
  inTimePeriod qq = Some (lo, hi) ->
  service_filter_svc qq svc = Ok svc' ->
  (svc_render svc' = true <-> service_visible qq lo hi svc) /\
  serviceId svc' = serviceId svc /\ direction svc' = direction svc /\
  needsACRake svc' = needsACRake svc /\ linkedTo svc' = linkedTo svc /\
  map atStation (events svc') = map atStation (events svc) /\
  map atTime (events svc') = map atTime (events svc).
Proof. exact (service_filter_svc_spec qq lo hi svc svc'). Qed.

(** Trip 93001 is an UP trip from VIRAR that calls at DADAR. *)
Lemma service_mode_visibility_witness :
  exists svc',
    service_filter_svc query_virar_dadar svc_93001 = Ok svc' /\
    (svc_render svc' = true <-> service_visible query_virar_dadar 165 1605 svc_93001).
Proof.
  eexists. split; [reflexivity | ].
  apply (service_mode_visibility query_virar_dadar 165 1605 svc_93001 _ eq_refl eq_refl).
Defined.

(** ** SERVICE mode: when the pass returns and when it raises *)

Lemma checkStartStationConstraint_total (qq : FilterQuery) (lo hi : Z) (svc : Service) :
  inTimePeriod qq = Some (lo, hi) ->
  events svc <> [] ->
  (forall e, In e (events svc) -> atTime e <> None) ->
  exists svc', checkStartStationConstraint qq svc = Ok svc'.
Proof.
  intros Hp Hne Hall. unfold checkStartStationConstraint.
  destruct (startStation qq) as [[ | c r] | ]; try (eexists; reflexivity).
  destruct (events svc) as [ | e0 es] eqn:Ees; [congruence | ].
  cbn [py_first bind]. rewrite Hp.
  destruct (String.eqb (atStation e0) (String c r)); [ | eexists; reflexivity].
  destruct (atTime e0) as [q | ] eqn:Et.
  - cbn [outside_window bind]. destruct (negb (in_window lo hi q)); eexists; reflexivity.
  - exfalso. apply (Hall e0); [now left | exact Et].
Qed.

Lemma checkEndStationConstraint_total (qq : FilterQuery) (lo hi : Z) (svc : Service) :
  inTimePeriod qq = Some (lo, hi) ->
  events svc <> [] ->
  (forall e, In e (events svc) -> atTime e <> None) ->
  exists svc', checkEndStationConstraint qq svc = Ok svc'.
Proof.
  intros Hp Hne Hall. unfold checkEndStationConstraint.
  destruct (endStation qq) as [[ | c r] | ]; try (eexists; reflexivity).
  destruct (exists_last Hne) as (es & el & Ees).
  rewrite Ees, py_last_snoc. cbn [bind]. rewrite Hp.
  destruct (String.eqb (atStation el) (String c r)); [ | eexists; reflexivity].
  destruct (atTime el) as [q | ] eqn:Et.
  - cbn [outside_window bind]. destruct (negb (in_window lo hi q)); eexists; reflexivity.
  - exfalso. apply (Hall el); [rewrite Ees; apply in_or_app; right; now left | exact Et].
Qed.

(** X3. SERVICE mode on a service with events.  With a window set, the
    pass returns when no event of the service has the time [None].  It
    raises [TypeError] when a start station is set and the query has no
    window, and when the service starts at the start station of the query
    with an event without a time. *)
Theorem service_mode_returns_or_raises (qq : FilterQuery) (svc : Service)
    (e0 : StationEvent) (es : list StationEvent) :
  events svc = e0 :: es ->
  (forall lo hi,
      inTimePeriod qq = Some (lo, hi) ->
      (forall e, In e (events svc) -> atTime e <> None) ->
      exists svc', service_filter_svc qq svc = Ok svc') /\
  (str_truthy (startStation qq) = true -> inTimePeriod qq = None ->
   service_filter_svc qq svc = Raise TypeError) /\
  (startStation qq = Some (atStation e0) -> atStation e0 <> EmptyString ->
   atTime e0 = None ->
   service_filter_svc qq svc = Raise TypeError).
Proof.
  intros Ees.
  assert (Hunf : service_filter_svc qq svc =
                 (s3 <- checkStartStationConstraint qq
                          (checkACConstraint qq
                             (checkDirectionConstraint qq
                                (set_events (set_svc_render svc true)
                                   (map (fun ev => set_ev_render ev true) (events svc))))) ;;
                  s4 <- checkEndStationConstraint qq s3 ;;
                  checkPassingThroughConstraint qq s4)).
  { unfold service_filter_svc. cbn [set_svc_render events]. rewrite Ees. reflexivity. }
  rewrite Hunf. clear Hunf.
  set (s2 := checkACConstraint qq _).
  assert (E2 : events s2 = map (fun ev => set_ev_render ev true) (events svc)).
  { unfold s2. rewrite checkACConstraint_events, checkDirectionConstraint_events.
    reflexivity. }
  split; [ | split].
  - intros lo hi Hp Hall.
    assert (Hall2 : forall s, events s = events s2 ->
                              events s <> [] /\ forall e, In e (events s) -> atTime e <> None).
    { intros s Es. rewrite Es, E2, Ees. split; [discriminate | ].
      rewrite <- Ees. intros e He. apply in_map_iff in He. destruct He as (e' & <- & He').
      exact (Hall e' He'). }
    destruct (Hall2 s2 eq_refl) as [Hn2 Ht2].
    destruct (checkStartStationConstraint_total qq lo hi s2 Hp Hn2 Ht2) as (s3 & E3).
    rewrite E3. cbn [bind].
    destruct (Hall2 s3 (checkStartStationConstraint_events qq s2 s3 E3)) as [Hn3 Ht3].
    destruct (checkEndStationConstraint_total qq lo hi s3 Hp Hn3 Ht3) as (s4 & E4).
    rewrite E4. cbn [bind].
    assert (E4' : events s4 = events s2).
    { rewrite (checkEndStationConstraint_events qq s3 s4 E4).
      exact (checkStartStationConstraint_events qq s2 s3 E3). }
    destruct (Hall2 s4 E4') as [_ Ht4].
    exact (checkPassingThroughConstraint_total qq lo hi s4 Hp Ht4).
  - intros Hs Hp. unfold checkStartStationConstraint.
    destruct (startStation qq) as [[ | c r] | ]; try discriminate Hs.
    rewrite E2, Ees. cbn [map py_first bind]. rewrite Hp. reflexivity.
  - intros Hs Hne Ht. unfold checkStartStationConstraint. rewrite Hs.
    destruct (atStation e0) as [ | c r] eqn:Est; [congruence | ].
    rewrite E2, Ees. cbn [map py_first bind set_ev_render atStation atTime].
    rewrite Est, Ht, String.eqb_refl.
    destruct (inTimePeriod qq) as [[lo hi] | ]; reflexivity.
Qed.

(** Trip 93001 under the sample query. *)
Lemma service_mode_returns_or_raises_witness :
  exists svc', service_filter_svc query_virar_dadar svc_93001 = Ok svc'.
Proof.
  destruct (service_mode_returns_or_raises query_virar_dadar svc_93001 _ _ eq_refl)
    as (H & _).
  apply (H 165 1605 eq_refl).
  intros e He. cbn in He.
  repeat (destruct He as [<- | He]; [discriminate | ]). contradiction.
Defined.

(** ** RAKELINK mode: when the pass returns and when it raises *)

Lemma mapM_all_ok {A B : Type} (f : A -> Py B) (xs : list A) :
  (forall x, In x xs -> exists y, f x = Ok y) -> exists ys, mapM f xs = Ok ys.
Proof.
  induction xs as [ | x r IH]; intros H.
  - exists []. reflexivity.
  - rewrite mapM_cons. destruct (H x (or_introl eq_refl)) as (y & ->). cbn [bind].
    destruct IH as (ys & ->); [intros z Hz; apply H; now right | ].
    eexists. reflexivity.
Qed.

Lemma mapM_raise {A B : Type} (f : A -> Py B) (err : PyErr) (xs : list A) :
  (forall x, In x xs -> (exists y, f x = Ok y) \/ f x = Raise err) ->
  (exists x, In x xs /\ f x = Raise err) ->
  mapM f xs = Raise err.
Proof.
  induction xs as [ | x r IH]; intros Hall (z & Hz & Ez); [contradiction | ].
  rewrite mapM_cons. destruct (Hall x (or_introl eq_refl)) as [(y & Ey) | Ey];
    rewrite Ey; [ | reflexivity].
  cbn [bind]. destruct Hz as [-> | Hz]; [congruence | ].
  rewrite IH; [reflexivity | intros w Hw; apply Hall; now right | exists z; auto].
Qed.

Lemma last_opt_py_last {A : Type} (xs : list A) :
  py_last xs = match last_opt xs with Some x => Ok x | None => Raise IndexError end.
Proof. rewrite py_last_rev. unfold last_opt. destruct (rev xs); reflexivity. Qed.

Lemma terminal_rc_returns (start end_ : option string) (rc : RakeCycle) :
  if terminals_present rc
  then exists rc', terminal_rc start end_ rc = Ok rc'
  else terminal_rc start end_ rc = Raise IndexError.
Proof.
  unfold terminals_present, terminal_rc. cbn [set_rc_render servicePath].
  destruct (servicePath rc) as [[ | s0 sp] | ]; cbn [path_truthy];
    try (eexists; reflexivity).
  cbn [py_first bind hd_error]. rewrite last_opt_py_last.
  destruct (last_opt (s0 :: sp)) as [sl | ] eqn:El.
  - destruct (events s0) as [ | e0 es0]; [reflexivity | ]. cbn [py_first bind].
    rewrite last_opt_py_last. unfold last_opt at 1.
    destruct (events sl) as [ | el esl] eqn:Esl; [reflexivity | ].
    destruct (exists_last (l := el :: esl) ltac:(discriminate)) as (pre & x & ->).
    rewrite rev_app_distr. cbn [rev app bind]. eexists. reflexivity.
  - exfalso. unfold last_opt in El.
    destruct (rev (s0 :: sp)) eqn:Er; [ | discriminate].
    apply (f_equal (@List.length Service)) in Er. rewrite length_rev in Er. discriminate Er.
Qed.

(** X4. RAKELINK mode raises nothing but [IndexError], and raises it
    exactly when some cycle has a non-empty path whose first service or
    last service has no events; the window and the other fields of the
    query play no part in it. *)
Theorem link_filter_returns_or_raises (wtt : TimeTable) (qq : FilterQuery) :
  if forallb terminals_present (rakecycles wtt)
  then exists wtt', apply_link_filters wtt qq = Ok wtt'
  else apply_link_filters wtt qq = Raise IndexError.
Proof.
  unfold apply_link_filters.
  destruct (forallb terminals_present (rakecycles wtt)) eqn:Hall.
  - rewrite forallb_forall in Hall.
    destruct (mapM_all_ok (terminal_rc (startStation qq) (endStation qq)) (rakecycles wtt))
      as (rcs1 & ->).
    + intros rc Hrc.
      pose proof (terminal_rc_returns (startStation qq) (endStation qq) rc) as H.
      rewrite (Hall rc Hrc) in H. exact H.
    + cbn [bind]. eexists. reflexivity.
  - rewrite (mapM_raise (terminal_rc (startStation qq) (endStation qq)) IndexError);
      [reflexivity | | ].
    + intros rc _.
      pose proof (terminal_rc_returns (startStation qq) (endStation qq) rc) as H.
      destruct (terminals_present rc); [left; exact H | right; exact H].
    + assert (Hex : existsb (fun rc => negb (terminals_present rc)) (rakecycles wtt) = true).
      { clear -Hall. induction (rakecycles wtt) as [ | rc r IH]; [discriminate | ].
        cbn [forallb existsb] in *. destruct (terminals_present rc); cbn in *; auto. }
      apply existsb_exists in Hex. destruct Hex as (rc & Hrc & Hn).
      exists rc. split; [exact Hrc | ].
      pose proof (terminal_rc_returns (startStation qq) (endStation qq) rc) as H.
      destruct (terminals_present rc); [discriminate | exact H].
Qed.

(** ** SERVICE mode over the whole timetable *)

Lemma check_keeps_or_hides_start (qq : FilterQuery) (svc svc' : Service) :
  checkStartStationConstraint qq svc = Ok svc' ->
  svc' = svc \/ svc' = set_svc_render svc false.
Proof.
  unfold checkStartStationConstraint.
  destruct (startStation qq) as [[ | c r] | ]; try (intros H; injection H as <-; now left).
  destruct (py_first (events svc)) as [e0 | ]; [ | discriminate]. cbn [bind].
  destruct (inTimePeriod qq) as [p | ]; [ | discriminate].
  destruct (String.eqb (atStation e0) (String c r)).
  - destruct (outside_window (Some p) (atTime e0)) as [[ | ] | ]; cbn [bind];
      try discriminate; intros H; injection H as <-; auto.
  - intros H; injection H as <-; auto.
Qed.

Lemma check_keeps_or_hides_end (qq : FilterQuery) (svc svc' : Service) :
  checkEndStationConstraint qq svc = Ok svc' ->
  svc' = svc \/ svc' = set_svc_render svc false.
Proof.
  unfold checkEndStationConstraint.
  destruct (endStation qq) as [[ | c r] | ]; try (intros H; injection H as <-; now left).
  destruct (py_last (events svc)) as [e0 | ]; [ | discriminate]. cbn [bind].
  destruct (inTimePeriod qq) as [p | ]; [ | discriminate].
  destruct (String.eqb (atStation e0) (String c r)).
  - destruct (outside_window (Some p) (atTime e0)) as [[ | ] | ]; cbn [bind];
      try discriminate; intros H; injection H as <-; auto.
  - intros H; injection H as <-; auto.
Qed.

Lemma passing_loop_keeps_or_hides (qq : FilterQuery)
    (m : dict (K:=string) (V:=list (option Q))) (stns : list string) (svc svc' : Service) :
  passing_loop qq m stns svc = Ok svc' ->
  svc' = svc \/ svc' = set_svc_render svc false.
Proof.
  induction stns as [ | st rest IH]; cbn [passing_loop].
  - intros H; injection H as <-; auto.
  - destruct (dict_get String.eqb m st) as [ts | ]; [ | intros H; injection H as <-; auto].
    destruct (py_last ts) as [t | ]; [ | discriminate]. cbn [bind].
    destruct (outside_window (inTimePeriod qq) t) as [[ | ] | ]; cbn [bind];
      try discriminate; [intros H; injection H as <-; auto | exact IH].
Qed.

Lemma check_keeps_or_hides_passing (qq : FilterQuery) (svc svc' : Service) :
  checkPassingThroughConstraint qq svc = Ok svc' ->
  svc' = svc \/ svc' = set_svc_render svc false.
Proof.
  unfold checkPassingThroughConstraint.
  destruct (map upper (passingThrough qq)) as [ | u us].
  - intros H; injection H as <-; auto.
  - apply passing_loop_keeps_or_hides.
Qed.

(** The pass over one service returns the service with its flags reset,
    up to its own flag. *)
Lemma service_filter_svc_shape (qq : FilterQuery) (svc svc' : Service) :
  service_filter_svc qq svc = Ok svc' ->
  svc' = set_svc_render (reset_svc svc) (svc_render svc').
Proof.
  unfold service_filter_svc, reset_svc. cbn [set_svc_render events].
  destruct (events svc) as [ | e0 es0] eqn:Ees.
  { intros H; injection H as <-. reflexivity. }
  rewrite <- Ees.
  set (s0 := set_events _ _).
  intros H.
  assert (Hcases : svc' = s0 \/ svc' = set_svc_render s0 false).
  { rewrite checkDirectionConstraint_eq, checkACConstraint_eq in H.
    set (s2 := if ac_allows _ _ then _ else _) in H.
    assert (H2 : s2 = s0 \/ s2 = set_svc_render s0 false).
    { unfold s2.
      destruct (direction_allows (inDirection qq) (direction s0));
        match goal with |- context [if ?b then _ else _] => destruct b end; auto. }
    destruct (checkStartStationConstraint qq s2) as [s3 | ] eqn:E3; [ | discriminate].
    cbn [bind] in H.
    destruct (checkEndStationConstraint qq s3) as [s4 | ] eqn:E4; [ | discriminate].
    cbn [bind] in H.
    apply check_keeps_or_hides_start in E3. apply check_keeps_or_hides_end in E4.
    apply check_keeps_or_hides_passing in H.
    destruct H2 as [-> | ->]; destruct E3 as [-> | ->]; destruct E4 as [-> | ->];
      destruct H as [-> | ->]; auto. }
  destruct Hcases as [-> | ->]; reflexivity.
Qed.

Lemma reset_events_twice (es : list StationEvent) :
  map (fun ev => set_ev_render ev true) (map (fun ev => set_ev_render ev true) es) =
  map (fun ev => set_ev_render ev true) es.
Proof. rewrite map_map. apply map_ext. intros ev. reflexivity. Qed.

(** The pass over one service does not read the flags. *)
Lemma service_filter_svc_reset (qq : FilterQuery) (svc : Service) (b : bool) :
  service_filter_svc qq (set_svc_render (reset_svc svc) b) = service_filter_svc qq svc.
Proof.
  unfold service_filter_svc, reset_svc. cbn [set_svc_render events].
  destruct (events svc) as [ | e0 es0] eqn:Ees.
  - cbn [set_svc_render events]. rewrite Ees. reflexivity.
  - cbn [set_svc_render set_events events].
    assert (E : map (fun ev => set_ev_render ev true) (e0 :: es0) <> []) by discriminate.
    destruct (map (fun ev => set_ev_render ev true) (e0 :: es0)) as [ | e1 es1] eqn:Em;
      [congruence | ].
    rewrite <- Em, reset_events_twice. reflexivity.
Qed.

Lemma service_filter_svc_again (qq : FilterQuery) (svc svc' : Service) :
  service_filter_svc qq svc = Ok svc' -> service_filter_svc qq svc' = Ok svc'.
Proof.
  intros H. rewrite (service_filter_svc_shape qq svc svc' H) at 1.
  rewrite service_filter_svc_reset. exact H.
Qed.

Lemma service_loop_spec (qq : FilterQuery) (refs : list Shared.Ref) :
  forall h h' : Shared.Store,
    Shared.service_loop qq refs h = Ok h' ->
    (forall r, In r refs -> service_filter_svc qq (h r) = Ok (h' r)) /\
    (forall r, ~ In r refs -> h' r = h r).
Proof.
  induction refs as [ | r0 rest IH]; intros h h' H; cbn [Shared.service_loop] in H.
  - injection H as <-. split; [intros r [] | reflexivity].
  - destruct (service_filter_svc qq (h r0)) as [s0 | ] eqn:E0; [ | discriminate].
    cbn [bind] in H. destruct (IH _ _ H) as [Hin Hout].
    assert (Hr0 : h' r0 = s0).
    { destruct (in_dec Nat.eq_dec r0 rest) as [Hi | Hn].
      - specialize (Hin r0 Hi). unfold Shared.store_set in Hin. rewrite Nat.eqb_refl in Hin.
        rewrite (service_filter_svc_again qq _ _ E0) in Hin. congruence.
      - rewrite (Hout r0 Hn). unfold Shared.store_set. rewrite Nat.eqb_refl. reflexivity. }
    split.
    + intros r Hr. destruct (Nat.eq_dec r r0) as [-> | Hne].
      * rewrite Hr0. exact E0.
      * destruct Hr as [-> | Hr]; [congruence | ].
        specialize (Hin r Hr). unfold Shared.store_set in Hin.
        apply Nat.eqb_neq in Hne. rewrite Hne in Hin. exact Hin.
    + intros r Hr. rewrite Hout by (intros Hx; apply Hr; now right).
      unfold Shared.store_set.
      destruct (Nat.eqb_spec r r0) as [-> | ]; [exfalso; apply Hr; now left | reflexivity].
Qed.

Lemma cycle_render_spec (h : Shared.Store) (rc : Shared.RakeCycle) :
  Shared.servicePath (Shared.cycle_render h rc) = Shared.servicePath rc /\
  Shared.rake (Shared.cycle_render h rc) = Shared.rake rc /\
  Shared.linkName (Shared.cycle_render h rc) = Shared.linkName rc /\
  (Shared.render (Shared.cycle_render h rc) = true <->
   exists sp r, Shared.servicePath rc = Some sp /\ In r sp /\ svc_render (h r) = true).
Proof.
  unfold Shared.cycle_render. cbn [Shared.set_render Shared.servicePath].
  destruct (Shared.servicePath rc) as [[ | r0 sp] | ] eqn:Ep.
  - cbn [Shared.set_render Shared.servicePath Shared.rake Shared.linkName Shared.render].
    split; [exact Ep | ]. split; [reflexivity | ]. split; [reflexivity | ].
    split; [discriminate | ]. intros (sp & r & E & Hr & _).
    injection E as <-. contradiction.
  - destruct (existsb (fun r => svc_render (h r)) (r0 :: sp)) eqn:Ex;
      cbn [Shared.set_render Shared.servicePath Shared.rake Shared.linkName Shared.render].
    + split; [exact Ep | ]. split; [reflexivity | ]. split; [reflexivity | ].
      split; [ | reflexivity]. intros _.
      apply existsb_exists in Ex. destruct Ex as (r & Hr & Hv).
      exists (r0 :: sp), r. auto.
    + split; [exact Ep | ]. split; [reflexivity | ]. split; [reflexivity | ].
      split; [discriminate | ]. intros (sp' & r & E & Hr & Hv). injection E as <-.
      assert (Hx : existsb (fun r => svc_render (h r)) (r0 :: sp) = true).
      { apply existsb_exists. exists r. auto. }
      congruence.
  - cbn [Shared.set_render Shared.servicePath Shared.rake Shared.linkName Shared.render].
    split; [exact Ep | ]. split; [reflexivity | ]. split; [reflexivity | ].
    split; [discriminate | ]. intros (sp & r & E & _). discriminate E.
Qed.

(** X5. SERVICE mode over a timetable whose paths share the objects of
    the suburban services, with a window set.  A suburban service ends up
    visible exactly under the conditions of SERVICE-mode visibility, a
    service outside the suburban list is left as it was, and a cycle
    ends up visible exactly when some service on its path is visible
    after the pass; so a cycle whose path is made of suburban services is
    visible exactly when one of them satisfies the query. *)
Theorem service_mode_cycles (wtt wtt' : Shared.TimeTable) (qq : FilterQuery) (lo hi : Z) :
  inTimePeriod qq = Some (lo, hi) ->
  Shared.apply_service_filters wtt qq = Ok wtt' ->
  (forall r, In r (Shared.suburbanServices wtt) ->
     (svc_render (Shared.store wtt' r) = true <->
      service_visible qq lo hi (Shared.store wtt r))) /\
  (forall r, ~ In r (Shared.suburbanServices wtt) ->
     Shared.store wtt' r = Shared.store wtt r) /\
  List.length (Shared.rakecycles wtt') = List.length (Shared.rakecycles wtt) /\
  forall (i : nat) (rc rc' : Shared.RakeCycle),
    nth_error (Shared.rakecycles wtt) i = Some rc ->
    nth_error (Shared.rakecycles wtt') i = Some rc' ->
    (Shared.render rc' = true <->
     exists sp r, Shared.servicePath rc = Some sp /\ In r sp /\
                  svc_render (Shared.store wtt' r) = true) /\
    ((forall sp r, Shared.servicePath rc = Some sp -> In r sp ->
                   In r (Shared.suburbanServices wtt)) ->
     (Shared.render rc' = true <->
      exists sp r, Shared.servicePath rc = Some sp /\ In r sp /\
                   service_visible qq lo hi (Shared.store wtt r))).
Proof.
  intros Hp H. unfold Shared.apply_service_filters in H.
  destruct (Shared.service_loop qq (Shared.suburbanServices wtt) (Shared.store wtt))
    as [h | ] eqn:El; [ | discriminate].
  cbn [bind] in H. injection H as <-.
  cbn [Shared.set_state Shared.store Shared.rakecycles].
  destruct (service_loop_spec qq _ _ _ El) as [Hin Hout].
  assert (Hvis : forall r, In r (Shared.suburbanServices wtt) ->
                  (svc_render (h r) = true <-> service_visible qq lo hi (Shared.store wtt r))).
  { intros r Hr. exact (proj1 (service_filter_svc_spec qq lo hi _ _ Hp (Hin r Hr))). }
  split; [exact Hvis | ]. split; [exact Hout | ]. split; [apply length_map | ].
  intros i rc rc' Hi Hi'.
  rewrite nth_error_map, Hi in Hi'. cbn in Hi'. injection Hi' as <-.
  destruct (cycle_render_spec h rc) as (_ & _ & _ & Hr).
  split; [exact Hr | ]. intros Hsub. rewrite Hr.
  split; intros (sp & r & E & Hrin & Hv); exists sp, r; (split; [exact E | ]);
    (split; [exact Hrin | ]); apply (Hvis r (Hsub sp r E Hrin)); exact Hv.
Qed.

(** In the sample timetable trip 93001 satisfies the sample query and link
    [A] is visible. *)
Lemma service_mode_cycles_witness :
  exists wtt',
    Shared.apply_service_filters shared_wtt query_virar_dadar = Ok wtt' /\
    (svc_render (Shared.store wtt' 0%nat) = true <->
     service_visible query_virar_dadar 165 1605 svc_93001) /\
    map Shared.render (Shared.rakecycles wtt') = [true].
Proof.
  destruct (Shared.apply_service_filters shared_wtt query_virar_dadar) as [wtt' | e] eqn:E;
    [ | vm_compute in E; discriminate E].
  exists wtt'. split; [reflexivity | ].
  destruct (service_mode_cycles shared_wtt wtt' query_virar_dadar 165 1605 eq_refl E)
    as (Hv & _).
  split; [apply (Hv 0%nat); cbn; tauto | ].
  vm_compute in E. injection E as <-. reflexivity.
Defined.

(** ** Conversion of links to AC *)

Lemma store_set_same (h : Shared.Store) (r : Shared.Ref) (s : Service) :
  Shared.store_set h r s r = s.
Proof. unfold Shared.store_set. rewrite Nat.eqb_refl. reflexivity. Qed.

Lemma store_set_other (h : Shared.Store) (r r' : Shared.Ref) (s : Service) :
  r' <> r -> Shared.store_set h r s r' = h r'.
Proof. intros H. unfold Shared.store_set. apply Nat.eqb_neq in H. rewrite H. reflexivity. Qed.

Lemma convert_path_spec (sp : list Shared.Ref) :
  forall (h : Shared.Store) (r : Shared.Ref),
    Shared.convert_path sp h r =
    if existsb (Nat.eqb r) sp then set_needsACRake (h r) true else h r.
Proof.
  unfold Shared.convert_path.
  induction sp as [ | r0 sp IH]; intros h r; cbn [fold_left existsb]; [reflexivity | ].
  rewrite IH. destruct (Nat.eqb_spec r r0) as [-> | Hne]; cbn [orb].
  - rewrite store_set_same. destruct (existsb (Nat.eqb r0) sp); reflexivity.
  - rewrite (store_set_other _ _ _ _ Hne). reflexivity.
Qed.

Lemma with_AC_rake_already (rc : Shared.RakeCycle) :
  has_AC_rake rc = true -> with_AC_rake rc = rc.
Proof.
  unfold has_AC_rake, with_AC_rake, Shared.set_rake. destruct rc as [[rk | ] nm sp rd]; cbn.
  - intros H. destruct rk as [i a n]. cbn in *. subst a. reflexivity.
  - discriminate.
Qed.

Lemma convert_loop_spec (names : list string) (rcs : list Shared.RakeCycle) :
  forall (h : Shared.Store) (out : list Shared.RakeCycle) (conv : list string)
         (h' : Shared.Store) (out' : list Shared.RakeCycle) (conv' : list string),
    forM (Shared.convert_step names) rcs (h, out, conv) = Ok (h', out', conv') ->
    out' = out ++ map (fun rc => if str_mem (Shared.linkName rc) names
                                 then with_AC_rake rc else rc) rcs /\
    conv' = conv ++ map Shared.linkName (filter (to_convert names) rcs) /\
    forall r, h' r = if on_converted_path names rcs r
                     then set_needsACRake (h r) true else h r.
Proof.
  induction rcs as [ | rc rest IH]; intros h out conv h' out' conv' H.
  - cbn in H. injection H as <- <- <-. cbn. rewrite !app_nil_r. auto.
  - cbn [forM] in H. unfold Shared.convert_step at 1 in H.
    fold (has_AC_rake rc) in H.
    unfold on_converted_path. cbn [map filter existsb].
    fold (on_converted_path names rest).
    destruct (str_mem (Shared.linkName rc) names) eqn:Em.
    + destruct (has_AC_rake rc) eqn:Eac.
      * assert (Etc : to_convert names rc = false)
          by (unfold to_convert; rewrite Em, Eac; reflexivity).
        rewrite Etc. cbn [andb orb].
        cbn [bind] in H. destruct (IH _ _ _ _ _ _ H) as (-> & -> & Hs).
        rewrite (with_AC_rake_already rc Eac), <- app_assoc. auto.
      * assert (Etc : to_convert names rc = true)
          by (unfold to_convert; rewrite Em, Eac; reflexivity).
        rewrite Etc. cbn [andb orb map].
        destruct (Shared.servicePath rc) as [sp | ] eqn:Ep; [ | discriminate].
        cbn [bind] in H. destruct (IH _ _ _ _ _ _ H) as (-> & -> & Hs).
        rewrite <- !app_assoc. cbn [app].
        split; [ | split; [reflexivity | ]].
        -- f_equal. f_equal. unfold with_AC_rake.
           destruct (Shared.rake rc) as [rk | ] eqn:Er; cbn [option_map]; [reflexivity | ].
           unfold Shared.set_rake. destruct rc; cbn in *. subst. reflexivity.
        -- intros r. rewrite Hs, convert_path_spec.
           unfold Shared.path_or_empty at 1. rewrite Ep. unfold on_converted_path.
           destruct (existsb (Nat.eqb r) sp); cbn [orb];
             destruct (existsb _ rest); reflexivity.
    + assert (Etc : to_convert names rc = false)
        by (unfold to_convert; rewrite Em; reflexivity).
      rewrite Etc. cbn [andb orb].
      cbn [bind] in H. destruct (IH _ _ _ _ _ _ H) as (-> & -> & Hs).
      rewrite <- app_assoc. auto.
Qed.

Lemma convert_to_ac_spec (wtt wtt' : Shared.TimeTable) (names links : list string)
    (n : Z) :
  Shared.convert_to_ac wtt names = Ok (wtt', (n, links)) ->
  links = map Shared.linkName (filter (to_convert names) (Shared.rakecycles wtt)) /\
  n = Z.of_nat (List.length links) /\
  Shared.rakecycles wtt' =
    map (fun rc => if str_mem (Shared.linkName rc) names then with_AC_rake rc else rc)
        (Shared.rakecycles wtt) /\
  (forall r, Shared.store wtt' r =
             if on_converted_path names (Shared.rakecycles wtt) r
             then set_needsACRake (Shared.store wtt r) true
             else Shared.store wtt r) /\
  Shared.suburbanServices wtt' = Shared.suburbanServices wtt /\
  Shared.originalACStates wtt' = Shared.originalACStates wtt.
Proof.
  unfold Shared.convert_to_ac. destruct names as [ | nm names'].
  - intros H. injection H as <- <- <-.
    assert (Hf : forall rcs, filter (to_convert []) rcs = []).
    { induction rcs as [ | rc r IH]; [reflexivity | exact IH]. }
    assert (Hp : forall rcs r, on_converted_path [] rcs r = false).
    { induction rcs as [ | rc r IH]; intros x; [reflexivity | exact (IH x)]. }
    rewrite Hf. split; [reflexivity | ]. split; [reflexivity | ].
    split; [symmetry; apply map_id | ].
    split; [intros r; rewrite Hp; reflexivity | ]. auto.
  - set (names := nm :: names'). intros H.
    destruct (forM (Shared.convert_step names) (Shared.rakecycles wtt)
                (Shared.store wtt, [], [])) as [[[h out] conv] | ] eqn:E; [ | discriminate].
    cbn [bind] in H. injection H as <- <- <-.
    destruct (convert_loop_spec names _ _ _ _ _ _ _ E) as (-> & -> & Hs).
    cbn [Shared.set_state Shared.store Shared.rakecycles Shared.suburbanServices
         Shared.originalACStates app].
    auto 7.
Qed.

(** X6. The effect of a conversion that returns.  The summary names, in
    order, the named cycles that did not have an AC rake, and counts them.
    Every named cycle that has a rake has an AC rake afterwards, and
    nothing else changes in the cycles.  A service on the path of a cycle
    in the summary requires AC afterwards and is otherwise as before;
    every other service is untouched, also one on the path of a named
    cycle whose rake was AC already. *)
Theorem convert_to_ac_effect (wtt wtt' : Shared.TimeTable) (names links : list string)
    (n : Z) :
  Shared.convert_to_ac wtt names = Ok (wtt', (n, links)) ->
  links = map Shared.linkName (filter (to_convert names) (Shared.rakecycles wtt)) /\
  n = Z.of_nat (List.length links) /\
  Shared.rakecycles wtt' =
    map (fun rc => if str_mem (Shared.linkName rc) names then with_AC_rake rc else rc)
        (Shared.rakecycles wtt) /\
  (forall r, Shared.store wtt' r =
             if on_converted_path names (Shared.rakecycles wtt) r
             then set_needsACRake (Shared.store wtt r) true
             else Shared.store wtt r) /\
  Shared.suburbanServices wtt' = Shared.suburbanServices wtt /\
  Shared.originalACStates wtt' = Shared.originalACStates wtt.
Proof. exact (convert_to_ac_spec wtt wtt' names links n). Qed.

(** Link [A] of the sample timetable is converted, and its two trips
    with it. *)
Lemma convert_to_ac_effect_witness :
  exists wtt',
    Shared.convert_to_ac shared_wtt ["A"] = Ok (wtt', (1, ["A"])) /\
    map has_AC_rake (Shared.rakecycles wtt') = [true] /\
    map (fun r => needsACRake (Shared.store wtt' r)) [0; 1; 2]%nat = [true; true; false].
Proof.
  destruct (Shared.convert_to_ac shared_wtt ["A"]) as [[wtt' [n links]] | e] eqn:E;
    [ | vm_compute in E; discriminate E].
  destruct (convert_to_ac_effect _ _ _ _ _ E) as (Hl & Hn & Hc & Hs & _).
  exists wtt'. split; [rewrite Hn, Hl; reflexivity | ].
  split; [rewrite Hc; reflexivity | ].
  cbn [map]. rewrite !Hs. reflexivity.
Defined.

Lemma convert_loop_returns (names : list string) (rcs : list Shared.RakeCycle) :
  forall st : Shared.Store * list Shared.RakeCycle * list string,
    if convertible names rcs
    then exists st', forM (Shared.convert_step names) rcs st = Ok st'
    else forM (Shared.convert_step names) rcs st = Raise TypeError.
Proof.
  induction rcs as [ | rc rest IH]; intros [[h out] conv].
  - cbn. eexists. reflexivity.
  - cbn [forM convertible forallb]. fold (convertible names rest).
    unfold Shared.convert_step at 1 3. fold (has_AC_rake rc). unfold to_convert.
    destruct (str_mem (Shared.linkName rc) names); cbn [andb negb orb bind]; [ | apply IH].
    destruct (has_AC_rake rc); cbn [andb negb orb bind]; [apply IH | ].
    destruct (Shared.servicePath rc) as [sp | ]; cbn [andb negb orb bind];
      [apply IH | reflexivity].
Qed.

Lemma convert_to_ac_returns_or_raises_aux (wtt : Shared.TimeTable) (names : list string) :
  if convertible names (Shared.rakecycles wtt)
  then exists res, Shared.convert_to_ac wtt names = Ok res
  else Shared.convert_to_ac wtt names = Raise TypeError.
Proof.
  unfold Shared.convert_to_ac. destruct names as [ | nm names'].
  - assert (Hc : forall rcs, convertible [] rcs = true).
    { induction rcs as [ | rc r IH]; [reflexivity | exact IH]. }
    rewrite Hc. eexists. reflexivity.
  - pose proof (convert_loop_returns (nm :: names') (Shared.rakecycles wtt)
                  (Shared.store wtt, [], [])) as H.
    destruct (convertible (nm :: names') (Shared.rakecycles wtt)).
    + destruct H as ([[h out] conv] & ->). cbn [bind]. eexists. reflexivity.
    + rewrite H. reflexivity.
Qed.

(** X7. A conversion raises nothing but [TypeError], and raises it
    exactly when a named cycle without an AC rake has the path [None]. *)
Theorem convert_to_ac_returns_or_raises (wtt : Shared.TimeTable) (names : list string) :
  if convertible names (Shared.rakecycles wtt)
  then exists res, Shared.convert_to_ac wtt names = Ok res
  else Shared.convert_to_ac wtt names = Raise TypeError.
Proof. exact (convert_to_ac_returns_or_raises_aux wtt names). Qed.

Lemma to_convert_after (names : list string) (rc : Shared.RakeCycle) :
  to_convert names
    (if str_mem (Shared.linkName rc) names then with_AC_rake rc else rc) =
  named_without_rake names rc.
Proof.
  unfold named_without_rake.
  destruct (str_mem (Shared.linkName rc) names) eqn:Em; unfold to_convert.
  - unfold with_AC_rake at 1. cbn [Shared.set_rake Shared.linkName]. rewrite Em.
    unfold has_AC_rake, with_AC_rake. cbn [Shared.set_rake Shared.rake].
    destruct (Shared.rake rc); reflexivity.
  - rewrite Em. reflexivity.
Qed.

Lemma named_without_rake_to_convert (names : list string) (rc : Shared.RakeCycle) :
  named_without_rake names rc = true -> to_convert names rc = true.
Proof.
  unfold named_without_rake, to_convert, has_AC_rake.
  destruct (str_mem (Shared.linkName rc) names); [ | discriminate].
  destruct (Shared.rake rc); [discriminate | reflexivity].
Qed.

Lemma with_AC_rake_twice (names : list string) (rc : Shared.RakeCycle) :
  let f := fun rc => if str_mem (Shared.linkName rc) names then with_AC_rake rc else rc in
  f (f rc) = f rc.
Proof.
  cbn beta zeta. destruct (str_mem (Shared.linkName rc) names) eqn:Em; cbv iota.
  - change (Shared.linkName (with_AC_rake rc)) with (Shared.linkName rc). rewrite Em.
    unfold with_AC_rake, Shared.set_rake. cbn. destruct (Shared.rake rc); reflexivity.
  - rewrite Em. reflexivity.
Qed.

(** X8. A conversion that has returned can be repeated with the same
    names: the second call returns and changes nothing, and its summary
    names the named cycles that have no rake; so it reports no conversion
    when every named cycle has a rake. *)
Theorem convert_to_ac_again (wtt wtt1 : Shared.TimeTable) (names : list string)
    (res1 : Z * list string) :
  Shared.convert_to_ac wtt names = Ok (wtt1, res1) ->
  exists wtt2 links2,
    Shared.convert_to_ac wtt1 names = Ok (wtt2, (Z.of_nat (List.length links2), links2)) /\
    links2 = map Shared.linkName
               (filter (named_without_rake names) (Shared.rakecycles wtt)) /\
    Shared.rakecycles wtt2 = Shared.rakecycles wtt1 /\
    (forall r, Shared.store wtt2 r = Shared.store wtt1 r).
Proof.
  intros H1. destruct res1 as [n1 links1].
  destruct (convert_to_ac_spec _ _ _ _ _ H1) as (_ & _ & Hc1 & Hs1 & _).
  pose proof (convert_to_ac_returns_or_raises_aux wtt names) as Hr1.
  rewrite H1 in Hr1.
  destruct (convertible names (Shared.rakecycles wtt)) eqn:Hconv; [ | discriminate Hr1].
  clear Hr1.
  set (f := fun rc => if str_mem (Shared.linkName rc) names then with_AC_rake rc else rc) in *.
  assert (Hconv1 : convertible names (Shared.rakecycles wtt1) = true).
  { rewrite Hc1. unfold convertible in *. rewrite forallb_forall in *.
    intros rc1 Hin. apply in_map_iff in Hin. destruct Hin as (rc & <- & Hin).
    unfold f at 1. rewrite to_convert_after.
    destruct (named_without_rake names rc) eqn:En; [ | reflexivity].
    specialize (Hconv rc Hin). rewrite (named_without_rake_to_convert _ _ En) in Hconv.
    cbn [negb orb] in *.
    assert (Ep : Shared.servicePath (f rc) = Shared.servicePath rc).
    { unfold f. destruct (str_mem _ _); reflexivity. }
    rewrite Ep. exact Hconv. }
  pose proof (convert_to_ac_returns_or_raises_aux wtt1 names) as Hr2.
  rewrite Hconv1 in Hr2. destruct Hr2 as ([wtt2 [n2 links2]] & H2).
  destruct (convert_to_ac_spec _ _ _ _ _ H2) as (Hl2 & Hn2 & Hc2 & Hs2 & _).
  exists wtt2, links2. split; [rewrite H2, Hn2; reflexivity | ].
  assert (Hfilter : forall rcs,
             map Shared.linkName (filter (to_convert names) (map f rcs)) =
             map Shared.linkName (filter (named_without_rake names) rcs)).
  { induction rcs as [ | rc r IH]; [reflexivity | ].
    cbn [map filter]. unfold f at 1 2. rewrite to_convert_after.
    destruct (named_without_rake names rc); cbn [map]; rewrite IH; [ | reflexivity].
    f_equal. destruct (str_mem _ _); reflexivity. }
  split; [rewrite Hl2, Hc1; apply Hfilter | ].
  split.
  - rewrite Hc2, Hc1, map_map. apply map_ext. intros rc. apply (with_AC_rake_twice names rc).
  - intros r. rewrite Hs2.
    destruct (on_converted_path names (Shared.rakecycles wtt1) r) eqn:E2; [ | reflexivity].
    assert (E1 : on_converted_path names (Shared.rakecycles wtt) r = true).
    { unfold on_converted_path in *. rewrite Hc1 in E2.
      apply existsb_exists in E2. destruct E2 as (rc1 & Hin & Hx).
      apply in_map_iff in Hin. destruct Hin as (rc & <- & Hin).
      apply existsb_exists. exists rc. split; [exact Hin | ].
      apply andb_true_iff in Hx. destruct Hx as [Ht Hp].
      unfold f in Ht. rewrite to_convert_after in Ht.
      rewrite (named_without_rake_to_convert _ _ Ht). cbn [andb].
      assert (Ep : Shared.path_or_empty (f rc) = Shared.path_or_empty rc).
      { unfold f. destruct (str_mem _ _); reflexivity. }
      rewrite <- Ep. exact Hp. }
    rewrite Hs1, E1. reflexivity.
Qed.

(** Link [A] of the sample timetable has a rake: a second conversion
    reports nothing. *)
Lemma convert_to_ac_again_witness :
  exists wtt1 wtt2,
    Shared.convert_to_ac shared_wtt ["A"] = Ok (wtt1, (1, ["A"])) /\
    Shared.convert_to_ac wtt1 ["A"] = Ok (wtt2, (0, [])).
Proof.
  destruct (Shared.convert_to_ac shared_wtt ["A"]) as [[wtt1 res1] | e] eqn:E;
    [ | vm_compute in E; discriminate E].
  destruct (convert_to_ac_again shared_wtt wtt1 ["A"] res1 E) as (wtt2 & links2 & H2 & Hl & _).
  exists wtt1, wtt2. split.
  - f_equal. f_equal. vm_compute in E. injection E as _ <-. reflexivity.
  - rewrite H2, Hl. reflexivity.
Defined.

(** ** The stored AC states *)

Lemma dict_mem_set (d : dict (K:=string) (V:=bool)) (k k' : string) (v : bool) :
  dict_mem String.eqb (dict_set String.eqb d k v) k' =
  String.eqb k' k || dict_mem String.eqb d k'.
Proof.
  unfold dict_mem. rewrite (dict_get_set String.eqb String.eqb_eq).
  destruct (String.eqb k' k); reflexivity.
Qed.

Lemma store_path_spec (h : Shared.Store) (sp : list Shared.Ref) :
  forall o0 o : dict (K:=string) (V:=bool),
    forM (fun o r =>
            key <- Shared.svc_key (h r) ;;
            Ok (dict_set String.eqb o key (needsACRake (h r)))) sp o0 = Ok o ->
    (forall r, In r sp -> exists k, Shared.svc_key (h r) = Ok k) /\
    (forall k v, dict_get String.eqb o k = Some v ->
       dict_get String.eqb o0 k = Some v \/
       exists r, In r sp /\ Shared.svc_key (h r) = Ok k /\ needsACRake (h r) = v) /\
    (forall k, dict_mem String.eqb o0 k = true -> dict_mem String.eqb o k = true) /\
    (forall r k, In r sp -> Shared.svc_key (h r) = Ok k -> dict_mem String.eqb o k = true).
Proof.
  induction sp as [ | r0 sp IH]; intros o0 o H; cbn [forM] in H.
  - injection H as <-. split; [intros r [] | ]. split; [auto | ]. split; [auto | ].
    intros r k [].
  - destruct (Shared.svc_key (h r0)) as [k0 | ] eqn:Ek; [ | discriminate].
    cbn [bind] in H. destruct (IH _ _ H) as (H1 & H2 & H3 & H4).
    split; [ | split; [ | split]].
    + intros r [<- | Hr]; [eexists; exact Ek | exact (H1 r Hr)].
    + intros k v Hg. destruct (H2 k v Hg) as [Hg0 | (r & Hr & Hk & Hv)].
      * rewrite (dict_get_set String.eqb String.eqb_eq) in Hg0.
        destruct (String.eqb_spec k k0) as [-> | Hne]; [ | now left].
        injection Hg0 as <-. right. exists r0. split; [now left | auto].
      * right. exists r. split; [now right | auto].
    + intros k Hm. apply H3. rewrite dict_mem_set, Hm. apply orb_true_r.
    + intros r k [<- | Hr] Hk.
      * apply H3. rewrite dict_mem_set. rewrite Ek in Hk. injection Hk as <-.
        rewrite String.eqb_refl. reflexivity.
      * exact (H4 r k Hr Hk).
Qed.

Lemma store_loop_spec (h : Shared.Store) (rcs : list Shared.RakeCycle) :
  forall o0 o : dict (K:=string) (V:=bool),
    forM (Shared.store_step h) rcs o0 = Ok o ->
    (forall rc r, In rc rcs -> In r (Shared.path_or_empty rc) ->
                  exists k, Shared.svc_key (h r) = Ok k) /\
    (forall k v, dict_get String.eqb o k = Some v ->
       dict_get String.eqb o0 k = Some v \/ ac_source h rcs k v) /\
    (forall k, dict_mem String.eqb o0 k = true -> dict_mem String.eqb o k = true) /\
    (forall k v, ac_source h rcs k v -> dict_mem String.eqb o k = true).
Proof.
  induction rcs as [ | rc rest IH]; intros o0 o H; cbn [forM] in H.
  - injection H as <-. split; [intros rc r [] | ]. split; [auto | ]. split; [auto | ].
    intros k v [(rc & rk & [] & _) | (rc & r & [] & _)].
  - destruct (Shared.store_step h o0 rc) as [o1 | ] eqn:E1; [ | discriminate].
    cbn [bind] in H. destruct (IH _ _ H) as (H1 & H2 & H3 & H4).
    unfold Shared.store_step in E1.
    destruct (store_path_spec h _ _ _ E1) as (P1 & P2 & P3 & P4).
    split; [ | split; [ | split]].
    + intros rc' r [<- | Hin] Hr; [exact (P1 r Hr) | exact (H1 rc' r Hin Hr)].
    + intros k v Hg. destruct (H2 k v Hg) as [Hg1 | Hsrc].
      * destruct (P2 k v Hg1) as [Hg0 | (r & Hr & Hk & Hv)].
        -- destruct (Shared.rake rc) as [rk | ] eqn:Er; [ | now left].
           rewrite (dict_get_set String.eqb String.eqb_eq) in Hg0.
           destruct (String.eqb_spec k (Shared.linkName rc)) as [-> | Hne]; [ | now left].
           injection Hg0 as <-. right. left. exists rc, rk.
           split; [now left | auto].
        -- right. right. exists rc, r. split; [now left | auto].
      * right. destruct Hsrc as [(rc' & rk & Hin & Hx) | (rc' & r & Hin & Hx)].
        -- left. exists rc', rk. split; [now right | exact Hx].
        -- right. exists rc', r. split; [now right | exact Hx].
    + intros k Hm. apply H3, P3. destruct (Shared.rake rc); [ | exact Hm].
      rewrite dict_mem_set, Hm. apply orb_true_r.
    + intros k v [(rc' & rk & [<- | Hin] & Er & Hk & Hv) | (rc' & r & [<- | Hin] & Hr & Hk & Hv)].
      * apply H3, P3. rewrite Er, dict_mem_set, Hk, String.eqb_refl. reflexivity.
      * apply (H4 k v). left. exists rc', rk. auto.
      * apply H3. exact (P4 r k Hr Hk).
      * apply (H4 k v). right. exists rc', r. auto.
Qed.

(** What the stored dictionary holds when no key is ambiguous. *)
Lemma storeOriginalACStates_spec (wtt ws : Shared.TimeTable) :
  ac_keys_unambiguous wtt ->
  Shared.storeOriginalACStates wtt = Ok ws ->
  exists orig,
    Shared.originalACStates ws = Some orig /\
    Shared.store ws = Shared.store wtt /\
    Shared.rakecycles ws = Shared.rakecycles wtt /\
    Shared.suburbanServices ws = Shared.suburbanServices wtt /\
    (forall k v, ac_source (Shared.store wtt) (Shared.rakecycles wtt) k v ->
                 dict_get String.eqb orig k = Some v) /\
    (forall rc r, In rc (Shared.rakecycles wtt) -> In r (Shared.path_or_empty rc) ->
                  exists k, Shared.svc_key (Shared.store wtt r) = Ok k).
Proof.
  intros Hu H. unfold Shared.storeOriginalACStates in H.
  destruct (forM (Shared.store_step (Shared.store wtt)) (Shared.rakecycles wtt) [])
    as [orig | ] eqn:E; [ | discriminate].
  cbn [bind] in H. injection H as <-. exists orig.
  cbn [Shared.originalACStates Shared.store Shared.rakecycles Shared.suburbanServices].
  destruct (store_loop_spec _ _ _ _ E) as (H1 & H2 & _ & H4).
  split; [reflexivity | ]. split; [reflexivity | ]. split; [reflexivity | ].
  split; [reflexivity | ]. split; [ | exact H1].
  intros k v Hsrc. pose proof (H4 k v Hsrc) as Hm. unfold dict_mem in Hm.
  destruct (dict_get String.eqb orig k) as [v' | ] eqn:Eg; [ | discriminate].
  destruct (H2 k v' Eg) as [Hx | Hsrc']; [discriminate Hx | ].
  f_equal. exact (Hu k v' v Hsrc' Hsrc).
Qed.

Lemma reset_path_spec (orig : dict (K:=string) (V:=bool)) (want : Shared.Ref -> bool)
    (sp : list Shared.Ref) :
  forall h : Shared.Store,
    (forall r, In r sp ->
       exists k, Shared.svc_key (h r) = Ok k /\ dict_get String.eqb orig k = Some (want r)) ->
    exists h',
      forM (fun h r =>
              key <- Shared.svc_key (h r) ;;
              match dict_get String.eqb orig key with
              | Some b => Ok (Shared.store_set h r (set_needsACRake (h r) b))
              | None => Ok h
              end) sp h = Ok h' /\
      forall r, h' r = if existsb (Nat.eqb r) sp
                       then set_needsACRake (h r) (want r) else h r.
Proof.
  induction sp as [ | r0 sp IH]; intros h Hk.
  - exists h. split; reflexivity.
  - cbn [forM]. destruct (Hk r0 (or_introl eq_refl)) as (k0 & Ek & Eg).
    rewrite Ek. cbn [bind]. rewrite Eg. cbn [bind].
    destruct (IH (Shared.store_set h r0 (set_needsACRake (h r0) (want r0)))) as (h' & -> & Hs).
    { intros r Hr. destruct (Hk r (or_intror Hr)) as (k & Ek' & Eg').
      exists k. split; [ | exact Eg'].
      destruct (Nat.eq_dec r r0) as [-> | Hne].
      - rewrite store_set_same. exact Ek'.
      - rewrite (store_set_other _ _ _ _ Hne). exact Ek'. }
    exists h'. split; [reflexivity | ]. intros r. rewrite Hs. cbn [existsb].
    destruct (Nat.eqb_spec r r0) as [-> | Hne]; cbn [orb].
    + rewrite store_set_same. destruct (existsb (Nat.eqb r0) sp); reflexivity.
    + rewrite (store_set_other _ _ _ _ Hne). reflexivity.
Qed.

Lemma reset_loop_spec (orig : dict (K:=string) (V:=bool)) (want : Shared.Ref -> bool)
    (rcs1 : list Shared.RakeCycle) :
  forall (h : Shared.Store) (out : list Shared.RakeCycle),
    (forall rc r, In rc rcs1 -> In r (Shared.path_or_empty rc) ->
       exists k, Shared.svc_key (h r) = Ok k /\ dict_get String.eqb orig k = Some (want r)) ->
    exists h',
      forM (Shared.reset_step orig) rcs1 (h, out) =
        Ok (h', out ++ map (fun rc =>
                              match Shared.rake rc, dict_get String.eqb orig (Shared.linkName rc) with
                              | Some rk, Some b => Shared.set_rake rc (Some (set_isAC rk b))
                              | _, _ => rc
                              end) rcs1) /\
      forall r, h' r = if on_some_path rcs1 r
                       then set_needsACRake (h r) (want r) else h r.
Proof.
  induction rcs1 as [ | rc rest IH]; intros h out Hk.
  - exists h. cbn. rewrite app_nil_r. split; reflexivity.
  - cbn [forM]. unfold Shared.reset_step at 1. cbv beta iota zeta.
    destruct (reset_path_spec orig want (Shared.path_or_empty rc) h) as (h1 & -> & Hs1).
    { intros r Hr. exact (Hk rc r (or_introl eq_refl) Hr). }
    cbn [bind].
    match goal with
    | |- exists _, forM _ _ (_, ?o) = _ /\ _ => destruct (IH h1 o) as (h' & E & Hs)
    end.
    { intros rc' r Hin Hr. destruct (Hk rc' r (or_intror Hin) Hr) as (k & Ek & Eg).
      exists k. split; [ | exact Eg]. rewrite Hs1.
      destruct (existsb (Nat.eqb r) (Shared.path_or_empty rc)); exact Ek. }
    exists h'. split; [rewrite <- app_assoc in E; exact E | ].
    intros r. rewrite Hs, Hs1. unfold on_some_path. cbn [existsb].
    destruct (existsb (Nat.eqb r) (Shared.path_or_empty rc)); cbn [orb];
      destruct (existsb _ rest); reflexivity.
Qed.

Lemma resetACStates_spec (wtt ws wtt1 : Shared.TimeTable) :
  ac_keys_unambiguous wtt ->
  Shared.storeOriginalACStates wtt = Ok ws ->
  same_links wtt wtt1 ->
  Shared.originalACStates wtt1 = Shared.originalACStates ws ->
  exists wtt2,
    Shared.resetACStates wtt1 = Ok wtt2 /\
    Shared.rakecycles wtt2 =
      map (fun p => with_AC_of (fst p) (snd p))
          (combine (Shared.rakecycles wtt) (Shared.rakecycles wtt1)) /\
    (forall r, Shared.store wtt2 r =
               if on_some_path (Shared.rakecycles wtt) r
               then set_needsACRake (Shared.store wtt1 r) (needsACRake (Shared.store wtt r))
               else Shared.store wtt1 r) /\
    Shared.suburbanServices wtt2 = Shared.suburbanServices wtt1.
Proof.
  intros Hu Hst [Hcy Hid] Ho.
  destruct (storeOriginalACStates_spec wtt ws Hu Hst) as (orig & Eo & _ & _ & _ & Hget & Hkeys).
  unfold Shared.resetACStates. rewrite Ho, Eo.
  set (want := fun r => needsACRake (Shared.store wtt r)).
  assert (Hpaths : forall rc1 r, In rc1 (Shared.rakecycles wtt1) ->
                     In r (Shared.path_or_empty rc1) ->
                     exists rc, In rc (Shared.rakecycles wtt) /\ In r (Shared.path_or_empty rc)).
  { clear -Hcy. induction Hcy as [ | rc rc1' l l1 (_ & Hp & _) _ IH]; intros rc1 r Hin Hr.
    - destruct Hin.
    - destruct Hin as [<- | Hin].
      + exists rc. split; [now left | ]. unfold Shared.path_or_empty in *.
        rewrite <- Hp. exact Hr.
      + destruct (IH rc1 r Hin Hr) as (rc0 & Hin0 & Hr0).
        exists rc0. split; [now right | exact Hr0]. }
  destruct (reset_loop_spec orig want (Shared.rakecycles wtt1) (Shared.store wtt1) [])
    as (h' & -> & Hs).
  { intros rc1 r Hin Hr. destruct (Hpaths rc1 r Hin Hr) as (rc & Hin' & Hr').
    destruct (Hkeys rc r Hin' Hr') as (k & Ek). exists k. split.
    - unfold Shared.svc_key in *. rewrite Hid. exact Ek.
    - apply Hget. right. exists rc, r. auto. }
  cbn [bind fst snd app]. eexists. split; [reflexivity | ].
  cbn [Shared.set_state Shared.rakecycles Shared.store Shared.suburbanServices].
  split; [ | split; [ | reflexivity]].
  - assert (Hsrc : forall rc rk, In rc (Shared.rakecycles wtt) -> Shared.rake rc = Some rk ->
                     dict_get String.eqb orig (Shared.linkName rc) = Some (isAC rk)).
    { intros rc rk Hin Er. apply Hget. left. exists rc, rk. auto. }
    clear -Hcy Hsrc. revert Hsrc.
    induction Hcy as [ | rc rc1 l l1 (Hn & _ & Hr) _ IH]; intros Hsrc; [reflexivity | ].
    cbn [map combine fst snd]. rewrite IH by (intros rc' rk' Hin; apply Hsrc; now right).
    f_equal. unfold with_AC_of. rewrite Hn.
    destruct (Shared.rake rc1) as [rk1 | ] eqn:E1.
    + destruct (Shared.rake rc) as [rk | ] eqn:E.
      * rewrite (Hsrc rc rk (or_introl eq_refl) E). reflexivity.
      * exfalso. assert (Hx : Some rk1 = None) by (apply Hr; reflexivity). discriminate Hx.
    + destruct (Shared.rake rc); reflexivity.
  - intros r. rewrite Hs.
    assert (Hon : on_some_path (Shared.rakecycles wtt1) r = on_some_path (Shared.rakecycles wtt) r).
    { clear -Hcy. unfold on_some_path.
      induction Hcy as [ | rc rc1 l l1 (_ & Hp & _) _ IH]; [reflexivity | ].
      cbn [existsb]. rewrite IH. unfold Shared.path_or_empty. rewrite Hp. reflexivity. }
    rewrite Hon. reflexivity.
Qed.

(** X9. The stored AC states put back.  When no key of the stored
    dictionary stands for two different flags, a reset on a timetable
    with the same cycles and services returns; it gives the rake of every
    cycle the AC flag it had when the states were stored, gives every
    service on a path the AC requirement it had then, and changes
    nothing else. *)
Theorem resetACStates_restores (wtt ws wtt1 : Shared.TimeTable) :
  ac_keys_unambiguous wtt ->
  Shared.storeOriginalACStates wtt = Ok ws ->
  same_links wtt wtt1 ->
  Shared.originalACStates wtt1 = Shared.originalACStates ws ->
  exists wtt2,
    Shared.resetACStates wtt1 = Ok wtt2 /\
    Shared.rakecycles wtt2 =
      map (fun p => with_AC_of (fst p) (snd p))
          (combine (Shared.rakecycles wtt) (Shared.rakecycles wtt1)) /\
    (forall r, Shared.store wtt2 r =
               if on_some_path (Shared.rakecycles wtt) r
               then set_needsACRake (Shared.store wtt1 r) (needsACRake (Shared.store wtt r))
               else Shared.store wtt1 r) /\
    Shared.suburbanServices wtt2 = Shared.suburbanServices wtt1.
Proof. exact (resetACStates_spec wtt ws wtt1). Qed.

Lemma shared_wtt_unambiguous : ac_keys_unambiguous shared_wtt.
Proof.
  assert (H : forall k v,
             ac_source (Shared.store shared_wtt) (Shared.rakecycles shared_wtt) k v ->
             (k, v) = ("A", false) \/ (k, v) = ("svc_93001", false) \/
             (k, v) = ("svc_93002", true)).
  { intros k v [(rc & rk & [<- | []] & Er & <- & <-) | (rc & r & [<- | []] & Hr & Hk & <-)].
    - injection Er as <-. left. reflexivity.
    - destruct Hr as [<- | [<- | []]]; vm_compute in Hk; injection Hk as <-; auto. }
  intros k v v' Hs Hs'. apply H in Hs. apply H in Hs'.
  destruct Hs as [E | [E | E]]; destruct Hs' as [E' | [E' | E']]; congruence.
Qed.

Lemma same_links_refl (wtt wtt1 : Shared.TimeTable) :
  Shared.rakecycles wtt1 = Shared.rakecycles wtt ->
  Shared.store wtt1 = Shared.store wtt ->
  same_links wtt wtt1.
Proof.
  intros Hc Hs. split; [ | intros r; rewrite Hs; reflexivity].
  rewrite Hc. clear Hc Hs.
  induction (Shared.rakecycles wtt) as [ | rc l IH]; constructor.
  - split; [reflexivity | ]. split; [reflexivity | ]. reflexivity.
  - exact IH.
Qed.

(** The states of the sample timetable, stored and put back at once. *)
Lemma resetACStates_restores_witness :
  exists ws wtt2,
    Shared.storeOriginalACStates shared_wtt = Ok ws /\
    Shared.resetACStates ws = Ok wtt2 /\
    map has_AC_rake (Shared.rakecycles wtt2) = [false] /\
    map (fun r => needsACRake (Shared.store wtt2 r)) [0; 1; 2]%nat = [false; true; false].
Proof.
  destruct (Shared.storeOriginalACStates shared_wtt) as [ws | e] eqn:E;
    [ | vm_compute in E; discriminate E].
  assert (Hc : Shared.rakecycles ws = Shared.rakecycles shared_wtt /\
               Shared.store ws = Shared.store shared_wtt).
  { unfold Shared.storeOriginalACStates in E.
    destruct (forM _ _ _); [ | discriminate E]. cbn [bind] in E. injection E as <-.
    split; reflexivity. }
  destruct (resetACStates_restores shared_wtt ws ws shared_wtt_unambiguous E
              (same_links_refl _ _ (proj1 Hc) (proj2 Hc)) eq_refl)
    as (wtt2 & H2 & Hcy & Hst & _).
  exists ws, wtt2. split; [reflexivity | ]. split; [exact H2 | ].
  split; [rewrite Hcy, (proj1 Hc); reflexivity | ].
  cbn [map]. rewrite !Hst, (proj2 Hc). reflexivity.
Defined.

Lemma set_needsACRake_same (s : Service) : set_needsACRake s (needsACRake s) = s.
Proof. destruct s; reflexivity. Qed.

Lemma with_AC_of_converted (names : list string) (rc : Shared.RakeCycle) :
  with_AC_of rc (if str_mem (Shared.linkName rc) names then with_AC_rake rc else rc) = rc.
Proof.
  unfold with_AC_of, with_AC_rake.
  destruct rc as [[[i a n] | ] nm sp rd]; cbn;
    destruct (str_mem nm names); reflexivity.
Qed.

(** X10. Conversions undone.  When the AC states are stored with no
    ambiguous key and links are then converted to AC, the reset returns
    and gives back the timetable as it was stored: the same cycles with
    the same rakes, and every service as it was. *)
Theorem convert_then_reset (wtt ws wtt1 : Shared.TimeTable) (names : list string)
    (res : Z * list string) :
  ac_keys_unambiguous wtt ->
  Shared.storeOriginalACStates wtt = Ok ws ->
  Shared.convert_to_ac ws names = Ok (wtt1, res) ->
  exists wtt2,
    Shared.resetACStates wtt1 = Ok wtt2 /\
    Shared.rakecycles wtt2 = Shared.rakecycles wtt /\
    (forall r, Shared.store wtt2 r = Shared.store wtt r).
Proof.
  intros Hu Hst Hcv. destruct res as [n links].
  destruct (storeOriginalACStates_spec wtt ws Hu Hst) as (orig & _ & Es & Ec & _).
  destruct (convert_to_ac_spec _ _ _ _ _ Hcv) as (_ & _ & Hc1 & Hs1 & _ & Ho1).
  rewrite Ec in Hc1, Hs1. rewrite Es in Hs1.
  set (f := fun rc => if str_mem (Shared.linkName rc) names then with_AC_rake rc else rc) in *.
  assert (Hsame : same_links wtt wtt1).
  { split.
    - rewrite Hc1. clear. induction (Shared.rakecycles wtt) as [ | rc l IH]; constructor;
        [ | exact IH].
      unfold f, with_AC_rake. destruct (str_mem _ _); cbn; [ | tauto].
      split; [reflexivity | ]. split; [reflexivity | ].
      destruct (Shared.rake rc); cbn; split; intros H; try discriminate H; reflexivity.
    - intros r. rewrite Hs1. destruct (on_converted_path _ _ _); reflexivity. }
  destruct (resetACStates_spec wtt ws wtt1 Hu Hst Hsame Ho1) as (wtt2 & H2 & Hc2 & Hs2 & _).
  exists wtt2. split; [exact H2 | ]. split.
  - rewrite Hc2, Hc1. clear. induction (Shared.rakecycles wtt) as [ | rc l IH]; [reflexivity | ].
    cbn [map combine fst snd]. rewrite IH. f_equal. apply with_AC_of_converted.
  - intros r. rewrite Hs2, Hs1.
    destruct (on_some_path (Shared.rakecycles wtt) r) eqn:Ep.
    + destruct (on_converted_path names (Shared.rakecycles wtt) r).
      * destruct (Shared.store wtt r); reflexivity.
      * apply set_needsACRake_same.
    + destruct (on_converted_path names (Shared.rakecycles wtt) r) eqn:Eq; [ | reflexivity].
      exfalso. unfold on_converted_path, on_some_path in *.
      apply existsb_exists in Eq. destruct Eq as (rc & Hin & Hx).
      apply andb_true_iff in Hx. destruct Hx as [_ Hp].
      assert (Hy : existsb (fun rc => existsb (Nat.eqb r) (Shared.path_or_empty rc))
                     (Shared.rakecycles wtt) = true).
      { apply existsb_exists. exists rc. auto. }
      congruence.
Qed.

(** Link [A] of the sample timetable, converted and put back. *)
Lemma convert_then_reset_witness :
  exists ws wtt1 wtt2,
    Shared.storeOriginalACStates shared_wtt = Ok ws /\
    Shared.convert_to_ac ws ["A"] = Ok (wtt1, (1, ["A"])) /\
    Shared.resetACStates wtt1 = Ok wtt2 /\
    Shared.rakecycles wtt2 = Shared.rakecycles shared_wtt.
Proof.
  destruct (Shared.storeOriginalACStates shared_wtt) as [ws | e] eqn:E;
    [ | vm_compute in E; discriminate E].
  destruct (Shared.convert_to_ac ws ["A"]) as [[wtt1 res] | e] eqn:E1.
  - assert (Hres : res = (1, ["A"])).
    { unfold Shared.storeOriginalACStates in E.
      destruct (forM _ _ _); [ | discriminate E]. cbn [bind] in E. injection E as <-.
      vm_compute in E1. injection E1 as _ <-. reflexivity. }
    subst res.
    destruct (convert_then_reset shared_wtt ws wtt1 ["A"] _ shared_wtt_unambiguous E E1)
      as (wtt2 & H2 & Hc & _).
    exists ws, wtt1, wtt2. split; [reflexivity | ]. split; [exact E1 | ].
    split; assumption.
  - exfalso. unfold Shared.storeOriginalACStates in E.
    destruct (forM _ _ _); [ | discriminate E]. cbn [bind] in E. injection E as <-.
    vm_compute in E1. discriminate E1.
Defined.

(** ** The filter tabs *)

Lemma FilterType_eqb_refl (t : FilterType) : FilterType_eqb t t = true.
Proof. destruct t; reflexivity. Qed.

(** X11. Leaving a tab and coming back.  From a query with a filter type,
    switching to any tab (also an unknown one) and then to the tab of
    that type gives back the query as it was.  The AC constraint is not
    part of what is saved: it goes along to the other tab; and a tab
    with nothing saved yet gets no stations, no direction and the default
    window. *)
Theorem switch_filter_mode_round_trip (g : Gardi) (t : FilterType) (active_tab : string) :
  type (query g) = Some t ->
  query (switch_filter_mode (switch_filter_mode g active_tab) (tab_of t)) = query g /\
  ac (query (switch_filter_mode g active_tab)) = ac (query g) /\
  (forall t', t' <> t -> filterStates g t' = None ->
     query (switch_filter_mode g (tab_of t')) =
     {| type := Some t'; startStation := None; endStation := None;
        passingThrough := []; inTimePeriod := Some (165, 1605);
        ac := ac (query g); inDirection := None |}).
Proof.
  intros Ht. split; [ | split].
  - destruct g as [[ty st en pt tp a dr] fs]. cbn in Ht. subst ty.
    unfold switch_filter_mode. cbn [query type startStation endStation passingThrough
                                     inTimePeriod ac inDirection filterStates].
    set (ty1 := if String.eqb active_tab "tab-rakelink" then Some RAKELINK
                else if String.eqb active_tab "tab-service" then Some SERVICE
                else if String.eqb active_tab "tab-station" then Some STATION
                else Some t).
    assert (H1 : exists t1, ty1 = Some t1).
    { unfold ty1. repeat match goal with |- context [if ?b then _ else _] => destruct b end;
        eexists; reflexivity. }
    destruct H1 as (t1 & ->).
    assert (Htab : (if String.eqb (tab_of t) "tab-rakelink" then Some RAKELINK
                    else if String.eqb (tab_of t) "tab-service" then Some SERVICE
                    else if String.eqb (tab_of t) "tab-station" then Some STATION
                    else Some t1) = Some t).
    { destruct t; reflexivity. }
    rewrite Htab.
    destruct (FilterType_eqb t t1) eqn:E.
    + assert (t = t1) by (destruct t, t1; try discriminate E; reflexivity). subst t1.
      rewrite (FilterType_eqb_refl t). reflexivity.
    + rewrite (FilterType_eqb_refl t). reflexivity.
  - reflexivity.
  - intros t' Hne Hs. destruct g as [[ty st en pt tp a dr] fs]. cbn in Ht, Hs. subst ty.
    unfold switch_filter_mode. cbn [query type startStation endStation passingThrough
                                     inTimePeriod ac inDirection filterStates].
    assert (Htab : (if String.eqb (tab_of t') "tab-rakelink" then Some RAKELINK
                    else if String.eqb (tab_of t') "tab-service" then Some SERVICE
                    else if String.eqb (tab_of t') "tab-station" then Some STATION
                    else Some t) = Some t').
    { destruct t'; reflexivity. }
    rewrite Htab.
    assert (E : FilterType_eqb t' t = false) by (destruct t', t; try reflexivity; congruence).
    rewrite E, Hs. reflexivity.
Qed.

(** From the SERVICE tab with the sample query to the STATION tab and
    back. *)
Lemma switch_filter_mode_round_trip_witness :
  query (switch_filter_mode (switch_filter_mode gardi_on_service "tab-station") "tab-service")
  = query_virar_dadar /\
  passingThrough (query (switch_filter_mode gardi_on_service "tab-station")) = [].
Proof.
  destruct (switch_filter_mode_round_trip gardi_on_service SERVICE "tab-station" eq_refl)
    as (H & _ & Hd).
  split; [exact H | ].
  change "tab-station" with (tab_of STATION).
  rewrite (Hd STATION ltac:(discriminate) eq_refl). reflexivity.
Defined.

(** ** Widening the time window *)

Lemma inside_wider (lo hi lo' hi' : Z) (t : Q) :
  lo' <= lo -> hi <= hi' -> inside lo hi t -> inside lo' hi' t.
Proof.
  intros Hlo Hhi [H1 H2]. split.
  - apply Qle_trans with (inject_Z lo); [ | exact H1].
    rewrite <- Zle_Qle. exact Hlo.
  - apply Qle_trans with (inject_Z hi); [exact H2 | ].
    rewrite <- Zle_Qle. exact Hhi.
Qed.

Lemma terminal_ok_wider (lo hi lo' hi' : Z) (c : option string) (e : option StationEvent) :
  lo' <= lo -> hi <= hi' -> terminal_ok lo hi c e -> terminal_ok lo' hi' c e.
Proof.
  intros Hlo Hhi. unfold terminal_ok. destruct c as [[ | a r] | ]; auto.
  intros (ev & t & H1 & H2 & H3 & H4). exists ev, t.
  split; [exact H1 | ]. split; [exact H2 | ]. split; [exact H3 | ].
  exact (inside_wider _ _ _ _ _ Hlo Hhi H4).
Qed.

Lemma service_visible_wider (qq : FilterQuery) (lo hi lo' hi' : Z) (svc : Service) :
  lo' <= lo -> hi <= hi' ->
  service_visible qq lo hi svc ->
  service_visible (set_inTimePeriod qq (Some (lo', hi'))) lo' hi' svc.
Proof.
  intros Hlo Hhi (H1 & H2 & H3 & H4 & H5 & H6). unfold service_visible.
  cbn [set_inTimePeriod inDirection ac startStation endStation passingThrough].
  split; [exact H1 | ]. split; [exact H2 | ]. split; [exact H3 | ].
  split; [exact (terminal_ok_wider _ _ _ _ _ _ Hlo Hhi H4) | ].
  split; [exact (terminal_ok_wider _ _ _ _ _ _ Hlo Hhi H5) | ].
  eapply Forall_impl; [ | exact H6]. intros st (t & Ht & Hin).
  exists t. split; [exact Ht | exact (inside_wider _ _ _ _ _ Hlo Hhi Hin)].
Qed.

(** X12. SERVICE mode never hides a service because the window got
    wider: a service visible under a query is visible under the same
    query with a window that contains the first one. *)
Theorem service_window_monotone (qq : FilterQuery) (lo hi lo' hi' : Z)
    (svc svc1 svc2 : Service) :
  inTimePeriod qq = Some (lo, hi) ->
  lo' <= lo -> hi <= hi' ->
  service_filter_svc qq svc = Ok svc1 ->
  service_filter_svc (set_inTimePeriod qq (Some (lo', hi'))) svc = Ok svc2 ->
  svc_render svc1 = true -> svc_render svc2 = true.
Proof.
  intros Hp Hlo Hhi H1 H2 Hr.
  apply (proj1 (service_filter_svc_spec (set_inTimePeriod qq (Some (lo', hi'))) lo' hi'
                  svc svc2 eq_refl H2)).
  apply (service_visible_wider qq lo hi lo' hi' svc Hlo Hhi).
  apply (proj1 (service_filter_svc_spec _ lo hi _ _ Hp H1)). exact Hr.
Qed.

(** Trip 93001 under the sample query, with the window [[500, 600]] and
    with the default one. *)
Lemma service_window_monotone_witness :
  exists svc2,
    service_filter_svc query_virar_dadar svc_93001 = Ok svc2 /\ svc_render svc2 = true.
Proof.
  destruct (service_filter_svc (set_inTimePeriod query_virar_dadar (Some (500, 600))) svc_93001)
    as [svc1 | e] eqn:E1; [ | vm_compute in E1; discriminate E1].
  destruct (service_filter_svc query_virar_dadar svc_93001) as [svc2 | e] eqn:E2;
    [ | vm_compute in E2; discriminate E2].
  exists svc2. split; [reflexivity | ].
  apply (service_window_monotone (set_inTimePeriod query_virar_dadar (Some (500, 600)))
           500 600 165 1605 svc_93001 svc1 svc2 eq_refl ltac:(lia) ltac:(lia) E1 E2).
  vm_compute in E1. injection E1 as <-. reflexivity.
Defined.

Lemma link_visible_wider (qq : FilterQuery) (lo hi lo' hi' : Z) (rc : RakeCycle) :
  lo' <= lo -> hi <= hi' ->
  link_visible qq lo hi rc ->
  link_visible (set_inTimePeriod qq (Some (lo', hi'))) lo' hi' rc.
Proof.
  intros Hlo Hhi (sp & s0 & e0 & sl & el & H1 & H2 & H3 & H4 & H5 & H6 & H7 & H8 & H9).
  exists sp, s0, e0, sl, el.
  cbn [set_inTimePeriod startStation endStation passingThrough ac].
  split; [exact H1 | ]. split; [exact H2 | ]. split; [exact H3 | ]. split; [exact H4 | ].
  split; [exact H5 | ]. split; [exact H6 | ]. split; [exact H7 | ]. split; [ | exact H9].
  intros st Hst. destruct (H8 st Hst) as (e & He & Hne & Hu & t & Ht & Hin).
  exists e. split; [exact He | ]. split; [exact Hne | ]. split; [exact Hu | ].
  exists t. split; [exact Ht | exact (inside_wider _ _ _ _ _ Hlo Hhi Hin)].
Qed.

(** X13. RAKELINK mode never hides a cycle because the window got wider,
    for a query that names no passing-through station twice and events
    none of which is at minute 0. *)
Theorem link_window_monotone (wtt wtt1 wtt2 : TimeTable) (qq : FilterQuery)
    (lo hi lo' hi' : Z) :
  inTimePeriod qq = Some (lo, hi) ->
  lo' <= lo -> hi <= hi' ->
  NoDup (map upper (passingThrough qq)) ->
  (forall rc sp e t, In rc (rakecycles wtt) -> servicePath rc = Some sp ->
                     In e (flat_map events sp) -> atTime e = Some t -> ~ (t == 0)%Q) ->
  apply_link_filters wtt qq = Ok wtt1 ->
  apply_link_filters wtt (set_inTimePeriod qq (Some (lo', hi'))) = Ok wtt2 ->
  forall (i : nat) (rc1 rc2 : RakeCycle),
    nth_error (rakecycles wtt1) i = Some rc1 ->
    nth_error (rakecycles wtt2) i = Some rc2 ->
    rc_render rc1 = true -> rc_render rc2 = true.
Proof.
  intros Hp Hlo Hhi Hnd Hnz H1 H2 i rc1 rc2 Hi1 Hi2 Hr.
  destruct (link_filter_visibility wtt wtt1 qq lo hi Hp Hnd Hnz H1) as [Hl1 Hv1].
  destruct (link_filter_visibility wtt wtt2 (set_inTimePeriod qq (Some (lo', hi'))) lo' hi'
              eq_refl Hnd Hnz H2) as [Hl2 Hv2].
  destruct (nth_error (rakecycles wtt) i) as [rc | ] eqn:Ei.
  - apply (Hv2 i rc rc2 Ei Hi2).
    apply (link_visible_wider qq lo hi lo' hi' rc Hlo Hhi).
    apply (Hv1 i rc rc1 Ei Hi1). exact Hr.
  - exfalso. apply nth_error_None in Ei.
    assert (Hlt : (i < List.length (rakecycles wtt1))%nat).
    { apply nth_error_Some. rewrite Hi1. discriminate. }
    lia.
Qed.

(** Link [A] of the sample timetable, which starts at VIRAR and calls at
    DADAR between 09:10 and 09:12, with the window [[500, 600]] and with
    the default one. *)
Lemma link_window_monotone_witness :
  exists wtt2 rc2,
    apply_link_filters sample_wtt query_virar_dadar = Ok wtt2 /\
    nth_error (rakecycles wtt2) 0 = Some rc2 /\ rc_render rc2 = true.
Proof.
  destruct (apply_link_filters sample_wtt (set_inTimePeriod query_virar_dadar (Some (500, 600))))
    as [wtt1 | e] eqn:E1; [ | vm_compute in E1; discriminate E1].
  destruct (apply_link_filters sample_wtt query_virar_dadar) as [wtt2 | e] eqn:E2;
    [ | vm_compute in E2; discriminate E2].
  assert (Hnd : NoDup (map upper (passingThrough query_virar_dadar))).
  { cbn. constructor; [intros [] | constructor]. }
  assert (Hnz : forall rc sp e t,
             In rc (rakecycles sample_wtt) -> servicePath rc = Some sp ->
             In e (flat_map events sp) -> atTime e = Some t -> ~ (t == 0)%Q).
  { intros rc sp e t [<- | []] Hsp He Ht. cbn in Hsp. injection Hsp as <-.
    cbn [flat_map sample_chain events svc_93001 svc_93002 app] in He.
    repeat (destruct He as [<- | He];
            [vm_compute in Ht; injection Ht as <-; intros H; vm_compute in H; discriminate H | ]).
    destruct He. }
  assert (H1 : exists rc1, nth_error (rakecycles wtt1) 0 = Some rc1 /\ rc_render rc1 = true).
  { vm_compute in E1. injection E1 as <-. eexists. split; reflexivity. }
  assert (H2 : exists rc2, nth_error (rakecycles wtt2) 0 = Some rc2).
  { vm_compute in E2. injection E2 as <-. eexists. reflexivity. }
  destruct H1 as (rc1 & Hi1 & Hr1). destruct H2 as (rc2 & Hi2).
  exists wtt2, rc2. split; [reflexivity | ]. split; [exact Hi2 | ].
  exact (link_window_monotone sample_wtt wtt1 wtt2
           (set_inTimePeriod query_virar_dadar (Some (500, 600))) 500 600 165 1605
           eq_refl ltac:(lia) ltac:(lia) Hnd Hnz E1 E2 0%nat rc1 rc2 Hi1 Hi2 Hr1).
Defined.

(** ** The reset of the flags before a filter *)

Lemma station_filter_svc_reset (qq : FilterQuery) (lo hi : Z) (svc : Service) :
  station_filter_svc qq lo hi (reset_svc svc) = station_filter_svc qq lo hi svc.
Proof.
  unfold station_filter_svc, reset_svc. cbn [set_svc_render events].
  destruct (events svc) as [ | e0 es0] eqn:Ees.
  - cbn [set_svc_render events]. rewrite Ees. reflexivity.
  - cbn [set_svc_render set_events events map]. rewrite map_map. reflexivity.
Qed.

Lemma mapM_map {A B C : Type} (f : B -> Py C) (g : A -> B) (xs : list A) :
  mapM f (map g xs) = mapM (fun x => f (g x)) xs.
Proof.
  induction xs as [ | x r IH]; [reflexivity | ].
  cbn [map]. rewrite !mapM_cons, IH. reflexivity.
Qed.

Lemma mapM_ext {A B : Type} (f g : A -> Py B) (xs : list A) :
  (forall x, f x = g x) -> mapM f xs = mapM g xs.
Proof.
  intros H. induction xs as [ | x r IH]; [reflexivity | ].
  rewrite !mapM_cons, H, IH. reflexivity.
Qed.

(** X14. What the reset of all flags adds to a filter that follows it.
    In STATION mode nothing: the filter gives the same timetable with or
    without the reset; for the pass of SERVICE mode over a service
    likewise.  In RAKELINK mode the flags of the cycles are the same with
    or without it, and the suburban services keep the flags of the reset:
    the filter itself leaves them as they are. *)
Theorem filters_after_reset (wtt : TimeTable) (qq : FilterQuery) :
  apply_station_filters (reset_all_flags wtt) qq = apply_station_filters wtt qq /\
  (forall svc, service_filter_svc qq (reset_svc svc) = service_filter_svc qq svc) /\
  (forall wtt',
      apply_link_filters wtt qq = Ok wtt' ->
      suburbanServices wtt' = suburbanServices wtt /\
      apply_link_filters (reset_all_flags wtt) qq =
        Ok {| rakecycles := rakecycles wtt';
              suburbanServices := map reset_svc (suburbanServices wtt) |}).
Proof.
  split; [ | split].
  - unfold apply_station_filters, reset_all_flags. cbn [rakecycles suburbanServices].
    destruct (inTimePeriod qq) as [[lo hi] | ]; [ | reflexivity].
    f_equal. f_equal.
    + rewrite map_map. apply map_ext. intros rc. reflexivity.
    + rewrite map_map. apply map_ext. intros svc. apply station_filter_svc_reset.
  - intros svc.
    assert (E : reset_svc svc = set_svc_render (reset_svc svc) (svc_render (reset_svc svc))).
    { destruct (reset_svc svc); reflexivity. }
    rewrite E. apply service_filter_svc_reset.
  - intros wtt' H. unfold apply_link_filters in *.
    unfold reset_all_flags at 1. cbn [rakecycles suburbanServices].
    rewrite mapM_map.
    rewrite (mapM_ext _ (terminal_rc (startStation qq) (endStation qq)))
      by (intros rc; reflexivity).
    destruct (mapM (terminal_rc (startStation qq) (endStation qq)) (rakecycles wtt))
      as [rcs1 | ]; [ | discriminate H].
    cbn [bind] in *. injection H as <-. cbn [rakecycles suburbanServices].
    split; reflexivity.
Qed.

(** The sample timetable under the default query. *)
Lemma filters_after_reset_witness :
  exists wtt',
    apply_link_filters sample_wtt defaultQuery = Ok wtt' /\
    apply_link_filters (reset_all_flags sample_wtt) defaultQuery =
      Ok {| rakecycles := rakecycles wtt';
            suburbanServices := map reset_svc (suburbanServices sample_wtt) |}.
Proof.
  destruct (apply_link_filters sample_wtt defaultQuery) as [wtt' | e] eqn:E;
    [ | vm_compute in E; discriminate E].
  exists wtt'. split; [reflexivity | ].
  destruct (filters_after_reset sample_wtt defaultQuery) as (_ & _ & H).
  exact (proj2 (H wtt' E)).
Defined.

(** ** Stubs that a chain matches *)

Lemma forM_app {A S : Type} (body : S -> A -> Py S) (xs ys : list A) (st : S) :
  forM body (xs ++ ys) st = (st' <- forM body xs st ;; forM body ys st').
Proof.
  revert st. induction xs as [ | x r IH]; intros st; [reflexivity | ].
  cbn [app forM]. destruct (body st x) as [st1 | e]; cbn [bind]; [apply IH | reflexivity].
Qed.

Lemma match_steps_headed (rc : RakeCycle) (sid : SId) (ids : list SId)
    (chains : list (list Service)) :
  serviceIds rc = sid :: ids ->
  Forall chain_headed chains ->
  exists p, forM match_step chains rc = Ok (set_servicePath rc p).
Proof.
  intros Hids Hall. revert rc Hids.
  induction Hall as [ | path chains' (p0 & rest & pid & pids & -> & Hpid) _ IH];
    intros rc Hids.
  - exists (servicePath rc). destruct rc; reflexivity.
  - cbn [forM]. unfold match_step at 1. rewrite Hids. cbn [py_first bind].
    rewrite Hpid. cbn [py_first bind].
    destruct (String.eqb (str_of_sid sid) (str_of_sid pid)); cbn [bind].
    + destruct (IH (set_servicePath rc (Some (p0 :: rest))) Hids) as (p & ->).
      exists p. reflexivity.
    + exact (IH rc Hids).
Qed.

(** X15. A stub whose first declared identifier prints as the first
    identifier of a chain gets a chain as its path without any repair:
    the last chain that starts so (an integer identifier and a string
    identifier that print alike match each other).  Nothing else of the
    stub changes and the stub is not marked for removal. *)
Theorem resolve_matched_stub (suburban : list Service)
    (pre post : list (list Service)) (path : list Service)
    (rc : RakeCycle) (sid : SId) (ids : list SId) :
  serviceIds rc = sid :: ids ->
  Forall chain_headed pre ->
  starts_with sid path ->
  starts_no_chain sid post ->
  resolve_one suburban (pre ++ path :: post) rc =
    Ok (set_servicePath rc (Some path), false).
Proof.
  intros Hids Hpre (p0 & rest & pid & pids & -> & Hpid & Heq) Hpost.
  unfold resolve_one. rewrite forM_app.
  destruct (match_steps_headed rc sid ids pre Hids Hpre) as (p & ->). cbn [bind forM].
  unfold match_step at 1. cbn [set_servicePath serviceIds]. rewrite Hids.
  cbn [py_first bind]. rewrite Hpid. cbn [py_first bind].
  rewrite Heq, String.eqb_refl. cbn [bind].
  rewrite (match_steps_unmatched _ sid ids post); [ | exact Hids | exact Hpost].
  cbn [bind]. reflexivity.
Qed.

(** The stub of link [A] and the chain of the sample trips. *)
Lemma resolve_matched_stub_witness :
  resolve_one sample_services [sample_chain]
    (newRakeCycle "A" [IdInt 93001; IdInt 93002] []) = Ok (cycle_A, false).
Proof.
  apply (resolve_matched_stub sample_services [] [] sample_chain
           (newRakeCycle "A" [IdInt 93001; IdInt 93002] []) (IdInt 93001) [IdInt 93002]).
  - reflexivity.
  - constructor.
  - exists svc_93001, [svc_93002], (IdInt 93001), []. split; [reflexivity | ].
    split; reflexivity.
  - constructor.
Defined.

(** ** The validation of all cycles *)

Lemma has_chain_unique (rc : RakeCycle) (w w' : list SId) :
  has_chain rc w -> has_chain rc w' -> w = w'.
Proof. intros (sp & E & M & _) (sp' & E' & M' & _). congruence. Qed.

(** X16. The validation of a list of cycles whose paths are chains
    returns, and splits the list in two: the cycles it keeps are those
    whose declared identifiers diverge from the chain in a tolerated way
    only, and the conflict log holds every other cycle, paired with the
    identifiers of its chain; no cycle is lost or duplicated. *)
Theorem validateRakeCycles_partition (rcs : list RakeCycle) :
  Forall (fun rc => exists wtt, has_chain rc wtt) rcs ->
  exists kept conflicts,
    validateRakeCycles rcs = Ok (kept, conflicts) /\
    Forall tolerated kept /\
    Forall (fun c => ~ tolerated (fst c) /\ has_chain (fst c) (snd c)) conflicts /\
    (forall rc, In rc rcs <-> In rc kept \/ In rc (map fst conflicts)) /\
    (List.length kept + List.length conflicts = List.length rcs)%nat.
Proof.
  unfold validateRakeCycles.
  induction 1 as [ | rc rcs' (wtt & Hc) _ IH].
  - exists [], []. cbn. split; [reflexivity | ]. split; [constructor | ].
    split; [constructor | ]. split; [tauto | reflexivity].
  - destruct IH as (kept & conflicts & E & Hk & Hcf & Hin & Hlen).
    destruct (mapM (fun rc => r <- validate_one rc ;; Ok (rc, r)) rcs') as [rs | ] eqn:Em;
      [ | discriminate E].
    cbn [bind] in E. injection E as Ek Ec.
    rewrite mapM_cons.
    destruct Hc as (sp & Hsp & Hids & Hne).
    destruct (validate_one_tolerance rc sp wtt Hsp Hids Hne) as [[Htol ->] | [Hnt ->]];
      cbn [bind]; rewrite Em; cbn [bind flat_map fst snd app]; rewrite Ek, Ec.
    + exists (rc :: kept), conflicts. split; [reflexivity | ].
      split; [constructor; [exists wtt; split; [exists sp; auto | exact Htol] | exact Hk] | ].
      split; [exact Hcf | ]. split; [ | cbn [List.length]; lia].
      intros x. cbn [In]. rewrite Hin. tauto.
    + exists kept, ((rc, wtt) :: conflicts). split; [reflexivity | ].
      split; [exact Hk | ]. split.
      * constructor; [ | exact Hcf]. cbn [fst snd]. split; [ | exists sp; auto].
        intros (w' & Hc' & Ht'). apply Hnt.
        rewrite (has_chain_unique rc wtt w'); [exact Ht' | exists sp; auto | exact Hc'].
      * split; [ | cbn [List.length]; lia].
        intros x. cbn [In map fst]. rewrite Hin. tauto.
Qed.

(** Link [A] is kept, the link that declares trip 93099 is logged. *)
Lemma validateRakeCycles_partition_witness :
  validateRakeCycles [cycle_A; cycle_93099] =
    Ok ([cycle_A], [(cycle_93099, [IdInt 93001; IdInt 93002])]) /\
  tolerated cycle_A.
Proof.
  assert (Hch : forall rc, In rc [cycle_A; cycle_93099] ->
                           has_chain rc [IdInt 93001; IdInt 93002]).
  { intros rc [<- | [<- | []]]; exists sample_chain;
      (split; [reflexivity | split; [reflexivity | discriminate]]). }
  destruct (validateRakeCycles_partition [cycle_A; cycle_93099]) as
    (kept & conflicts & E & Hk & _).
  { constructor; [eexists; apply Hch; cbn; tauto | ].
    constructor; [eexists; apply Hch; cbn; tauto | constructor]. }
  assert (E' : validateRakeCycles [cycle_A; cycle_93099] =
               Ok ([cycle_A], [(cycle_93099, [IdInt 93001; IdInt 93002])]))
    by (vm_compute; reflexivity).
  split; [exact E' | ].
  rewrite E' in E. injection E as <- _. inversion Hk; assumption.
Defined.

(** ** The cycles after resolution and validation *)

Lemma mapM_Forall {A B : Type} (f : A -> Py B) (P : B -> Prop) (xs : list A) :
  (forall x y, In x xs -> f x = Ok y -> P y) ->
  forall ys, mapM f xs = Ok ys -> Forall P ys.
Proof.
  induction xs as [ | x r IH]; intros H ys E.
  - injection E as <-. constructor.
  - rewrite mapM_cons in E. destruct (f x) as [y | ] eqn:Ef; [ | discriminate].
    cbn [bind] in E. destruct (mapM f r) as [ys' | ] eqn:Er; [ | discriminate].
    cbn [bind] in E. injection E as <-. constructor.
    + exact (H x y (or_introl eq_refl) Ef).
    + apply IH; [ | reflexivity]. intros x' y' Hin. apply H. now right.
Qed.

Lemma lookup_path_length (all : dict (K:=string) (V:=Service)) (ids : list SId) :
  forall acc path : list Service,
    forM (fun path id =>
            match dict_get String.eqb all (str_of_sid id) with
            | None => Raise ValueError
            | Some svc => Ok (path ++ [svc])
            end) ids acc = Ok path ->
    List.length path = (List.length acc + List.length ids)%nat.
Proof.
  induction ids as [ | id r IH]; intros acc path H; cbn [forM] in H.
  - injection H as <-. cbn. lia.
  - destruct (dict_get String.eqb all (str_of_sid id)); [ | discriminate].
    cbn [bind] in H. rewrite (IH _ _ H), length_app. cbn. lia.
Qed.

Lemma fixPath_result (suburban : list Service) (rc rc2 : RakeCycle)
    (fixedPath : option (list Service)) :
  fixPath suburban rc = Ok (rc2, fixedPath) ->
  status rc2 = INVALID \/ fixedPath = None \/ path_truthy fixedPath = true.
Proof.
  unfold fixPath. destruct (serviceIds rc) as [ | sid ids] eqn:Hids; [discriminate | ].
  cbn [py_first bind].
  destruct (undefinedIds rc); [ | intros H; injection H as <- <-; now left].
  destruct (allServices_of suburban) as [all | ]; [ | discriminate]. cbn [bind].
  destruct (dict_get String.eqb all (str_of_sid sid)); [ | discriminate].
  destruct (existsb _ _); [ | intros H; injection H as <- <-; auto].
  destruct (forM _ (sid :: ids) []) as [path | ] eqn:Ef; [ | discriminate].
  cbn [bind]. intros H. injection H as <- <-. right. right.
  apply lookup_path_length in Ef. destruct path; [discriminate Ef | reflexivity].
Qed.

Lemma resolve_one_kept (suburban : list Service) (chains : list (list Service))
    (rc rc' : RakeCycle) :
  resolve_one suburban chains rc = Ok (rc', false) ->
  servicePath rc' = None \/ path_truthy (servicePath rc') = true.
Proof.
  unfold resolve_one. destruct (forM match_step chains rc) as [rc1 | ]; [ | discriminate].
  cbn [bind]. destruct (path_truthy (servicePath rc1)) eqn:Et.
  - intros H. injection H as <-. now right.
  - destruct (repair_log chains rc1); [ | discriminate]. cbn [bind].
    destruct (fixPath suburban rc1) as [[rc2 fp] | ] eqn:Ef; [ | discriminate].
    cbn [bind]. intros H. injection H as <- Hs. cbn [set_servicePath servicePath].
    destruct (fixPath_result _ _ _ _ Ef) as [Hi | [-> | Ht]]; auto.
    rewrite Hi in Hs. discriminate Hs.
Qed.

(** X17. The cycles that come out of the resolution of the stubs and of
    the validation, when both return, all have a path with at least one
    service: those kept and those in the conflict log. *)
Theorem reconciled_cycles_have_paths (suburban : list Service)
    (chains : list (list Service)) (rcs rcs1 kept : list RakeCycle)
    (conflicts : list (RakeCycle * list SId)) :
  resolveRakeCycles suburban chains rcs = Ok rcs1 ->
  validateRakeCycles rcs1 = Ok (kept, conflicts) ->
  Forall (fun rc => path_truthy (servicePath rc) = true) kept /\
  Forall (fun c => path_truthy (servicePath (fst c)) = true) conflicts.
Proof.
  intros Hres.
  assert (H1 : Forall (fun rc => servicePath rc = None \/
                                 path_truthy (servicePath rc) = true) rcs1).
  { unfold resolveRakeCycles in Hres.
    destruct (mapM _ chains); [ | discriminate]. cbn [bind] in Hres.
    destruct (mapM (resolve_one suburban chains) rcs) as [rs | ] eqn:Em; [ | discriminate].
    cbn [bind] in Hres. injection Hres as <-.
    assert (Hrs : Forall (fun x => snd x = false ->
                                   servicePath (fst x) = None \/
                                   path_truthy (servicePath (fst x)) = true) rs).
    { apply (mapM_Forall (resolve_one suburban chains) _ rcs); [ | exact Em].
      intros rc [rc' b] _ E Hb. cbn in Hb. subst b. exact (resolve_one_kept _ _ _ _ E). }
    clear Em. induction Hrs as [ | [rc' b] rs' Hx _ IH]; [constructor | ].
    cbn [filter snd]. destruct b; cbn [negb map fst]; [exact IH | ].
    constructor; [exact (Hx eq_refl) | exact IH]. }
  intros Hval. unfold validateRakeCycles in Hval.
  destruct (mapM (fun rc => r <- validate_one rc ;; Ok (rc, r)) rcs1) as [rs | ] eqn:Em;
    [ | discriminate].
  cbn [bind] in Hval. injection Hval as <- <-.
  assert (Hrs : Forall (fun x => path_truthy (servicePath (fst x)) = true) rs).
  { apply (mapM_Forall (fun rc => r <- validate_one rc ;; Ok (rc, r)) _ rcs1); [ | exact Em].
    intros rc [rc' r] Hin E. rewrite Forall_forall in H1.
    unfold validate_one in E. destruct (H1 rc Hin) as [Hn | Ht].
    - rewrite Hn in E. discriminate E.
    - destruct (validate_one rc) eqn:Ev; [ | unfold validate_one in Ev].
      + destruct (servicePath rc) eqn:Ep; [ | discriminate Ht].
        fold (validate_one rc) in E. unfold validate_one in Ev. rewrite Ep in Ev.
        rewrite Ev in E. cbn [bind] in E. injection E as <- _. cbn [fst]. rewrite Ep. exact Ht.
      + destruct (servicePath rc) eqn:Ep; [ | discriminate Ht].
        rewrite Ev in E. discriminate E. }
  clear Em. split.
  - induction Hrs as [ | [rc r] rs' Hx _ IH]; [constructor | ].
    cbn [flat_map snd fst]. destruct r; cbn [app]; [exact IH | constructor; assumption].
  - induction Hrs as [ | [rc r] rs' Hx _ IH]; [constructor | ].
    cbn [flat_map snd fst]. destruct r; cbn [app]; [constructor; assumption | exact IH].
Qed.

(** The stub of link [A] is matched and kept; the stub that declares an
    identifier absent from the grid is removed. *)
Lemma reconciled_cycles_have_paths_witness :
  resolveRakeCycles sample_services [sample_chain]
    [newRakeCycle "A" [IdInt 93001; IdInt 93002] []; cycle_undefined] = Ok [cycle_A] /\
  validateRakeCycles [cycle_A] = Ok ([cycle_A], []) /\
  Forall (fun rc => path_truthy (servicePath rc) = true) [cycle_A].
Proof.
  assert (E1 : resolveRakeCycles sample_services [sample_chain]
                 [newRakeCycle "A" [IdInt 93001; IdInt 93002] []; cycle_undefined]
               = Ok [cycle_A]) by (vm_compute; reflexivity).
  assert (E2 : validateRakeCycles [cycle_A] = Ok ([cycle_A], []))
    by (vm_compute; reflexivity).
  split; [exact E1 | ]. split; [exact E2 | ].
  exact (proj1 (reconciled_cycles_have_paths _ _ _ _ _ _ E1 E2)).
Defined.

(** ** Lengths of trips *)

Lemma Qabs_diff_triangle (a b c : Q) :
  (Qabs (a - c) <= Qabs (a - b) + Qabs (b - c))%Q.
Proof.
  assert (E : (a - c == (a - b) + (b - c))%Q) by ring.
  rewrite E. apply Qabs_triangle.
Qed.

Lemma Qabs_diff_le (a b : Q) : (a <= b)%Q -> (Qabs (a - b) == b - a)%Q.
Proof. intros H. rewrite Qabs_neg by lra. ring. Qed.

Lemma Qabs_diff_ge (a b : Q) : (b <= a)%Q -> (Qabs (a - b) == a - b)%Q.
Proof. intros H. rewrite Qabs_pos by lra. reflexivity. Qed.

Lemma last_opt_cons {A : Type} (x : A) (xs : list A) :
  last_opt (x :: xs) = match last_opt xs with Some y => Some y | None => Some x end.
Proof.
  unfold last_opt. cbn [rev]. destruct (rev xs) as [ | y r] eqn:E; reflexivity.
Qed.

Lemma length_loop_spec (es : list StationEvent) :
  forall (dprev l l' : Q),
    length_loop dprev l es = Length l' ->
    exists dl,
      match last_opt es with
      | Some el => distance_of (atStation el) = Some dl
      | None => dl = dprev
      end /\
      (l + Qabs (dprev - dl) <= l')%Q /\
      (forall away, heads_one_way away dprev es ->
         (if away then dprev <= dl else dl <= dprev)%Q /\
         (l' == l + Qabs (dprev - dl))%Q).
Proof.
  induction es as [ | e rest IH]; intros dprev l l' H; cbn [length_loop] in H.
  - injection H as <-. exists dprev. split; [reflexivity | ].
    assert (E0 : (Qabs (dprev - dprev) == 0)%Q).
    { rewrite Qabs_pos by lra. ring. }
    split; [rewrite E0; lra | ]. intros away _.
    split; [destruct away; lra | rewrite E0; ring].
  - destruct (distance_of (atStation e)) as [d | ] eqn:Ed; [ | discriminate].
    destruct (IH _ _ _ H) as (dl & Hlast & Hle & Hmono).
    exists dl. split; [ | split].
    + rewrite last_opt_cons. destruct (last_opt rest); [exact Hlast | ].
      subst dl. exact Ed.
    + pose proof (Qabs_diff_triangle dprev d dl). lra.
    + intros away (d' & Ed' & Hstep & Hrest). rewrite Ed in Ed'. injection Ed' as <-.
      destruct (Hmono away Hrest) as [Hdir Heq]. destruct away.
      * split; [lra | ]. rewrite Heq.
        rewrite (Qabs_diff_le dprev d), (Qabs_diff_le d dl), (Qabs_diff_le dprev dl) by lra.
        ring.
      * split; [lra | ]. rewrite Heq.
        rewrite (Qabs_diff_ge dprev d), (Qabs_diff_ge d dl), (Qabs_diff_ge dprev dl) by lra.
        ring.
Qed.

(** X18. The length of a trip is at least the distance between its first
    station and its last station, and it is exactly that distance when
    the stations of the trip lie ever farther from Churchgate, or ever
    nearer: two events at one station add nothing. *)
Theorem computeLengthKm_bounds (svc : Service) (l : Q) (e0 el : StationEvent) :
  computeLengthKm svc = Length l ->
  hd_error (events svc) = Some e0 ->
  last_opt (events svc) = Some el ->
  exists d0 dl,
    distance_of (atStation e0) = Some d0 /\
    distance_of (atStation el) = Some dl /\
    (Qabs (d0 - dl) <= l)%Q /\
    (forall away, heads_one_way away d0 (tl (events svc)) -> (l == Qabs (d0 - dl))%Q).
Proof.
  unfold computeLengthKm. destruct (events svc) as [ | e rest]; [discriminate | ].
  intros H Hhd Hlast. injection Hhd as <-. cbn [tl].
  destruct (distance_of (atStation e)) as [d0 | ] eqn:Ed; [ | discriminate].
  destruct (length_loop_spec rest d0 0 l H) as (dl & Hl & Hle & Hmono).
  exists d0, dl. split; [reflexivity | ]. split.
  - rewrite last_opt_cons in Hlast. destruct (last_opt rest) as [y | ].
    + injection Hlast as <-. exact Hl.
    + injection Hlast as <-. subst dl. exact Ed.
  - split; [lra | ]. intros away Hw. destruct (Hmono away Hw) as [_ Heq]. rewrite Heq. ring.
Qed.

(** Trip 93001 runs from VIRAR over DADAR to CHURCHGATE: 60 km. *)
Lemma computeLengthKm_bounds_witness :
  exists l, computeLengthKm svc_93001 = Length l /\ (l == 60)%Q.
Proof.
  destruct (computeLengthKm svc_93001) as [l | | st] eqn:E;
    [ | vm_compute in E; discriminate E | vm_compute in E; discriminate E].
  exists l. split; [reflexivity | ].
  destruct (computeLengthKm_bounds svc_93001 l _ _ E eq_refl eq_refl)
    as (d0 & dl & E0 & El & _ & Hmono).
  vm_compute in E0. injection E0 as <-. vm_compute in El. injection El as <-.
  rewrite (Hmono false); [reflexivity | ].
  cbn [tl events svc_93001 heads_one_way newStationEvent atStation].
  exists 11%Q. split; [reflexivity | ]. split; [unfold Qle; cbn; lia | ].
  exists 11%Q. split; [reflexivity | ]. split; [unfold Qle; cbn; lia | ].
  exists 0%Q. split; [reflexivity | ]. split; [unfold Qle; cbn; lia | exact I].
Defined.

Lemma length_loop_returns (es : list StationEvent) :
  forall dprev l : Q,
    (0 <= l)%Q ->
    match first_unknown es with
    | Some st => length_loop dprev l es = LengthKeyError st
    | None => exists l', length_loop dprev l es = Length l' /\ (0 <= l')%Q
    end.
Proof.
  induction es as [ | e rest IH]; intros dprev l Hl; cbn [first_unknown length_loop].
  - exists l. split; [reflexivity | exact Hl].
  - destruct (distance_of (atStation e)) as [d | ]; [ | reflexivity].
    apply IH. pose proof (Qabs_nonneg (dprev - d)). lra.
Qed.

(** X19. When the length is computed and when it is not.  A trip without
    events raises [IndexError]; a trip with an event at a station that
    [DISTANCE_MAP] does not have raises [KeyError] for the first such
    station; every other trip gets a length, which is not negative. *)
Theorem computeLengthKm_returns_or_raises (svc : Service) :
  match events svc with
  | [] => computeLengthKm svc = LengthIndexError
  | es =>
      match first_unknown es with
      | Some st => computeLengthKm svc = LengthKeyError st
      | None => exists l, computeLengthKm svc = Length l /\ (0 <= l)%Q
      end
  end.
Proof.
  unfold computeLengthKm. destruct (events svc) as [ | e rest]; [reflexivity | ].
  cbn [first_unknown]. destruct (distance_of (atStation e)) as [d | ]; [ | reflexivity].
  apply length_loop_returns. lra.
Qed.

(** ** Durations of trips *)

Lemma atTime_fmt_HM (st : string) (pad : bool) (h m : Z) :
  0 <= h < 24 -> 0 <= m < 60 ->
  exists t, atTime (newStationEvent st (fmt_HM pad h m)) = Some t /\
            (t == inject_Z (shifted (60 * h + m)))%Q.
Proof.
  intros Hh Hm. unfold newStationEvent. cbn [atTime].
  rewrite (timeToMinutes_fmt_HM pad h m Hh Hm). eexists. split; [reflexivity | ].
  rewrite (wrap_minutes_HM h m Hh Hm). unfold shifted.
  destruct (60 * h + m <? 165); [ | reflexivity].
  assert (E : 60 * (h + 24) + m = 60 * h + m + 1440) by lia. rewrite E. reflexivity.
Qed.

(** X20. The duration of a trip whose first and last events carry the
    times [h0:m0] and [h1:m1].  It is the difference of the two minutes
    of the day, each taken on the axis that runs from 02:45 to 02:45 of
    the next day, so it lies strictly between -1440 and 1440; and when the
    departure is not after the arrival on that axis, also across
    midnight, it is the time elapsed between the two clock times. *)
Theorem computeDurationMinutes_elapsed (svc : Service) (st0 st1 : string)
    (p0 p1 : bool) (h0 m0 h1 m1 : Z) :
  0 <= h0 < 24 -> 0 <= m0 < 60 -> 0 <= h1 < 24 -> 0 <= m1 < 60 ->
  hd_error (events svc) = Some (newStationEvent st0 (fmt_HM p0 h0 m0)) ->
  last_opt (events svc) = Some (newStationEvent st1 (fmt_HM p1 h1 m1)) ->
  exists d,
    computeDurationMinutes svc = Ok d /\
    (d == inject_Z (shifted (60 * h1 + m1) - shifted (60 * h0 + m0)))%Q /\
    -1440 < shifted (60 * h1 + m1) - shifted (60 * h0 + m0) < 1440 /\
    (shifted (60 * h0 + m0) <= shifted (60 * h1 + m1) ->
     shifted (60 * h1 + m1) - shifted (60 * h0 + m0) =
     ((60 * h1 + m1) - (60 * h0 + m0)) mod 1440).
Proof.
  intros Hh0 Hm0 Hh1 Hm1 Hhd Hlast.
  destruct (atTime_fmt_HM st0 p0 h0 m0 Hh0 Hm0) as (t0 & Et0 & Eq0).
  destruct (atTime_fmt_HM st1 p1 h1 m1 Hh1 Hm1) as (t1 & Et1 & Eq1).
  exists (t1 - t0)%Q. split; [ | split; [ | split]].
  - unfold computeDurationMinutes. rewrite last_opt_py_last, Hlast. cbn [bind].
    destruct (events svc) as [ | e r]; [discriminate Hhd | ].
    injection Hhd as ->. cbn [py_first bind]. rewrite Et1, Et0. reflexivity.
  - rewrite Eq0, Eq1. unfold Zminus. rewrite inject_Z_plus, inject_Z_opp. reflexivity.
  - unfold shifted. destruct (60 * h1 + m1 <? 165) eqn:E1; destruct (60 * h0 + m0 <? 165) eqn:E0;
      try apply Z.ltb_lt in E1; try apply Z.ltb_ge in E1;
      try apply Z.ltb_lt in E0; try apply Z.ltb_ge in E0; lia.
  - unfold shifted. destruct (60 * h1 + m1 <? 165) eqn:E1; destruct (60 * h0 + m0 <? 165) eqn:E0;
      try apply Z.ltb_lt in E1; try apply Z.ltb_ge in E1;
      try apply Z.ltb_lt in E0; try apply Z.ltb_ge in E0; intros Hle.
    + apply (Z.mod_unique _ 1440 0); lia.
    + apply (Z.mod_unique _ 1440 (-1)); lia.
    + lia.
    + apply (Z.mod_unique _ 1440 0); lia.
Qed.

(** A trip that leaves at 23:50 and arrives at 00:10 lasts 20 minutes. *)
Lemma computeDurationMinutes_elapsed_witness :
  exists d,
    computeDurationMinutes
      {| serviceId := [IdInt 93090]; direction := Some DOWN; rakeSizeReq := None;
         needsACRake := false; linkedTo := None;
         events := [newStationEvent "CHURCHGATE" "23:50"; newStationEvent "BANDRA" "00:10"];
         svc_render := true |} = Ok d /\
    (d == 20)%Q.
Proof.
  destruct (computeDurationMinutes_elapsed
              {| serviceId := [IdInt 93090]; direction := Some DOWN; rakeSizeReq := None;
                 needsACRake := false; linkedTo := None;
                 events := [newStationEvent "CHURCHGATE" "23:50";
                            newStationEvent "BANDRA" "00:10"];
                 svc_render := true |}
              "CHURCHGATE" "BANDRA" true true 23 50 0 10
              ltac:(lia) ltac:(lia) ltac:(lia) ltac:(lia) eq_refl eq_refl)
    as (d & E & Hd & _).
  exists d. split; [exact E | ]. rewrite Hd. reflexivity.
Defined.

(** ** Station names *)

Lemma rstrip_idem (s : string) : rstrip (rstrip s) = rstrip s.
Proof.
  induction s as [ | c r IH]; [reflexivity | ].
  cbn [rstrip]. destruct (rstrip r) as [ | c' r'] eqn:Er.
  - destruct (is_space c) eqn:Ec; [reflexivity | ].
    cbn [rstrip]. rewrite Ec. reflexivity.
  - cbn [rstrip]. cbn [rstrip] in IH.
    destruct (rstrip r') as [ | c'' r''] eqn:Er'.
    + destruct (is_space c') eqn:Ec'; [discriminate IH | ]. rewrite IH. reflexivity.
    + rewrite IH. reflexivity.
Qed.

Lemma lstrip_head (s : string) :
  lstrip s = EmptyString \/ exists c r, lstrip s = String c r /\ is_space c = false.
Proof.
  induction s as [ | c r IH]; [now left | ].
  cbn [lstrip]. destruct (is_space c) eqn:Ec; [exact IH | ].
  right. exists c, r. split; [reflexivity | exact Ec].
Qed.

Lemma strip_idem (s : string) : strip (strip s) = strip s.
Proof.
  unfold strip. destruct (lstrip_head s) as [-> | (c & r & -> & Ec)]; [reflexivity | ].
  assert (H : exists x, rstrip (String c r) = String c x).
  { cbn [rstrip]. destruct (rstrip r); [rewrite Ec | ]; eexists; reflexivity. }
  destruct H as (x & Ex). rewrite Ex. cbn [lstrip]. rewrite Ec.
  rewrite <- Ex. apply rstrip_idem.
Qed.

(** X21. Normalising a station name twice gives what normalising it once
    gives, and a normalised name has no blank at either end. *)
Theorem normalize_station_name_idempotent (name : string) :
  normalize_station_name (normalize_station_name name) = normalize_station_name name /\
  strip (normalize_station_name name) = normalize_station_name name.
Proof.
  assert (Hcases : normalize_station_name name = "M'BAI CENTRAL(L)" \/
                   normalize_station_name name = "KANDIVALI" \/
                   (normalize_station_name name = strip name /\
                    String.eqb (strip name) "M'BAI CENTRAL (L)" = false /\
                    String.eqb (upper (strip name)) "KANDIVLI" = false)).
  { unfold normalize_station_name.
    destruct (String.eqb (strip name) "M'BAI CENTRAL (L)") eqn:E; [left; reflexivity | ].
    destruct (String.eqb (upper (strip name)) "KANDIVLI") eqn:Ek; auto. }
  destruct Hcases as [-> | [-> | (-> & E & Ek)]]; [split; reflexivity | split; reflexivity | ].
  split; [ | apply strip_idem].
  unfold normalize_station_name. rewrite strip_idem, E, Ek. reflexivity.
Qed.

(** ** The chains follow the links *)

Lemma followChain_linked (idMap : dict (K:=SId) (V:=Service))
    (adj : dict (K:=SId) (V:=AdjEntry)) (fuel : nat) :
  forall (sid : SId) (visited visited' : list SId) (chain chain' : list Service),
    followChain fuel idMap adj sid (visited, chain) = Some (visited', chain') ->
    exists trace svcs,
      chain' = chain ++ svcs /\
      services_at idMap trace svcs /\
      chain_linked adj trace /\
      (forall x r, trace = x :: r -> x = sid).
Proof.
  induction fuel as [ | f IH];
    intros sid visited visited' chain chain' H; [discriminate | ].
  cbn [followChain] in H.
  match goal with
  | |- ?G => assert (Hstop : forall v, Some (v, chain) = Some (visited', chain') -> G)
  end.
  { intros v E. injection E as _ <-. exists [], [].
    split; [now rewrite app_nil_r | ]. split; [constructor | ].
    split; [exact I | ]. intros x r E. discriminate E. }
  destruct (sid_mem sid visited); [exact (Hstop _ H) | ].
  destruct (dict_get SId_eqb idMap sid) as [sv | ] eqn:Eg; [ | exact (Hstop _ H)].
  match goal with
  | |- ?G => assert (Hone : Some (sid :: visited, chain ++ [sv]) = Some (visited', chain') -> G)
  end.
  { intros E. injection E as _ <-. exists [sid], [sv].
    split; [reflexivity | ]. split; [constructor; [exact Eg | constructor] | ].
    split; [cbn; auto | ]. intros x r E. injection E as <- _. reflexivity. }
  destruct (next (adj_get adj sid)) as [nxt | ] eqn:En; [ | exact (Hone H)].
  destruct (sid_truthy nxt); [ | exact (Hone H)].
  destruct (IH _ _ _ _ _ H) as (trace & svcs & Hc & Hs & Hl & Hhd).
  exists (sid :: trace), (sv :: svcs).
  split; [rewrite Hc, <- app_assoc; reflexivity | ].
  split; [constructor; assumption | ]. split.
  - cbn [chain_linked]. split; [ | exact Hl].
    destruct trace as [ | y r]; [exact I | ]. rewrite (Hhd y r eq_refl). exact En.
  - intros x r E. injection E as <- _. reflexivity.
Qed.

Lemma start_steps_None (fuel : nat) (idMap : dict (K:=SId) (V:=Service))
    (adj : dict (K:=SId) (V:=AdjEntry)) (keys : list SId) :
  fold_left (start_step fuel idMap adj) keys None = None.
Proof. induction keys as [ | k r IH]; [reflexivity | exact IH]. Qed.

Lemma start_steps_linked (fuel : nat) (idMap : dict (K:=SId) (V:=Service))
    (adj : dict (K:=SId) (V:=AdjEntry)) (keys : list SId) :
  forall (visited visited' : list SId) (cycles cycles' : list (list Service)),
    Forall (fun chain => exists trace, services_at idMap trace chain /\
                                       chain_linked adj trace) cycles ->
    fold_left (start_step fuel idMap adj) keys (Some (visited, cycles)) =
      Some (visited', cycles') ->
    Forall (fun chain => exists trace, services_at idMap trace chain /\
                                       chain_linked adj trace) cycles'.
Proof.
  induction keys as [ | k r IH]; intros visited visited' cycles cycles' Hinv H.
  - cbn in H. injection H as _ <-. exact Hinv.
  - cbn [fold_left] in H. unfold start_step at 2 in H.
    destruct (sid_mem k visited); [exact (IH _ _ _ _ Hinv H) | ].
    destruct (prev (adj_get adj k)); [exact (IH _ _ _ _ Hinv H) | ].
    destruct (next (adj_get adj k)); [ | exact (IH _ _ _ _ Hinv H)].
    destruct (followChain fuel idMap adj k (visited, [])) as [[v1 chain] | ] eqn:Ef.
    + destruct (followChain_linked idMap adj fuel _ _ _ _ _ Ef)
        as (trace & svcs & Hc & Hs & Hl & _).
      cbn [app] in Hc. subst chain.
      destruct svcs as [ | s0 ss]; [exact (IH _ _ _ _ Hinv H) | ].
      apply (IH v1 visited' (cycles ++ [s0 :: ss]) cycles'); [ | exact H].
      apply Forall_app. split; [exact Hinv | ].
      constructor; [ | constructor]. exists trace. split; assumption.
    + rewrite start_steps_None in H. discriminate H.
Qed.

Lemma dict_values_get {K V : Type} (eqb : K -> K -> bool)
    (eqb_eq : forall a b, eqb a b = true <-> a = b)
    (d : dict (K:=K) (V:=V)) (v : V) :
  NoDup (dict_keys d) -> In v (dict_values d) -> exists k, dict_get eqb d k = Some v.
Proof.
  induction d as [ | [k0 v0] r IH]; intros Hnd Hin; [destruct Hin | ].
  cbn in Hin. inversion Hnd as [ | ? ? Hnotin Hnd']; subst.
  destruct Hin as [<- | Hin].
  - exists k0. cbn [dict_get]. rewrite (proj2 (eqb_eq k0 k0) eq_refl). reflexivity.
  - destruct (IH Hnd' Hin) as (k & Hk). exists k. cbn [dict_get].
    destruct (eqb k k0) eqn:E; [ | exact Hk].
    apply eqb_eq in E. subst k. exfalso. apply Hnotin.
    apply (dict_mem_In eqb eqb_eq). unfold dict_mem. rewrite Hk. reflexivity.
Qed.

Lemma link_step_links (idMap : dict (K:=SId) (V:=Service)) (vals : list Service)
    (adj : dict (K:=SId) (V:=AdjEntry)) (sv : Service) :
  In sv vals ->
  (forall x y, next (adj_get adj x) = Some y -> links_to vals x y) ->
  forall x y, next (adj_get (link_step idMap adj sv) x) = Some y -> links_to vals x y.
Proof.
  intros Hin Hinv. unfold link_step.
  destruct (serviceId sv) as [ | sid ids] eqn:Hid; [exact Hinv | ].
  destruct (linkedTo sv) as [[ | c r] | ] eqn:Hl; try exact Hinv.
  destruct (dict_mem SId_eqb idMap (nextId_of (String c r))); [ | exact Hinv].
  set (nextId := nextId_of (String c r)).
  assert (Hnew : links_to vals sid nextId).
  { exists sv, (String c r), ids. auto. }
  intros x y. rewrite !adj_get_set.
  destruct (SId_eqb x nextId) eqn:Ex; cbn [next].
  - apply SId_eqb_eq in Ex. subst x.
    destruct (SId_eqb nextId sid) eqn:En; cbn [next].
    + apply SId_eqb_eq in En. intros H. injection H as <-. rewrite En at 1. exact Hnew.
    + apply Hinv.
  - destruct (SId_eqb x sid) eqn:Exs; cbn [next].
    + apply SId_eqb_eq in Exs. subst x. intros H. injection H as <-. exact Hnew.
    + apply Hinv.
Qed.

Lemma build_adj_links (services : list Service) :
  forall x y,
    next (adj_get (build_adj (idMap_of services)) x) = Some y -> links_to services x y.
Proof.
  set (idMap := idMap_of services).
  assert (Hvals : forall sv, In sv (dict_values idMap) -> In sv services).
  { intros sv Hin.
    destruct (dict_values_get SId_eqb SId_eqb_eq idMap sv (idMap_keys_NoDup services) Hin)
      as (k & Hk).
    exact (proj2 (idMap_get_In services k sv Hk)). }
  unfold build_adj.
  assert (H : forall (l : list Service) (adj : dict (K:=SId) (V:=AdjEntry)),
             (forall sv, In sv l -> In sv services) ->
             (forall x y, next (adj_get adj x) = Some y -> links_to services x y) ->
             forall x y, next (adj_get (fold_left (link_step idMap) l adj) x) = Some y ->
                         links_to services x y).
  { induction l as [ | sv r IH]; intros adj Hl Hadj; [exact Hadj | ].
    cbn [fold_left]. apply IH; [intros s Hs; apply Hl; now right | ].
    apply link_step_links; [apply Hl; now left | exact Hadj]. }
  apply H; [exact Hvals | ]. intros x y Hxy. cbn in Hxy. discriminate.
Qed.

Lemma chain_linked_follows (services : list Service) (trace : list SId) :
  chain_linked (build_adj (idMap_of services)) trace -> follows_links services trace.
Proof.
  induction trace as [ | x rest IH]; [auto | ].
  cbn [chain_linked follows_links]. intros [H1 H2]. split; [ | exact (IH H2)].
  destruct rest as [ | y r]; [exact I | ]. exact (build_adj_links services x y H1).
Qed.

(** X22. The chains follow the links of the grid.  Every chain holds the
    services registered under a sequence of identifiers in which each
    identifier but the last is linked to the next one: some service with
    that first identifier has a [linkedTo] that reads as the next
    identifier. *)
Theorem chains_follow_links (services : list Service) (chains : list (list Service)) :
  makeRakeCyclePathsSV services = Some chains ->
  Forall (fun chain =>
            exists trace,
              services_at (idMap_of services) trace chain /\
              follows_links services trace) chains.
Proof.
  unfold makeRakeCyclePathsSV, makeRakeCyclePathsSV_run.
  destruct (fold_left _ _ _) as [[visited cycles] | ] eqn:E; [ | discriminate].
  cbn [option_map snd]. intros H. injection H as <-.
  pose proof (start_steps_linked _ _ _ _ _ _ _ _ (Forall_nil _) E) as Hl.
  eapply Forall_impl; [ | exact Hl].
  intros chain (trace & Hs & Hc). exists trace. split; [exact Hs | ].
  apply chain_linked_follows. exact Hc.
Qed.

(** The chain of the sample trips: trip 93001 is linked to trip 93002. *)
Lemma chains_follow_links_witness :
  exists trace,
    services_at (idMap_of sample_services) trace sample_chain /\
    follows_links sample_services trace.
Proof.
  pose proof (chains_follow_links sample_services [sample_chain] chains_of_sample) as H.
  inversion H as [ | ? ? Hx _]. exact Hx.
Defined.

(** ** The suburban services *)

Lemma allServices_of_returns (services : list Service) :
  Forall (fun s => serviceId s <> []) services ->
  exists all, allServices_of services = Ok all.
Proof.
  unfold allServices_of. generalize (@nil (string * Service)).
  induction services as [ | s r IH]; intros acc H.
  - exists acc. reflexivity.
  - inversion H as [ | ? ? Hs Hr]; subst. cbn [forM].
    destruct (serviceId s) as [ | sid ids]; [congruence | ].
    cbn [py_first bind]. apply IH. exact Hr.
Qed.

Lemma dict_mem_set_K {V : Type} (d : dict (K:=SId) (V:=V)) (k k' : SId) (v : V) :
  dict_mem SId_eqb (dict_set SId_eqb d k v) k' = SId_eqb k' k || dict_mem SId_eqb d k'.
Proof.
  unfold dict_mem. rewrite (dict_get_set SId_eqb SId_eqb_eq).
  destruct (SId_eqb k' k); reflexivity.
Qed.

Lemma register_ids_mem (s : Service) (ids : list SId) :
  forall (m : dict (K:=SId) (V:=Service)) (k : SId),
    dict_mem SId_eqb (fold_left (fun m' sid => dict_set SId_eqb m' sid s) ids m) k =
    sid_mem k ids || dict_mem SId_eqb m k.
Proof.
  induction ids as [ | id r IH]; intros m k; [reflexivity | ].
  cbn [fold_left]. rewrite IH, dict_mem_set_K. unfold sid_mem. cbn [existsb].
  destruct (SId_eqb k id); destruct (existsb (SId_eqb k) r); reflexivity.
Qed.

Lemma idMap_of_mem (services : list Service) (k : SId) :
  dict_mem SId_eqb (idMap_of services) k =
  existsb (fun s => sid_mem k (serviceId s)) services.
Proof.
  unfold idMap_of.
  assert (H : forall (l : list Service) (m : dict (K:=SId) (V:=Service)),
             dict_mem SId_eqb
               (fold_left (fun m s => fold_left (fun m' sid => dict_set SId_eqb m' sid s)
                                        (serviceId s) m) l m) k =
             existsb (fun s => sid_mem k (serviceId s)) l || dict_mem SId_eqb m k).
  { induction l as [ | s r IH]; intros m; [reflexivity | ].
    cbn [fold_left existsb]. rewrite IH, register_ids_mem.
    destruct (sid_mem k (serviceId s)); destruct (existsb _ r); reflexivity. }
  rewrite H. apply orb_false_r.
Qed.

(** X23. The suburban services that the parser hands to the
    reconciler.  Each of them has an identifier, so the dictionary of
    [fixPath] over them is built without error; and every declared
    identifier that some service of the grids carries is registered in
    the identifier map of the link resolver. *)
Theorem suburban_services_registered (rakecycles : list RakeCycle)
    (upServices downServices : list Service) :
  (exists all,
      allServices_of (isolateSuburbanServices rakecycles upServices downServices) = Ok all) /\
  (forall rc sid s,
      In rc rakecycles -> In sid (serviceIds rc) ->
      In s (upServices ++ downServices) -> In sid (serviceId s) ->
      dict_mem SId_eqb
        (idMap_of (isolateSuburbanServices rakecycles upServices downServices)) sid = true).
Proof.
  split.
  - apply allServices_of_returns. apply Forall_forall. intros s Hs.
    unfold isolateSuburbanServices in Hs. apply filter_In in Hs. destruct Hs as [_ Hex].
    destruct (serviceId s); [discriminate Hex | discriminate].
  - intros rc sid s Hrc Hsid Hs Hcar. rewrite idMap_of_mem. apply existsb_exists.
    exists s. split; [ | apply sid_mem_In; exact Hcar].
    unfold isolateSuburbanServices. apply filter_In. split; [exact Hs | ].
    apply existsb_exists. exists sid. split; [exact Hcar | ].
    apply sid_mem_In. apply in_flat_map. exists rc. auto.
Qed.

(** Link [A] declares trips 93001 and 93002; the isolated trip 93050 is
    declared by no link. *)
Lemma suburban_services_registered_witness :
  isolateSuburbanServices [cycle_A] [svc_93001; svc_93050] [svc_93002] =
    [svc_93001; svc_93002] /\
  dict_mem SId_eqb
    (idMap_of (isolateSuburbanServices [cycle_A] [svc_93001; svc_93050] [svc_93002]))
    (IdInt 93001) = true.
Proof.
  split; [vm_compute; reflexivity | ].
  apply (proj2 (suburban_services_registered [cycle_A] [svc_93001; svc_93050] [svc_93002])
           cycle_A (IdInt 93001) svc_93001).
  - now left.
  - cbn. tauto.
  - cbn. tauto.
  - cbn. tauto.
Defined.

(** ** RAKELINK mode: the visible cycles *)



(** ** No service twice in the chains *)

(** X25. When every service has a single identifier, the link resolver
    returns chains in which no service occurs twice, within a chain or
    across chains. *)
Theorem chains_share_no_service (services : list Service) (chains : list (list Service)) :
  (forall sv, In sv services -> (List.length (serviceId sv) <= 1)%nat) ->
  makeRakeCyclePathsSV services = Some chains ->
  NoDup (List.concat chains).
Proof.
  intros Hone Hrun.
  set (idMap := idMap_of services). set (adj := build_adj idMap).
  assert (Hlen : List.length (dict_keys idMap) = List.length idMap).
  { unfold dict_keys. apply length_map. }
  destruct (start_steps_inv idMap adj (S (List.length idMap)) (dict_keys idMap)
              (build_adj_linked_back idMap) ltac:(lia) [] ([], []) eq_refl
              (idMap_keys_NoDup services))
    as ([visited chains0] & E & (traces & Hv & Hnd & Hs & _)).
  { exists []. cbn [fst snd]. split; [reflexivity | ]. split; [constructor | ].
    split; [constructor | ]. split; [reflexivity | ]. intros v0 []. }
  cbn [fst snd app] in *.
  unfold makeRakeCyclePathsSV, makeRakeCyclePathsSV_run in Hrun.
  fold idMap in Hrun. fold adj in Hrun. rewrite E in Hrun. cbn in Hrun.
  injection Hrun as <-.
  apply (chains_services_NoDup services traces chains0 Hone Hs).
  rewrite Hv in Hnd. apply NoDup_rev in Hnd. rewrite rev_involutive in Hnd. exact Hnd.
Qed.

(** The sample trips have one identifier each. *)
Lemma chains_share_no_service_witness : NoDup (List.concat [sample_chain]).
Proof.
  apply (chains_share_no_service sample_services [sample_chain]).
  - intros sv [<- | [<- | [<- | []]]]; cbn; lia.
  - vm_compute. reflexivity.
Defined.

(** ** LinkResolver and the graph of the links *)




















(** ** SERVICE mode: an event without a time at a queried station *)

(** X24. With a window set, the passing-through check of a service
    raises [TypeError] when the first queried station that does not pass
    has, as the last event of the service there, one whose time is
    [None]: the comparison of that time with the window is not guarded,
    as it is in STATION mode and in RAKELINK mode. *)
Theorem service_passing_through_null_time (qq : FilterQuery) (svc : Service) (lo hi : Z)
    (pre post : list string) (st : string) :
  inTimePeriod qq = Some (lo, hi) ->
  passingThrough qq = pre ++ st :: post ->
  Forall (station_passes lo hi (events svc)) pre ->
  last_time_at (upper st) (events svc) = Some None ->
  checkPassingThroughConstraint qq svc = Raise TypeError.
Proof.
  intros Hp Hq Hpre Hlast.
  assert (Hst : ~ station_passes lo hi (events svc) st).
  { intros (t & Ht & _). unfold station_passes in *. congruence. }
  rewrite (checkPassingThroughConstraint_first_failing qq lo hi svc pre post st
             Hp Hq Hpre Hst), Hlast.
  reflexivity.
Qed.

(** Trip 93003, whose event at BORIVALI has no time, under a query that
    names BORIVALI after VIRAR. *)
Lemma service_passing_through_null_time_witness :
  checkPassingThroughConstraint
    (mkQuery (Some SERVICE) None None ["Virar"; "Borivali"] (Some (500, 600)) None None)
    svc_93003 = Raise TypeError.
Proof.
  apply (service_passing_through_null_time
           (mkQuery (Some SERVICE) None None ["Virar"; "Borivali"] (Some (500, 600)) None None)
           svc_93003 500 600 ["Virar"] [] "Borivali" eq_refl eq_refl).
  - constructor; [ | constructor].
    eexists. split; [vm_compute; reflexivity | ].
    apply in_window_inside. vm_compute. reflexivity.
  - vm_compute. reflexivity.
Defined.
